(** * The parallel window operator of DuckDB: task scheduling and hash groups

    A shallow embedding of [src/execution/operator/aggregate/physical_window.cpp]:
    the hash groups with their phase counters, the task list built by the
    global source state, the task dispenser, the sink finalisation and the
    operator's exception handler, followed by the properties of the
    specification that were checked against them. *)

From Stdlib Require Import NArith Lia List Bool.
From stdpp Require Import base numbers option list sorting strings.

Local Open Scope N_scope.

(** ** Machine integers

    [idx_t] is an unsigned 64-bit integer.  Values are kept in [N] and every
    arithmetic operation of the source that can wrap is written with its
    reduction modulo [2^64]. *)

Abbreviation idx_t := N (only parsing).

Module idx.
Definition modulus : N := 2 ^ 64.
Definition wrap (n : N) : idx_t := n mod modulus.
Definition add (a b : idx_t) : idx_t := wrap (a + b).
Definition sub (a b : idx_t) : idx_t := wrap (a + (modulus - wrap b)).
(** [++x] and [--x] *)
Definition incr (a : idx_t) : idx_t := add a 1.
Definition decr (a : idx_t) : idx_t := sub a 1.
(** [vector::size()] *)
Definition size {A} (l : list A) : idx_t := N.of_nat (length l).
(** [MinValue<idx_t>] *)
Definition MinValue (a b : idx_t) : idx_t := if a <? b then a else b.
End idx.

(** ** Faults

    Operations that the C++ leaves undefined (dereferencing an empty
    [unique_ptr], indexing past the end of a vector, dividing by zero) and
    loops that have not finished within their fuel end the computation with a
    [Fault]. *)

Inductive fault : Set :=
| NullDereference
| OutOfRange
| DivisionByZero
| OutOfFuel.

Inductive outcome (A : Type) : Type :=
| Ok (a : A)
| Fault (f : fault).
Arguments Ok {A} a.
Arguments Fault {A} f.

#[global] Instance outcome_ret : MRet outcome := fun A a => Ok a.
#[global] Instance outcome_bind : MBind outcome := fun A B k m =>
  match m with
  | Ok a => k a
  | Fault f => Fault f
  end.

(** [*p] for a [unique_ptr] or [optional_ptr] *)
Definition deref {A} (p : option A) : outcome A :=
  match p with
  | Some a => Ok a
  | None => Fault NullDereference
  end.

(** [v[i]] for a vector *)
Definition at_index {A} (v : list A) (i : idx_t) : outcome A :=
  match v !! N.to_nat i with
  | Some a => Ok a
  | None => Fault OutOfRange
  end.

(** ** Data model *)

(** [enum WindowGroupStage : uint8_t { SINK, FINALIZE, GETDATA, DONE }] *)
Inductive WindowGroupStage : Set := SINK | FINALIZE | GETDATA | DONE.

#[global] Instance WindowGroupStage_eq_dec : EqDecision WindowGroupStage.
Proof. solve_decision. Defined.

(** The enumerators' underlying values. *)
Definition stage_value (s : WindowGroupStage) : N :=
  match s with
  | SINK => 0
  | FINALIZE => 1
  | GETDATA => 2
  | DONE => 3
  end.

(** A block of a row collection; only its row count is observed here. *)
Module RowDataBlock.
Record t : Set := mk { count : idx_t }.
End RowDataBlock.

Module RowDataCollection.
Record t : Set := mk {
  blocks : list RowDataBlock.t;
  count : idx_t;
  keep_pinned : bool
}.

(** [CloneEmpty]: a collection with the same parameters and no blocks. *)
Definition CloneEmpty (c : t) (keep_pinned_p : bool) : t :=
  mk [] 0 keep_pinned_p.
End RowDataCollection.

(** [std::accumulate(blocks.begin(), blocks.end(), idx_t(0), c + b->count)] *)
Definition accumulate_counts (bs : list RowDataBlock.t) : idx_t :=
  fold_left (fun c b => idx.add c (RowDataBlock.count b)) bs 0.

(** The payload of a sorted block: [sb.payload_data]. *)
Module SortedData.
Record t : Set := mk {
  data_blocks : list RowDataBlock.t;
  heap_blocks : list RowDataBlock.t
}.
End SortedData.

Module GlobalSortState.
Record t : Set := mk {
  (** each sorted block is represented by its payload data *)
  sorted_blocks : list SortedData.t;
  external : bool
}.
End GlobalSortState.

Module PartitionGlobalHashGroup.
Record t : Set := mk {
  count : idx_t;
  global_sort : GlobalSortState.t
}.
End PartitionGlobalHashGroup.

(** [class WindowHashGroup].  The masks, the row layout, the executor states
    and the mutex are owned by the group and die with it; no operation below
    reads them, so the record keeps the remaining members.  [external] has no
    initialiser in the class: [None] is the indeterminate value. *)
Module WindowHashGroup.
Record t : Set := mk {
  hash_group : option PartitionGlobalHashGroup.t;
  count : idx_t;
  blocks : idx_t;
  rows : option RowDataCollection.t;
  heap : option RowDataCollection.t;
  external : option bool;
  hash_bin : idx_t;
  sunk : idx_t;
  finalized : idx_t;
  tasks_remaining : idx_t;
  batch_base : idx_t
}.

Definition set_tasks_remaining (n : idx_t) (g : t) : t :=
  mk (hash_group g) (count g) (blocks g) (rows g) (heap g) (external g)
     (hash_bin g) (sunk g) (finalized g) n (batch_base g).

Definition set_batch_base (n : idx_t) (g : t) : t :=
  mk (hash_group g) (count g) (blocks g) (rows g) (heap g) (external g)
     (hash_bin g) (sunk g) (finalized g) (tasks_remaining g) n.

Definition set_sunk (n : idx_t) (g : t) : t :=
  mk (hash_group g) (count g) (blocks g) (rows g) (heap g) (external g)
     (hash_bin g) n (finalized g) (tasks_remaining g) (batch_base g).

Definition set_finalized (n : idx_t) (g : t) : t :=
  mk (hash_group g) (count g) (blocks g) (rows g) (heap g) (external g)
     (hash_bin g) (sunk g) n (tasks_remaining g) (batch_base g).

(** The processing stage for this group. *)
Definition GetStage (g : t) : WindowGroupStage :=
  let result := SINK in
  let result := if sunk g =? count g then FINALIZE else result in
  let result := if finalized g =? blocks g then GETDATA else result in
  result.
End WindowHashGroup.


(** [class WindowPartitionGlobalSinkState : public PartitionGlobalSinkState].
    The global sink state owns exactly one of these ([global_partition]) and
    every operation below reaches the sunk data through it, so
    [gsink.global_partition->m] is written [m gpart].  [HasMergeTasks] is the
    answer of the partitioner's method of that name. *)
Module WindowPartitionGlobalSinkState.
Record t : Set := mk {
  count : idx_t;
  rows : option RowDataCollection.t;
  strings : option RowDataCollection.t;
  hash_groups : list (option PartitionGlobalHashGroup.t);
  external : bool;
  HasMergeTasks : bool;
  window_hash_groups : list (option WindowHashGroup.t)
}.

Definition set_window_hash_groups (whg : list (option WindowHashGroup.t))
    (p : t) : t :=
  mk (count p) (rows p) (strings p) (hash_groups p) (external p)
     (HasMergeTasks p) whg.

Definition set_hash_groups (hgs : list (option PartitionGlobalHashGroup.t))
    (p : t) : t :=
  mk (count p) (rows p) (strings p) hgs (external p)
     (HasMergeTasks p) (window_hash_groups p).

Definition set_collections (r s : option RowDataCollection.t) (p : t) : t :=
  mk (count p) r s (hash_groups p) (external p)
     (HasMergeTasks p) (window_hash_groups p).
End WindowPartitionGlobalSinkState.

(** [struct WindowGlobalSourceState::Task] *)
Module Task.
Record t : Set := mk {
  stage : WindowGroupStage;
  group_idx : idx_t;
  max_idx : idx_t;
  begin_idx : idx_t;
  end_idx : idx_t
}.

(** [Task(stage, group_idx, max_idx)] with the default member initialisers. *)
Definition ctor (stage_p : WindowGroupStage) (group_idx_p max_idx_p : idx_t) : t :=
  mk stage_p group_idx_p max_idx_p 0 0.

Definition set_begin_idx (n : idx_t) (k : t) : t :=
  mk (stage k) (group_idx k) (max_idx k) n (end_idx k).

Definition set_end_idx (n : idx_t) (k : t) : t :=
  mk (stage k) (group_idx k) (max_idx k) (begin_idx k) n.
End Task.

(** An interrupt state stands for the blocked caller it wakes. *)
Module InterruptState.
Record t : Set := mk { waiter : nat }.
End InterruptState.

(** [class WindowGlobalSourceState].  A [TaskPtr] points into [tasks] and is
    kept as the position it points at. *)
Module WindowGlobalSourceState.
Record t : Set := mk {
  gsink : WindowPartitionGlobalSinkState.t;
  tasks : list Task.t;
  next_task : idx_t;
  stopped : bool;
  returned : idx_t;
  blocked_tasks : list InterruptState.t
}.

Definition set_gsink (p : WindowPartitionGlobalSinkState.t) (s : t) : t :=
  mk p (tasks s) (next_task s) (stopped s) (returned s) (blocked_tasks s).

Definition set_next_task (n : idx_t) (s : t) : t :=
  mk (gsink s) (tasks s) n (stopped s) (returned s) (blocked_tasks s).

Definition set_stopped (b : bool) (s : t) : t :=
  mk (gsink s) (tasks s) (next_task s) b (returned s) (blocked_tasks s).

Definition set_returned (n : idx_t) (s : t) : t :=
  mk (gsink s) (tasks s) (next_task s) (stopped s) n (blocked_tasks s).

Definition set_blocked_tasks (q : list InterruptState.t) (s : t) : t :=
  mk (gsink s) (tasks s) (next_task s) (stopped s) (returned s) q.

Definition MaxThreads (s : t) : idx_t := idx.size (tasks s).
End WindowGlobalSourceState.

Abbreviation TaskPtr := (option idx_t) (only parsing).

(** ** Building a hash group *)

(** [WindowHashGroup::MaterializeSortedData]: move the sorted payload into the
    group's own collections.  The data blocks are moved out of the sorted
    block ([std::move(sd.data_blocks)]), which is left without any; the
    sorter's hash group is dropped when the heap blocks are moved as well and
    is kept, with its emptied sorted block, when there are none.  The radix
    and blob sorting data that are cleared first are not part of the record.
    A collection made by [make_uniq] does not keep its blocks pinned unless
    asked to. *)
Definition MaterializeSortedData (g : WindowHashGroup.t) : outcome WindowHashGroup.t :=
  hash_group ← deref (WindowHashGroup.hash_group g);
  let global_sort_state := PartitionGlobalHashGroup.global_sort hash_group in
  match GlobalSortState.sorted_blocks global_sort_state with
  | [] => Ok g
  | sd :: sorted_blocks =>
      (* Data blocks are required *)
      _ ← at_index (SortedData.data_blocks sd) 0;
      (* Move the sorting row blocks into our RDCs *)
      let rows :=
        RowDataCollection.mk (SortedData.data_blocks sd)
          (accumulate_counts (SortedData.data_blocks sd)) false in
      let moved_out :=
        PartitionGlobalHashGroup.mk (PartitionGlobalHashGroup.count hash_group)
          (GlobalSortState.mk
             (SortedData.mk [] (SortedData.heap_blocks sd) :: sorted_blocks)
             (GlobalSortState.external global_sort_state)) in
      (* Heap blocks are optional, but we want both for iteration. *)
      let '(heap_blocks, pinned, hash_group') :=
        match SortedData.heap_blocks sd with
        | [] => ([], true, Some moved_out)
        | _ :: _ => (SortedData.heap_blocks sd, false, None)
        end in
      let heap := RowDataCollection.mk heap_blocks (accumulate_counts heap_blocks) pinned in
      Ok (WindowHashGroup.mk hash_group' (WindowHashGroup.count g)
            (WindowHashGroup.blocks g) (Some rows) (Some heap)
            (WindowHashGroup.external g) (WindowHashGroup.hash_bin g)
            (WindowHashGroup.sunk g) (WindowHashGroup.finalized g)
            (WindowHashGroup.tasks_remaining g) (WindowHashGroup.batch_base g))
  end.

(** What [RowDataCollectionScanner::AlignHeapBlocks] leaves in the four
    collections it is handed. *)
Module Aligned.
Record t : Set := mk {
  swizzled_block_collection : RowDataCollection.t;
  swizzled_string_heap : RowDataCollection.t;
  block_collection : RowDataCollection.t;
  string_heap : RowDataCollection.t
}.
End Aligned.

Section HashGroups.

(** [RowDataCollectionScanner::AlignHeapBlocks] belongs to the row scanner
    and is not part of this file: it is a parameter of the construction. *)
Variable AlignHeapBlocks :
  RowDataCollection.t -> RowDataCollection.t ->
  RowDataCollection.t -> RowDataCollection.t -> Aligned.t.

(** [WindowHashGroup::WindowHashGroup(gstate, hash_bin_p)].  The constructor
    also changes the partition it reads from: it takes the hash group out of
    its bin, or hands the unpartitioned collections to [AlignHeapBlocks]. *)
Definition WindowHashGroup_ctor (gpart : WindowPartitionGlobalSinkState.t)
    (hash_bin_p : idx_t)
    : outcome (WindowHashGroup.t * WindowPartitionGlobalSinkState.t) :=
  let hash_groups := WindowPartitionGlobalSinkState.hash_groups gpart in
  let in_range := hash_bin_p <? idx.size hash_groups in
  let bin := if in_range then mjoin (hash_groups !! N.to_nat hash_bin_p) else None in
  let unpartitioned :=
    bool_decide (is_Some (WindowPartitionGlobalSinkState.rows gpart))
    && (hash_bin_p =? 0) in
  let fresh count external :=
    WindowHashGroup.mk None count 0 None None external hash_bin_p 0 0 0 0 in
  (* How big is the partition? *)
  let sized :=
    match bin with
    | Some hg => Some (PartitionGlobalHashGroup.count hg)
    | None =>
        if unpartitioned then Some (WindowPartitionGlobalSinkState.count gpart)
        else None
    end in
  match sized with
  | None => Ok (fresh 0 None, gpart)
  | Some count =>
      (* Scan the sorted data into new Collections *)
      let external := WindowPartitionGlobalSinkState.external gpart in
      '(g, gpart) ←
        (if unpartitioned then
           (* No partition - align the heap blocks with the row blocks *)
           gpart_rows ← deref (WindowPartitionGlobalSinkState.rows gpart);
           gpart_strings ← deref (WindowPartitionGlobalSinkState.strings gpart);
           let rows :=
             RowDataCollection.CloneEmpty gpart_rows
               (RowDataCollection.keep_pinned gpart_rows) in
           let heap :=
             RowDataCollection.CloneEmpty gpart_strings
               (RowDataCollection.keep_pinned gpart_strings) in
           let al := AlignHeapBlocks rows heap gpart_rows gpart_strings in
           Ok (WindowHashGroup.mk None count 0
                 (Some (Aligned.swizzled_block_collection al))
                 (Some (Aligned.swizzled_string_heap al))
                 (Some true) hash_bin_p 0 0 0 0,
               WindowPartitionGlobalSinkState.set_collections
                 (Some (Aligned.block_collection al))
                 (Some (Aligned.string_heap al)) gpart)
         else if in_range then
           (* Overwrite the collections with the sorted data *)
           hg ← deref bin;
           let gpart :=
             WindowPartitionGlobalSinkState.set_hash_groups
               (<[N.to_nat hash_bin_p := None]> hash_groups) gpart in
           let g :=
             WindowHashGroup.mk (Some hg) count 0 None None
               (Some (GlobalSortState.external
                        (PartitionGlobalHashGroup.global_sort hg)))
               hash_bin_p 0 0 0 0 in
           g ← MaterializeSortedData g;
           Ok (g, gpart)
         else Ok (fresh count (Some external), gpart));
      let blocks :=
        match WindowHashGroup.rows g with
        | Some rows => idx.size (RowDataCollection.blocks rows)
        | None => WindowHashGroup.blocks g
        end in
      Ok (WindowHashGroup.mk (WindowHashGroup.hash_group g)
            (WindowHashGroup.count g) blocks (WindowHashGroup.rows g)
            (WindowHashGroup.heap g) (WindowHashGroup.external g)
            (WindowHashGroup.hash_bin g) (WindowHashGroup.sunk g)
            (WindowHashGroup.finalized g) (WindowHashGroup.tasks_remaining g)
            (WindowHashGroup.batch_base g),
          gpart)
  end.

(** [vector::resize(n)]: keep the first [n] slots, pad with empty pointers. *)
Definition resize {A} (n : nat) (v : list (option A)) : list (option A) :=
  take n v ++ replicate (n - length v)%nat None.

(** [WindowPartitionGlobalSinkState::OnBeginMerge] *)
Definition OnBeginMerge (gpart : WindowPartitionGlobalSinkState.t)
    : WindowPartitionGlobalSinkState.t :=
  WindowPartitionGlobalSinkState.set_window_hash_groups
    (resize (length (WindowPartitionGlobalSinkState.hash_groups gpart))
       (WindowPartitionGlobalSinkState.window_hash_groups gpart))
    gpart.

(** [WindowPartitionGlobalSinkState::OnSortedPartition(group_idx)] *)
Definition OnSortedPartition (group_idx : idx_t)
    (gpart : WindowPartitionGlobalSinkState.t)
    : outcome WindowPartitionGlobalSinkState.t :=
  '(g, gpart) ← WindowHashGroup_ctor gpart group_idx;
  let whg := WindowPartitionGlobalSinkState.window_hash_groups gpart in
  _ ← at_index whg group_idx;
  Ok (WindowPartitionGlobalSinkState.set_window_hash_groups
        (<[N.to_nat group_idx := Some g]> whg) gpart).

End HashGroups.

(** ** Building the task list *)

(** [using PartitionBlock = std::pair<idx_t, idx_t>]: block count, group. *)
Abbreviation PartitionBlock := (idx_t * idx_t)%type (only parsing).

(** [std::greater<PartitionBlock>]: the lexicographic [operator>] of pairs. *)
Definition PartitionBlock_greater (a b : PartitionBlock) : Prop :=
  b.1 < a.1 \/ (a.1 = b.1 /\ b.2 < a.2).

#[global] Instance PartitionBlock_greater_dec a b :
  Decision (PartitionBlock_greater a b).
Proof. unfold PartitionBlock_greater. apply _. Defined.

(** In a range sorted with comparator [comp], an element [a] may stand before
    [b] when [!comp(b, a)]. *)
Definition greater_sorted (a b : PartitionBlock) : Prop :=
  ~ PartitionBlock_greater b a.

#[global] Instance greater_sorted_dec a b : Decision (greater_sorted a b).
Proof. unfold greater_sorted. apply _. Defined.

(** [std::sort(first, last, std::greater<PartitionBlock>())].  The order is
    total on pairs, so the sorted range is unique and any sorting algorithm
    computes it (see [std_sort_greater_unique]). *)
Definition std_sort_greater (v : list PartitionBlock) : list PartitionBlock :=
  merge_sort greater_sorted v.

(** The three passes every group goes through, in scheduling order. *)
Definition states : list WindowGroupStage := [SINK; FINALIZE; GETDATA].

(** Monadic left fold: a range-based [for] whose body may fault. *)
Fixpoint for_each {A S} (body : S -> A -> outcome S) (v : list A) (s : S)
    : outcome S :=
  match v with
  | [] => Ok s
  | a :: v' => s' ← body s a; for_each body v' s'
  end.

(** The first loop of the constructor: hand every populated group its
    [batch_base].  Empty slots and groups without rows are skipped. *)
Fixpoint assign_batch_base (batch_base : idx_t)
    (window_hash_groups : list (option WindowHashGroup.t))
    : list (option WindowHashGroup.t) :=
  match window_hash_groups with
  | [] => []
  | None :: rest => None :: assign_batch_base batch_base rest
  | Some window_hash_group :: rest =>
      match WindowHashGroup.rows window_hash_group with
      | None => Some window_hash_group :: assign_batch_base batch_base rest
      | Some rows =>
          let block_count := idx.size (RowDataCollection.blocks rows) in
          Some (WindowHashGroup.set_batch_base batch_base window_hash_group)
            :: assign_batch_base (idx.add batch_base block_count) rest
      end
  end.

(** The second loop: one [PartitionBlock] per slot.  Neither the slot nor the
    group's [rows] is tested before it is dereferenced. *)
Fixpoint collect_partition_blocks (group_idx : idx_t)
    (window_hash_groups : list (option WindowHashGroup.t))
    : outcome (list PartitionBlock) :=
  match window_hash_groups with
  | [] => Ok []
  | slot :: rest =>
      window_hash_group ← deref slot;
      rows ← deref (WindowHashGroup.rows window_hash_group);
      partition_blocks ← collect_partition_blocks (idx.incr group_idx) rest;
      Ok ((idx.size (RowDataCollection.blocks rows), group_idx) :: partition_blocks)
  end.

(** [(max_block.first + threads - 1) / threads] *)
Definition per_thread_of (max_blocks threads : idx_t) : outcome idx_t :=
  if threads =? 0 then Fault DivisionByZero
  else Ok (idx.sub (idx.add max_blocks threads) 1 / threads).

(** The innermost loop:
    [for (Task task(...); task.begin_idx < task.max_idx; task.begin_idx += per_thread)]. *)
Fixpoint emit_tasks (fuel : nat) (per_thread : idx_t) (task : Task.t)
    (st : list Task.t * list (option WindowHashGroup.t))
    : outcome (list Task.t * list (option WindowHashGroup.t)) :=
  if Task.begin_idx task <? Task.max_idx task then
    match fuel with
    | O => Fault OutOfFuel
    | S fuel' =>
        let task :=
          Task.set_end_idx
            (idx.MinValue (idx.add (Task.begin_idx task) per_thread)
               (Task.max_idx task)) task in
        let tasks := st.1 ++ [task] in
        slot ← at_index st.2 (Task.group_idx task);
        g ← deref slot;
        let g :=
          WindowHashGroup.set_tasks_remaining
            (idx.incr (WindowHashGroup.tasks_remaining g)) g in
        let groups := <[N.to_nat (Task.group_idx task) := Some g]> st.2 in
        emit_tasks fuel' per_thread
          (Task.set_begin_idx (idx.add (Task.begin_idx task) per_thread) task)
          (tasks, groups)
    end
  else Ok st.

Section GlobalSource.

Variable AlignHeapBlocks :
  RowDataCollection.t -> RowDataCollection.t ->
  RowDataCollection.t -> RowDataCollection.t -> Aligned.t.

(** The constructor up to and including the [batch_base] loop. *)
Definition prepare_hash_groups (gpart : WindowPartitionGlobalSinkState.t)
    : outcome WindowPartitionGlobalSinkState.t :=
  match WindowPartitionGlobalSinkState.window_hash_groups gpart with
  | [] =>
      (* OVER() *)
      match WindowPartitionGlobalSinkState.rows gpart with
      | Some rows =>
          match RowDataCollection.blocks rows with
          | [] => Ok gpart
          | _ :: _ =>
              '(g, gpart) ← WindowHashGroup_ctor AlignHeapBlocks gpart 0;
              Ok (WindowPartitionGlobalSinkState.set_window_hash_groups
                    (WindowPartitionGlobalSinkState.window_hash_groups gpart
                       ++ [Some g]) gpart)
          end
      | None => Ok gpart
      end
  | whg =>
      Ok (WindowPartitionGlobalSinkState.set_window_hash_groups
            (assign_batch_base 0 whg) gpart)
  end.

(** [WindowGlobalSourceState::WindowGlobalSourceState(context, gsink)].
    [threads] is [idx_t(NumberOfThreads())]; [fuel] bounds the iterations of
    each task-emitting loop. *)
Definition WindowGlobalSourceState_ctor (fuel : nat) (threads : idx_t)
    (gsink_p : WindowPartitionGlobalSinkState.t)
    : outcome WindowGlobalSourceState.t :=
  gpart ← prepare_hash_groups gsink_p;
  let window_hash_groups :=
    WindowPartitionGlobalSinkState.window_hash_groups gpart in
  match window_hash_groups with
  | [] => Ok (WindowGlobalSourceState.mk gpart [] 0 false 0 [])
  | _ :: _ =>
      (* Sort the groups from largest to smallest *)
      partition_blocks ← collect_partition_blocks 0 window_hash_groups;
      let partition_blocks := std_sort_greater partition_blocks in
      (* Schedule the largest group on as many threads as possible *)
      max_block ← at_index partition_blocks 0;
      per_thread ← per_thread_of max_block.1 threads;
      '(tasks, groups) ←
        for_each
          (fun st b =>
             for_each
               (fun st state =>
                  emit_tasks fuel per_thread (Task.ctor state b.2 b.1) st)
               states st)
          partition_blocks ([], window_hash_groups);
      Ok (WindowGlobalSourceState.mk
            (WindowPartitionGlobalSinkState.set_window_hash_groups groups gpart)
            tasks 0 false 0 [])
  end.

End GlobalSource.

(** ** Dispensing and finishing tasks *)

(** [WindowGlobalSourceState::TryNextTask(task)]: the task handed back through
    the reference argument, the returned flag and the state afterwards. *)
Definition TryNextTask (s : WindowGlobalSourceState.t)
    : outcome (TaskPtr * bool * WindowGlobalSourceState.t) :=
  if (idx.size (WindowGlobalSourceState.tasks s) <=? WindowGlobalSourceState.next_task s)
     || WindowGlobalSourceState.stopped s
  then Ok (None, true, s)
  else
    (* If the next task matches the current state of its group, then we can
       use it.  Otherwise block. *)
    let task := WindowGlobalSourceState.next_task s in
    k ← at_index (WindowGlobalSourceState.tasks s) task;
    slot ← at_index
             (WindowPartitionGlobalSinkState.window_hash_groups
                (WindowGlobalSourceState.gsink s))
             (Task.group_idx k);
    window_hash_group ← deref slot;
    let group_stage := WindowHashGroup.GetStage window_hash_group in
    if decide (Task.stage k = group_stage) then
      Ok (Some task, true,
          WindowGlobalSourceState.set_next_task
            (idx.incr (WindowGlobalSourceState.next_task s)) s)
    else Ok (None, false, s).

(** [WindowGlobalSourceState::FinishTask(task)].  Resetting the owning pointer
    destroys the group and everything it holds; the slot is empty afterwards. *)
Definition FinishTask (task : TaskPtr) (s : WindowGlobalSourceState.t)
    : outcome WindowGlobalSourceState.t :=
  match task with
  | None => Ok s
  | Some task =>
      let gpart := WindowGlobalSourceState.gsink s in
      let window_hash_groups :=
        WindowPartitionGlobalSinkState.window_hash_groups gpart in
      k ← at_index (WindowGlobalSourceState.tasks s) task;
      slot ← at_index window_hash_groups (Task.group_idx k);
      finished_hash_group ← deref slot;
      let remaining :=
        idx.decr (WindowHashGroup.tasks_remaining finished_hash_group) in
      let slot' :=
        if remaining =? 0 then None
        else Some (WindowHashGroup.set_tasks_remaining remaining finished_hash_group) in
      Ok (WindowGlobalSourceState.set_gsink
            (WindowPartitionGlobalSinkState.set_window_hash_groups
               (<[N.to_nat (Task.group_idx k) := slot']> window_hash_groups)
               gpart)
            s)
  end.

(** [WindowGlobalSourceState::UpdateBlockedTasks(blocked, interrupt_state)]:
    the returned flag, the waiters whose [Callback] ran (in call order) and
    the state afterwards. *)
Definition UpdateBlockedTasks (blocked : bool) (interrupt_state : InterruptState.t)
    (s : WindowGlobalSourceState.t)
    : bool * list InterruptState.t * WindowGlobalSourceState.t :=
  if blocked then
    (blocked, [],
     WindowGlobalSourceState.set_blocked_tasks
       (WindowGlobalSourceState.blocked_tasks s ++ [interrupt_state]) s)
  else
    (* The pipeline is unblocked, so flush tasks *)
    (blocked, WindowGlobalSourceState.blocked_tasks s,
     WindowGlobalSourceState.set_blocked_tasks [] s).

(** ** Finalising the sink *)

Inductive SinkFinalizeType : Set := READY | NO_OUTPUT_POSSIBLE.

(** The events a call inserts after the running one. *)
Inductive Event : Set :=
| PartitionMergeEvent (gstate : WindowPartitionGlobalSinkState.t).

(** [PhysicalWindow::Finalize]: the result and the events inserted. *)
Definition Finalize (state : WindowPartitionGlobalSinkState.t)
    : SinkFinalizeType * list Event :=
  (* Did we get any data? *)
  if WindowPartitionGlobalSinkState.count state =? 0 then (NO_OUTPUT_POSSIBLE, [])
  else
    (* Do we have any sorting to schedule? *)
    match WindowPartitionGlobalSinkState.rows state with
    | Some rows =>
        (if RowDataCollection.count rows =? 0 then NO_OUTPUT_POSSIBLE else READY, [])
    | None =>
        (* Find the first group to sort *)
        if negb (WindowPartitionGlobalSinkState.HasMergeTasks state) then
          (* Empty input! *)
          (NO_OUTPUT_POSSIBLE, [])
        else
          (* Schedule all the sorts for maximum thread utilisation *)
          (READY, [PartitionMergeEvent state])
    end.

(** ** The phase counters

    The two places that move a group's counters. *)

(** [WindowLocalSourceState::Sink], once per scanned chunk:
    [window_hash_group->sunk += input_chunk.size()]. *)
Definition sink_chunk (size : idx_t) (g : WindowHashGroup.t) : WindowHashGroup.t :=
  WindowHashGroup.set_sunk (idx.add (WindowHashGroup.sunk g) size) g.

(** [WindowLocalSourceState::Finalize], "mark this range as done":
    [window_hash_group->finalized += (task->end_idx - task->begin_idx)]. *)
Definition finalize_range (k : Task.t) (g : WindowHashGroup.t) : WindowHashGroup.t :=
  WindowHashGroup.set_finalized
    (idx.add (WindowHashGroup.finalized g)
       (idx.sub (Task.end_idx k) (Task.begin_idx k))) g.

(** The groups [GetStage] is asked about.  It is called by [TryNextTask]
    and by the assertion of [GetData] only, on the group of a task.  The
    constructor emits tasks for the blocks of a group's rows, so such a
    group has a block; rows are sunk under its SINK tasks and blocks
    finalized under its FINALIZE tasks, which are handed out once
    [sunk == count]: the counters stay within [count] and [blocks], and
    nothing is finalized before everything is sunk. *)
Definition in_service (g : WindowHashGroup.t) : Prop :=
  0 < WindowHashGroup.blocks g /\
  WindowHashGroup.sunk g <= WindowHashGroup.count g /\
  WindowHashGroup.finalized g <= WindowHashGroup.blocks g /\
  (0 < WindowHashGroup.finalized g -> WindowHashGroup.sunk g = WindowHashGroup.count g).

(** ** The local worker during GETDATA *)

Module RowDataCollectionScanner.
Record t : Set := mk { block_idx : idx_t; flush : bool }.
End RowDataCollectionScanner.

(** [WindowHashGroup::GetEvaluateScanner]: the second pass can flush. *)
Definition GetEvaluateScanner (g : WindowHashGroup.t) (block_idx : idx_t)
    : outcome RowDataCollectionScanner.t :=
  _ ← deref (WindowHashGroup.rows g);
  _ ← deref (WindowHashGroup.heap g);
  Ok (RowDataCollectionScanner.mk block_idx true).

(** [class WindowLocalSourceState]: the members that steer the scan.
    [window_hash_group] points at a slot of the sink's [window_hash_groups]. *)
Module WindowLocalSourceState.
Record t : Set := mk {
  batch_index : idx_t;
  task : TaskPtr;
  window_hash_group : option idx_t;
  scanner : option RowDataCollectionScanner.t
}.
End WindowLocalSourceState.

(** [GetData], "are we done with this scanner?": drop the exhausted scanner
    and step to the next block of the task. *)
Definition next_block (k : Task.t) (l : WindowLocalSourceState.t)
    : Task.t * WindowLocalSourceState.t :=
  (Task.set_begin_idx (idx.incr (Task.begin_idx k)) k,
   WindowLocalSourceState.mk (WindowLocalSourceState.batch_index l)
     (WindowLocalSourceState.task l) (WindowLocalSourceState.window_hash_group l)
     None).

(** [GetData], "are we done with this task?": the condition under which the
    worker leaves the task it holds and asks for another one. *)
Definition task_exhausted (k : Task.t) : bool :=
  (Task.end_idx k <=? Task.begin_idx k)
  || negb (bool_decide (Task.stage k = GETDATA)).

(** [GetData], after a task has been found: open the evaluate scanner of the
    current block unless one is open, and stamp the batch index. *)
Definition open_block (g : WindowHashGroup.t) (k : Task.t)
    (l : WindowLocalSourceState.t) : outcome WindowLocalSourceState.t :=
  match WindowLocalSourceState.scanner l with
  | Some _ => Ok l
  | None =>
      scanner ← GetEvaluateScanner g (Task.begin_idx k);
      Ok (WindowLocalSourceState.mk
            (idx.add (WindowHashGroup.batch_base g) (Task.begin_idx k))
            (WindowLocalSourceState.task l)
            (WindowLocalSourceState.window_hash_group l)
            (Some scanner))
  end.

(** [PhysicalWindow::GetBatchIndex] *)
Definition GetBatchIndex (l : WindowLocalSourceState.t) : idx_t :=
  WindowLocalSourceState.batch_index l.



(** ** The operator *)

(** Sort direction and null placement of an order key. *)
Inductive OrderType : Set := ASCENDING | DESCENDING.
Inductive OrderByNullType : Set := NULLS_FIRST | NULLS_LAST.

(** An expression is known to the operator by its name only. *)
Module Expression.
Record t : Set := mk { GetName : string }.
End Expression.

Module BoundOrderByNode.
Record t : Set := mk {
  type : OrderType;
  null_order : OrderByNullType;
  expression : Expression.t
}.
End BoundOrderByNode.

(** The window descriptor: the keys the operator looks at. *)
Module BoundWindowExpression.
Record t : Set := mk {
  partitions : list Expression.t;
  orders : list BoundOrderByNode.t
}.
End BoundWindowExpression.

Inductive OrderPreservationType : Set := NO_ORDER | FIXED_ORDER.

Module PhysicalWindow.
Record t : Set := mk {
  select_list : list BoundWindowExpression.t;
  order_idx : idx_t;
  is_order_dependent : bool
}.

(** [vector::empty()] *)
Definition empty {A} (v : list A) : bool :=
  match v with [] => true | _ :: _ => false end.

(** The loop of the constructor over [select_list], from position [i]
    on; the state is [(order_idx, is_order_dependent, max_orders)]. *)
Fixpoint scan_select_list (i : idx_t) (v : list BoundWindowExpression.t)
    (st : idx_t * bool * idx_t) : idx_t * bool * idx_t :=
  match v with
  | [] => st
  | bound_window :: v' =>
      let '(order_idx, is_order_dependent, max_orders) := st in
      let is_order_dependent :=
        if empty (BoundWindowExpression.partitions bound_window)
           && empty (BoundWindowExpression.orders bound_window)
        then true else is_order_dependent in
      let n := idx.size (BoundWindowExpression.orders bound_window) in
      let '(order_idx, max_orders) :=
        if max_orders <? n then (i, n) else (order_idx, max_orders) in
      scan_select_list (idx.incr i) v' (order_idx, is_order_dependent, max_orders)
  end.

(** [PhysicalWindow::PhysicalWindow] *)
Definition ctor (select_list_p : list BoundWindowExpression.t) : t :=
  let '(order_idx, is_order_dependent, _) :=
    scan_select_list 0 select_list_p (0, false, 0) in
  mk select_list_p order_idx is_order_dependent.

(** [PhysicalWindow::SupportsBatchIndex]: we can only preserve order for
    single partitioning. *)
Definition SupportsBatchIndex (op : t) : outcome bool :=
  wexpr ← at_index (select_list op) (order_idx op);
  Ok (empty (BoundWindowExpression.partitions wexpr)
      && negb (empty (BoundWindowExpression.orders wexpr))).

(** [PhysicalWindow::SourceOrder] *)
Definition SourceOrder (op : t) : outcome OrderPreservationType :=
  supported ← SupportsBatchIndex op;
  Ok (if supported : bool then FIXED_ORDER else NO_ORDER).
End PhysicalWindow.

Inductive SourceResultType : Set := HAVE_MORE_OUTPUT | FINISHED | BLOCKED.

(** How a call that may throw ends: with a value or with the exception in
    flight, and in both cases with the state it leaves behind. *)
Inductive completion (E S A : Type) : Type :=
| Returns (a : A) (s : S)
| Throws (e : E) (s : S).
Arguments Returns {E S A} a s.
Arguments Throws {E S A} e s.

Section SourceOperator.

(** The exceptions of the engine. *)
Context {E : Type}.

(** The state a source call works on: the shared and the per-thread part. *)
Definition source_state : Type :=
  WindowGlobalSourceState.t * WindowLocalSourceState.t.

(** [lsource.GetData(chunk)]: the worker's step, with the executors, the
    scanners and the buffer manager behind it.  It answers whether a chunk
    was produced and how many rows the chunk holds, or throws. *)
Variable lsource_GetData : source_state -> completion E source_state (bool * idx_t).

(** [TaskScheduler::YieldThread]: what the other threads do to the shared
    state while this one stands aside. *)
Variable YieldThread : WindowGlobalSourceState.t -> WindowGlobalSourceState.t.

(** [while (!lsource.GetData(chunk)) YieldThread();] inside the [try]. *)
Fixpoint yield_until_data (fuel : nat) (st : source_state)
    : outcome (completion E source_state idx_t) :=
  match fuel with
  | O => Fault OutOfFuel
  | S fuel' =>
      match lsource_GetData st with
      | Throws e st' => Ok (Throws e st')
      | Returns (true, size) st' => Ok (Returns size st')
      | Returns (false, _) (gsource, lsource) =>
          yield_until_data fuel' (YieldThread gsource, lsource)
      end
  end.

(** [retries st st']: the loop gets from [st] to [st'] through calls that
    produced no chunk, each followed by a yield. *)
Inductive retries : source_state -> source_state -> Prop :=
| retries_here st : retries st st
| retries_yield st size gsource lsource st' :
    lsource_GetData st = Returns (false, size) (gsource, lsource) ->
    retries (YieldThread gsource, lsource) st' ->
    retries st st'.

Definition result_of_chunk (size : idx_t) : SourceResultType :=
  if size =? 0 then FINISHED else HAVE_MORE_OUTPUT.

Definition add_returned (size : idx_t) (gsource : WindowGlobalSourceState.t)
    : WindowGlobalSourceState.t :=
  WindowGlobalSourceState.set_returned
    (idx.add (WindowGlobalSourceState.returned gsource) size) gsource.

(** [PhysicalWindow::GetData] as it is compiled: the branch under [#if 1],
    which the source calls the debugging variant. *)
Definition GetData (fuel : nat) (st : source_state)
    : outcome (completion E source_state SourceResultType) :=
  c ← yield_until_data fuel st;
  match c with
  | Throws e (gsource, lsource) =>
      Ok (Throws e (WindowGlobalSourceState.set_stopped true gsource, lsource))
  | Returns size (gsource, lsource) =>
      Ok (Returns (result_of_chunk size) (add_returned size gsource, lsource))
  end.


End SourceOperator.

(** ** Reference notions for the task list

    The vocabulary in which the constructed task list is described. *)

(** The quotient rounded up. *)
Definition ceil_div (a b : N) : N := (a + b - 1) / b.

(** [n] consecutive ranges of stride [per_thread] from [begin_idx] on, the
    last one cut off at [max_idx]. *)
Fixpoint strides (n : nat) (begin_idx per_thread max_idx : N) : list (N * N) :=
  match n with
  | O => []
  | S n' =>
      (begin_idx, N.min (begin_idx + per_thread) max_idx)
        :: strides n' (begin_idx + per_thread) per_thread max_idx
  end.

(** The tasks of one stage of one group. *)
Definition stride_tasks (per_thread : N) (stage : WindowGroupStage)
    (b : PartitionBlock) : list Task.t :=
  (fun r : N * N => Task.mk stage b.2 b.1 r.1 r.2)
    <$> strides (N.to_nat (ceil_div b.1 per_thread)) 0 per_thread b.1.

(** The tasks of one group: its SINK tasks, then its FINALIZE tasks, then its
    GETDATA tasks. *)
Definition group_tasks (per_thread : N) (b : PartitionBlock) : list Task.t :=
  stride_tasks per_thread SINK b
  ++ stride_tasks per_thread FINALIZE b
  ++ stride_tasks per_thread GETDATA b.

(** [tiling p hi lo ranges]: the ranges are non-empty, each starts where the
    one before ends, the first starts at [lo], every one but the last is [p]
    long, and the last ends at [hi]. *)
Inductive tiling (p hi : N) : N -> list (N * N) -> Prop :=
| tiling_done : tiling p hi hi []
| tiling_step lo rest :
    lo < hi ->
    tiling p hi (N.min (lo + p) hi) rest ->
    tiling p hi lo ((lo, N.min (lo + p) hi) :: rest).

(** The number of the ranges that contain block [x]. *)
Definition covering (x : N) (ranges : list (N * N)) : nat :=
  length (filter (fun r : N * N => r.1 <= x /\ x < r.2) ranges).

(** A slot that holds a group with a row collection, and how many blocks the
    collection has. *)
Definition populated (slot : option WindowHashGroup.t) : Prop :=
  exists g rows, slot = Some g /\ WindowHashGroup.rows g = Some rows.

#[global] Instance populated_dec slot : Decision (populated slot).
Proof.
  destruct slot as [g|].
  - destruct (WindowHashGroup.rows g) as [rows|] eqn:E.
    + left. exists g, rows. auto.
    + right. intros (g' & rows & [= <-] & H). congruence.
  - right. intros (g' & rows & H & _). discriminate.
Defined.

Definition block_count_of (slot : option WindowHashGroup.t) : N :=
  match slot with
  | Some g =>
      match WindowHashGroup.rows g with
      | Some rows => idx.size (RowDataCollection.blocks rows)
      | None => 0
      end
  | None => 0
  end.

Fixpoint total_blocks (slots : list (option WindowHashGroup.t)) : N :=
  match slots with
  | [] => 0
  | slot :: rest => block_count_of slot + total_blocks rest
  end.

(** [tasks_remaining++], [n] times over. *)
Definition add_tasks_remaining (n : nat) (g : WindowHashGroup.t) : WindowHashGroup.t :=
  WindowHashGroup.set_tasks_remaining
    (Nat.iter n idx.incr (WindowHashGroup.tasks_remaining g)) g.

(** The group in slot [group_idx] gets [n] more tasks to wait for. *)
Definition bump (n : nat) (group_idx : idx_t)
    (groups : list (option WindowHashGroup.t)) : list (option WindowHashGroup.t) :=
  alter (fmap (add_tasks_remaining n)) (N.to_nat group_idx) groups.

(** How many tasks one stage of a group is cut into. *)
Definition task_count (per_thread : N) (b : PartitionBlock) : nat :=
  N.to_nat (ceil_div b.1 per_thread).

(** The groups after the tasks of the partition blocks [pbs] were emitted. *)
Definition bump_all (per_thread : N) (pbs : list PartitionBlock)
    (groups : list (option WindowHashGroup.t)) : list (option WindowHashGroup.t) :=
  foldl (fun groups b => bump (3 * task_count per_thread b) b.2 groups) groups pbs.

(** The partition blocks of the slots, numbered from [group_idx] on. *)
Fixpoint indexed_blocks (group_idx : N) (slots : list (option WindowHashGroup.t))
    : list PartitionBlock :=
  match slots with
  | [] => []
  | slot :: rest => (block_count_of slot, group_idx) :: indexed_blocks (group_idx + 1) rest
  end.

(** What the [batch_base] loop does to one slot. *)
Definition rebase (batch_base : idx_t) (slot : option WindowHashGroup.t)
    : option WindowHashGroup.t :=
  match slot with
  | Some g =>
      match WindowHashGroup.rows g with
      | Some _ => Some (WindowHashGroup.set_batch_base batch_base g)
      | None => Some g
      end
  | None => None
  end.

(** The sizes the loops of the constructor can work with: the group's block
    count and the thread count fit [idx_t] with room to add them, and the
    fuel covers one iteration per block. *)
Definition schedulable (fuel : nat) (threads : idx_t)
    (slot : option WindowHashGroup.t) : Prop :=
  block_count_of slot + threads < idx.modulus /\
  3 * block_count_of slot < idx.modulus /\
  (N.to_nat (block_count_of slot) <= fuel)%nat.

(** The block numbers [lo], [lo + 1], ..., [n] of them. *)
Definition block_range (lo : N) (n : nat) : list N :=
  (fun i => lo + N.of_nat i) <$> seq 0 n.


(** The [batch_base] of every slot. *)
Definition bases (slots : list (option WindowHashGroup.t)) : list (option idx_t) :=
  (fun slot : option WindowHashGroup.t => WindowHashGroup.batch_base <$> slot)
    <$> slots.

(** ** Sample states *)

(** An alignment that hands every row block and every heap block over to the
    new collections. *)
Definition hand_over (rows heap block_collection string_heap : RowDataCollection.t)
    : Aligned.t :=
  Aligned.mk
    (RowDataCollection.mk (RowDataCollection.blocks block_collection)
       (RowDataCollection.count block_collection) (RowDataCollection.keep_pinned rows))
    (RowDataCollection.mk (RowDataCollection.blocks string_heap)
       (RowDataCollection.count string_heap) (RowDataCollection.keep_pinned heap))
    (RowDataCollection.mk [] 0 (RowDataCollection.keep_pinned block_collection))
    (RowDataCollection.mk [] 0 (RowDataCollection.keep_pinned string_heap)).

(** A hash bin of five rows whose sorter holds no sorted block. *)
Definition unsorted_bin : PartitionGlobalHashGroup.t :=
  PartitionGlobalHashGroup.mk 5 (GlobalSortState.mk [] false).

(** The group the constructor builds from [unsorted_bin]: five rows in no
    block. *)
Definition unsunk_blockless_group : WindowHashGroup.t :=
  WindowHashGroup.mk (Some unsorted_bin) 5 0 None None (Some false) 0 0 0 0 0.

(** A hash bin sorted out of core: one sorted block with two data blocks. *)
Definition spilled_bin : PartitionGlobalHashGroup.t :=
  PartitionGlobalHashGroup.mk 5
    (GlobalSortState.mk
       [SortedData.mk [RowDataBlock.mk 3; RowDataBlock.mk 2] []] true).

(** A partition with a single bin, and the unpartitioned one, which keeps
    its rows in memory. *)
Definition hashed_partition (bin : option PartitionGlobalHashGroup.t)
    : WindowPartitionGlobalSinkState.t :=
  WindowPartitionGlobalSinkState.mk 5 None None [bin] false true [None].

Definition unpartitioned_partition : WindowPartitionGlobalSinkState.t :=
  WindowPartitionGlobalSinkState.mk 5
    (Some (RowDataCollection.mk [RowDataBlock.mk 3; RowDataBlock.mk 2] 5 false))
    (Some (RowDataCollection.mk [] 0 false)) [] false false [].

(** One row collection of two blocks, three and two rows. *)
Definition two_blocks : RowDataCollection.t :=
  RowDataCollection.mk [RowDataBlock.mk 3; RowDataBlock.mk 2] 5 false.

(** A group over [two_blocks] whose rows are all sunk, whose blocks are all
    finalized and which waits for its last task to be finished. *)
Definition scanned_group : WindowHashGroup.t :=
  WindowHashGroup.mk None 5 2 (Some two_blocks)
    (Some (RowDataCollection.mk [] 0 true)) (Some false) 0 5 2 1 0.

(** The same group before anything was sunk, with all six tasks ahead. *)
Definition fresh_group : WindowHashGroup.t :=
  WindowHashGroup.mk None 5 2 (Some two_blocks)
    (Some (RowDataCollection.mk [] 0 true)) (Some false) 0 0 0 6 0.

Definition partition_of (groups : list (option WindowHashGroup.t))
    : WindowPartitionGlobalSinkState.t :=
  WindowPartitionGlobalSinkState.mk 5 None None [None] false true groups.

(** The six tasks of a two-block group scheduled for two threads. *)
Definition six_tasks : list Task.t :=
  [Task.mk SINK 0 2 0 1; Task.mk SINK 0 2 1 2;
   Task.mk FINALIZE 0 2 0 1; Task.mk FINALIZE 0 2 1 2;
   Task.mk GETDATA 0 2 0 1; Task.mk GETDATA 0 2 1 2].

(** A source at its start, and one whose cursor stands on the first
    FINALIZE task while the group is still being sunk. *)
Definition source_at (next_task : idx_t) (g : WindowHashGroup.t)
    : WindowGlobalSourceState.t :=
  WindowGlobalSourceState.mk (partition_of [Some g]) six_tasks next_task false 0 [].


Definition idle_thread : WindowLocalSourceState.t :=
  WindowLocalSourceState.mk 0 None None None.

(** A group as the hash-group constructor leaves it, over the given rows. *)
Definition new_group (hash_bin : idx_t) (rows : RowDataCollection.t)
    : WindowHashGroup.t :=
  WindowHashGroup.mk None (RowDataCollection.count rows)
    (idx.size (RowDataCollection.blocks rows)) (Some rows)
    (Some (RowDataCollection.mk [] 0 true)) (Some false) hash_bin 0 0 0 0.

Definition five_blocks : RowDataCollection.t :=
  RowDataCollection.mk
    [RowDataBlock.mk 1; RowDataBlock.mk 1; RowDataBlock.mk 1;
     RowDataBlock.mk 1; RowDataBlock.mk 1] 5 false.

(** Two sorted partitions, the smaller one first, and a partition whose
    second bin was never sorted. *)
Definition two_groups : WindowPartitionGlobalSinkState.t :=
  WindowPartitionGlobalSinkState.mk 10 None None [None; None] false true
    [Some (new_group 0 two_blocks); Some (new_group 1 five_blocks)].

Definition half_sorted : WindowPartitionGlobalSinkState.t :=
  WindowPartitionGlobalSinkState.mk 10 None None [None; None] false true
    [Some (new_group 0 two_blocks); None].


(** What is read off a task: stage, group and range. *)
Definition task_summary (k : Task.t) : WindowGroupStage * idx_t * (idx_t * idx_t) :=
  (Task.stage k, Task.group_idx k, (Task.begin_idx k, Task.end_idx k)).

(** ** Further operations of the operator *)

(** [WindowHashGroup::GetBuildScanner]: no scanner without rows. *)
Definition GetBuildScanner (g : WindowHashGroup.t) (block_idx : idx_t)
    : outcome (option RowDataCollectionScanner.t) :=
  match WindowHashGroup.rows g with
  | None => Ok None
  | Some _ =>
      _ ← deref (WindowHashGroup.heap g);
      Ok (Some (RowDataCollectionScanner.mk block_idx false))
  end.

(** [WindowHashGroup::Initialize], on the list of executor states of the
    group: [executors] are the sink's executors and [GetGlobalState] builds
    the state of one of them for this group.  The states are built once;
    the mutex that serialises the callers is not part of the model. *)
Definition Initialize {Executor State : Type} (GetGlobalState : Executor -> State)
    (executors : list Executor) (gestates : list State) : list State :=
  if idx.size gestates =? idx.size executors then gestates
  else foldl (fun gestates wexec => gestates ++ [GetGlobalState wexec])
         gestates executors.

(** [WindowLocalSourceState::Finalize], on the task and its group: mark
    this range as done.  The executors' own finalisation works on their
    states only. *)
Definition LocalFinalize (k : Task.t) (g : WindowHashGroup.t)
    : Task.t * WindowHashGroup.t :=
  (Task.set_begin_idx (Task.end_idx k) k, finalize_range k g).

(** Parking the callers [waiters] one after the other. *)
Definition park_all (waiters : list InterruptState.t)
    (s : WindowGlobalSourceState.t) : WindowGlobalSourceState.t :=
  foldl (fun s w => (UpdateBlockedTasks true w s).2) s waiters.

(** Finishing the tasks [tasks] one after the other. *)
Definition finish_each (tasks : list idx_t) (s : WindowGlobalSourceState.t)
    : outcome WindowGlobalSourceState.t :=
  for_each (fun s task => FinishTask (Some task) s) tasks s.

(** [n] calls of [TryNextTask] in a row, as long as each hands out a task:
    the tasks handed out and the state at the end.  A call that hands out
    none ends the run. *)
Fixpoint dispense (n : nat) (s : WindowGlobalSourceState.t)
    : outcome (list idx_t * WindowGlobalSourceState.t) :=
  match n with
  | O => Ok ([], s)
  | S n' =>
      '(task, _, s') ← TryNextTask s;
      match task with
      | None => Ok ([], s')
      | Some t =>
          '(ts, s'') ← dispense n' s';
          Ok (t :: ts, s'')
      end
  end.

(** The rows of a list of blocks, added up without wrap-around. *)
Definition total_rows (bs : list RowDataBlock.t) : N :=
  foldr (fun b n => RowDataBlock.count b + n) 0 bs.

(** A descriptor without partition and order keys: [OVER ()]. *)
Definition unordered (w : BoundWindowExpression.t) : Prop :=
  BoundWindowExpression.partitions w = [] /\ BoundWindowExpression.orders w = [].

(** The case without partitioning: the partitioner kept the rows itself and
    the group is the one of bin 0. *)
Definition is_unpartitioned (gpart : WindowPartitionGlobalSinkState.t)
    (hash_bin : idx_t) : Prop :=
  is_Some (WindowPartitionGlobalSinkState.rows gpart) /\ hash_bin = 0.


(** The group the constructor builds from [spilled_bin]: the two data blocks
    of the sorted block, no heap blocks, so the sorter's hash group stays,
    with its sorted block emptied. *)
Definition spilled_group : WindowHashGroup.t :=
  WindowHashGroup.mk
    (Some (PartitionGlobalHashGroup.mk 5
             (GlobalSortState.mk [SortedData.mk [] []] true)))
    5 2 (Some two_blocks)
    (Some (RowDataCollection.mk [] 0 true)) (Some true) 0 0 0 0 0.

(** A worker that finds nothing to do until another thread has moved the
    cursor, and then produces a chunk of three rows; and the other thread. *)
Definition waiting_worker (st : source_state)
    : completion string source_state (bool * idx_t) :=
  if WindowGlobalSourceState.next_task st.1 =? 0 then Returns (false, 0) st
  else Returns (true, 3) st.

Definition other_thread (gsource : WindowGlobalSourceState.t)
    : WindowGlobalSourceState.t :=
  WindowGlobalSourceState.set_next_task 1 gsource.

(** The largest block count among the slots, and the number of tasks one
    stage takes for all of them together. *)
Definition max_blocks (slots : list (option WindowHashGroup.t)) : N :=
  foldr (fun slot m => N.max (block_count_of slot) m) 0 slots.

Definition stage_tasks (per_thread : N) (slots : list (option WindowHashGroup.t)) : N :=
  foldr (fun slot n => ceil_div (block_count_of slot) per_thread + n) 0 slots.

(** A task as the constructor emits it: a stage to run, a non-empty range of
    at most [per_thread] blocks within the blocks of a group that is there. *)
Definition well_formed_task (per_thread : N)
    (groups : list (option WindowHashGroup.t)) (k : Task.t) : Prop :=
  Task.stage k ∈ states /\
  Task.begin_idx k < Task.end_idx k /\
  Task.end_idx k <= Task.max_idx k /\
  Task.end_idx k - Task.begin_idx k <= per_thread /\
  exists g rows,
    groups !! N.to_nat (Task.group_idx k) = Some (Some g) /\
    WindowHashGroup.rows g = Some rows /\
    Task.max_idx k = idx.size (RowDataCollection.blocks rows).

(** ** The dispenser and its callers

    What the dispenser goes by: the group of every task, the cursor, and for
    every slot whether a group is there and how many tasks it waits for. *)
Definition group_indices (s : WindowGlobalSourceState.t) : list idx_t :=
  Task.group_idx <$> WindowGlobalSourceState.tasks s.

Definition remaining (s : WindowGlobalSourceState.t) : list (option idx_t) :=
  (fun slot : option WindowHashGroup.t => WindowHashGroup.tasks_remaining <$> slot)
    <$> WindowPartitionGlobalSinkState.window_hash_groups
          (WindowGlobalSourceState.gsink s).

(** What a worker does between two calls of the dispenser, as far as the
    dispenser can tell: nothing.  Sinking rows, finalizing ranges, stepping
    through the blocks of a task, stopping the source and parking callers
    all leave that much alone. *)
Definition work (s s' : WindowGlobalSourceState.t) : Prop :=
  group_indices s' = group_indices s /\
  WindowGlobalSourceState.next_task s' = WindowGlobalSourceState.next_task s /\
  remaining s' = remaining s.

(** The tasks in the hands of the workers are named by their numbers [out].
    [unfinished gi s out] counts the tasks of group [gi] that are not
    finished: those from the cursor on and those in the workers' hands. *)
Definition unfinished (gi : idx_t) (s : WindowGlobalSourceState.t)
    (out : list idx_t) : nat :=
  length (filter (eq gi)
            (drop (N.to_nat (WindowGlobalSourceState.next_task s)) (group_indices s)))
  + length (filter (eq gi)
              (omap (fun t : idx_t => group_indices s !! N.to_nat t) out)).

(** The books are in order: every task in a worker's hands exists, a group
    that is in place waits for exactly its unfinished tasks, of which there
    is one at least unless it never had a task, the count fits [idx_t], no
    unfinished task names an empty slot, and no task at all a slot out of
    range. *)
Definition accounted (s : WindowGlobalSourceState.t) (out : list idx_t) : Prop :=
  idx.size (WindowGlobalSourceState.tasks s) < idx.modulus /\
  Forall (fun t => t < idx.size (WindowGlobalSourceState.tasks s)) out /\
  forall gi,
    match remaining s !! N.to_nat gi with
    | Some (Some r) =>
        r = N.of_nat (unfinished gi s out) /\
        r < idx.modulus /\
        (unfinished gi s out = 0%nat -> filter (eq gi) (group_indices s) = [])
    | Some None => unfinished gi s out = 0%nat
    | None =>
        unfinished gi s out = 0%nat /\ filter (eq gi) (group_indices s) = []
    end.

(** The calls the workers make, in any interleaving: [TryNextTask], which
    may put a task into a worker's hands, [FinishTask] for a task in a
    worker's hands, which takes it out of them, and work in between. *)
Inductive protocol
  : WindowGlobalSourceState.t -> list idx_t ->
    WindowGlobalSourceState.t -> list idx_t -> Prop :=
| protocol_here s out : protocol s out s out
| protocol_next s out task flag s1 s' out' :
    TryNextTask s = Ok (task, flag, s1) ->
    protocol s1 (option_list task ++ out) s' out' ->
    protocol s out s' out'
| protocol_finish s l1 t l2 s1 s' out' :
    FinishTask (Some t) s = Ok s1 ->
    protocol s1 (l1 ++ l2) s' out' ->
    protocol s (l1 ++ t :: l2) s' out'
| protocol_work s out s1 s' out' :
    work s s1 ->
    protocol s1 out s' out' ->
    protocol s out s' out'.

(** Finalizing the ranges of the tasks [ks] of a group one after the other,
    and the number of blocks the ranges of [ks] span together. *)
Definition finalize_all (ks : list Task.t) (g : WindowHashGroup.t)
    : WindowHashGroup.t :=
  foldl (fun g k => (LocalFinalize k g).2) g ks.

Definition span (ks : list Task.t) : N :=
  foldr (fun k n => (Task.end_idx k - Task.begin_idx k) + n) 0 ks.

(** Task [t] can be handed out: its group is in place and in the stage of
    the task.  It is held back when its group is in place in another stage. *)
Definition ready (s : WindowGlobalSourceState.t) (t : idx_t) : Prop :=
  exists k g,
    WindowGlobalSourceState.tasks s !! N.to_nat t = Some k /\
    WindowPartitionGlobalSinkState.window_hash_groups (WindowGlobalSourceState.gsink s)
      !! N.to_nat (Task.group_idx k) = Some (Some g) /\
    Task.stage k = WindowHashGroup.GetStage g.

Definition held_back (s : WindowGlobalSourceState.t) (t : idx_t) : Prop :=
  exists k g,
    WindowGlobalSourceState.tasks s !! N.to_nat t = Some k /\
    WindowPartitionGlobalSinkState.window_hash_groups (WindowGlobalSourceState.gsink s)
      !! N.to_nat (Task.group_idx k) = Some (Some g) /\
    Task.stage k <> WindowHashGroup.GetStage g.

(** A partition without sunk rows, as [Finalize] leaves it when no output
    is possible. *)
Definition empty_partition : WindowPartitionGlobalSinkState.t :=
  WindowPartitionGlobalSinkState.mk 0 None None [] false true [].

(** ** The worker

    [WindowLocalSourceState::GetData] and what it calls.  The executors,
    their global states in the group and their local states in the worker
    are another module's; the worker's calls into them ([Initialize],
    [GetLocalState], [Sink], [Finalize], [Evaluate]) touch nothing that is
    modelled here.  Of the scanner the worker sees how many rows it has
    left to deliver and how many it delivers at a time. *)

(** The per-thread state with its scan cursor: [Remaining] is what the open
    scanner has still to deliver, [scanner->Remaining()]. *)
Module Worker.
Record t : Set := mk {
  lsource : WindowLocalSourceState.t;
  Remaining : idx_t
}.

Definition batch_index (w : t) : idx_t :=
  WindowLocalSourceState.batch_index (lsource w).
Definition task (w : t) : TaskPtr := WindowLocalSourceState.task (lsource w).
Definition window_hash_group (w : t) : option idx_t :=
  WindowLocalSourceState.window_hash_group (lsource w).
Definition scanner (w : t) : option RowDataCollectionScanner.t :=
  WindowLocalSourceState.scanner (lsource w).

Definition set_task (task_p : TaskPtr) (w : t) : t :=
  mk (WindowLocalSourceState.mk (batch_index w) task_p (window_hash_group w)
        (scanner w))
     (Remaining w).

Definition set_window_hash_group (group : option idx_t) (w : t) : t :=
  mk (WindowLocalSourceState.mk (batch_index w) (task w) group (scanner w))
     (Remaining w).

(** [scanner.reset()] *)
Definition reset_scanner (w : t) : t :=
  mk (WindowLocalSourceState.mk (batch_index w) (task w) (window_hash_group w) None) 0.

Definition set_Remaining (n : idx_t) (w : t) : t := mk (lsource w) n.
End Worker.

(** [*task = k] and [*window_hash_groups[group_idx] = g]: the worker writes
    through its pointers into the shared state. *)
Definition set_task (task : idx_t) (k : Task.t) (s : WindowGlobalSourceState.t)
    : WindowGlobalSourceState.t :=
  WindowGlobalSourceState.mk (WindowGlobalSourceState.gsink s)
    (<[N.to_nat task := k]> (WindowGlobalSourceState.tasks s))
    (WindowGlobalSourceState.next_task s) (WindowGlobalSourceState.stopped s)
    (WindowGlobalSourceState.returned s) (WindowGlobalSourceState.blocked_tasks s).

Definition set_group (group_idx : idx_t) (g : WindowHashGroup.t)
    (s : WindowGlobalSourceState.t) : WindowGlobalSourceState.t :=
  WindowGlobalSourceState.set_gsink
    (WindowPartitionGlobalSinkState.set_window_hash_groups
       (<[N.to_nat group_idx := Some g]>
          (WindowPartitionGlobalSinkState.window_hash_groups
             (WindowGlobalSourceState.gsink s)))
       (WindowGlobalSourceState.gsink s))
    s.

(** [*task] and [*window_hash_group]. *)
Definition task_of (s : WindowGlobalSourceState.t) (task : TaskPtr) : outcome Task.t :=
  task ← deref task;
  at_index (WindowGlobalSourceState.tasks s) task.

Definition group_of (s : WindowGlobalSourceState.t) (window_hash_group : option idx_t)
    : outcome WindowHashGroup.t :=
  group_idx ← deref window_hash_group;
  slot ← at_index
           (WindowPartitionGlobalSinkState.window_hash_groups
              (WindowGlobalSourceState.gsink s))
           group_idx;
  deref slot.

Section LocalSource.

(** [Count rows block_idx]: the rows a scanner opened on block [block_idx]
    of [rows] has to deliver.  [Scan remaining]: the rows the next
    [scanner->Scan] delivers when [remaining] are left, the size of the
    chunk. *)
Variable Count : RowDataCollection.t -> idx_t -> idx_t.
Variable Scan : idx_t -> idx_t.

(** The state a worker's call works on: the shared and the per-thread part. *)
Definition worker_state : Type := WindowGlobalSourceState.t * Worker.t.

(** [WindowLocalSourceState::FinishHashGroup(prev_task)] *)
Definition FinishHashGroup (prev_task : TaskPtr) (st : worker_state)
    : outcome worker_state :=
  let w := Worker.reset_scanner st.2 in
  s ← FinishTask prev_task st.1;
  Ok (s, w).

(** [WindowLocalSourceState::BeginHashGroup()] *)
Definition BeginHashGroup (st : worker_state) : outcome worker_state :=
  match Worker.task st.2 with
  | None => Ok st
  | Some task =>
      k ← at_index (WindowGlobalSourceState.tasks st.1) task;
      slot ← at_index
               (WindowPartitionGlobalSinkState.window_hash_groups
                  (WindowGlobalSourceState.gsink st.1))
               (Task.group_idx k);
      (* window_hash_group->Initialize(gsink) *)
      _ ← deref slot;
      Ok (st.1, Worker.set_window_hash_group (Some (Task.group_idx k)) st.2)
  end.

(** The [while (true)] of [Sink]: the block is scanned chunk by chunk until
    an empty chunk comes, and every chunk is counted. *)
Fixpoint sink_block (fuel : nat) (remaining : idx_t) (g : WindowHashGroup.t)
    : outcome WindowHashGroup.t :=
  match fuel with
  | O => Fault OutOfFuel
  | S fuel' =>
      let size := Scan remaining in
      if size =? 0 then Ok g
      else sink_block fuel' (idx.sub remaining size) (sink_chunk size g)
  end.

(** [WindowLocalSourceState::Sink()]: first pass over the input without
    flushing. *)
Fixpoint WindowLocalSourceState_Sink (fuel : nat) (st : worker_state)
    : outcome worker_state :=
  task ← deref (Worker.task st.2);
  k ← at_index (WindowGlobalSourceState.tasks st.1) task;
  if Task.begin_idx k <? Task.end_idx k then
    match fuel with
    | O => Fault OutOfFuel
    | S fuel' =>
        group_idx ← deref (Worker.window_hash_group st.2);
        g ← group_of st.1 (Some group_idx);
        scanner ← GetBuildScanner g (Task.begin_idx k);
        match scanner, WindowHashGroup.rows g with
        | Some _, Some rows =>
            g ← sink_block fuel' (Count rows (Task.begin_idx k)) g;
            (* scanner->SwizzleBlock(task->begin_idx); scanner.reset(); *)
            let s := set_group group_idx g st.1 in
            let s := set_task task (Task.set_begin_idx (idx.incr (Task.begin_idx k)) k) s in
            WindowLocalSourceState_Sink fuel' (s, Worker.reset_scanner st.2)
        | _, _ => Ok (st.1, Worker.reset_scanner st.2)
        end
    end
  else Ok st.

(** [WindowLocalSourceState::Finalize()] *)
Definition WindowLocalSourceState_Finalize (st : worker_state) : outcome worker_state :=
  group_idx ← deref (Worker.window_hash_group st.2);
  g ← group_of st.1 (Some group_idx);
  task ← deref (Worker.task st.2);
  k ← at_index (WindowGlobalSourceState.tasks st.1) task;
  (* Mark this range as done *)
  let '(k, g) := LocalFinalize k g in
  Ok (set_task task k (set_group group_idx g st.1), st.2).

(** [GetData], "are we done with this scanner?" *)
Definition done_with_scanner (st : worker_state) : outcome worker_state :=
  match Worker.scanner st.2 with
  | Some _ =>
      if Worker.Remaining st.2 =? 0 then
        task ← deref (Worker.task st.2);
        k ← at_index (WindowGlobalSourceState.tasks st.1) task;
        let '(k, lsource) := next_block k (Worker.lsource st.2) in
        Ok (set_task task k st.1, Worker.mk lsource 0)
      else Ok st
  | None => Ok st
  end.

(** The condition of the [while]: no task, or a task that is used up or is
    not a GETDATA task. *)
Definition looking_for_task (st : worker_state) : outcome bool :=
  match Worker.task st.2 with
  | None => Ok true
  | Some task =>
      k ← at_index (WindowGlobalSourceState.tasks st.1) task;
      Ok (task_exhausted k)
  end.

(** [!task || !prev_task || task->group_idx != prev_task->group_idx] *)
Definition is_new_group (s : WindowGlobalSourceState.t) (task prev_task : TaskPtr)
    : outcome bool :=
  match task, prev_task with
  | Some task, Some prev_task =>
      k ← at_index (WindowGlobalSourceState.tasks s) task;
      prev ← at_index (WindowGlobalSourceState.tasks s) prev_task;
      Ok (negb (Task.group_idx k =? Task.group_idx prev))
  | _, _ => Ok true
  end.

(** [GetData], "release all the old group's data if we started a new
    group". *)
Definition enter_group (prev_task task : TaskPtr) (st : worker_state)
    : outcome worker_state :=
  new_group ← is_new_group st.1 task prev_task;
  if new_group : bool then
    st ← FinishHashGroup prev_task st;
    BeginHashGroup st
  else Ok st.

(** [GetData], "are we done with this task?": the [while] loop.  It is left
    with [Some] answer by the [return]s in its body, with [None] when its
    condition fails, and by the exception for a stage it does not know. *)
Fixpoint next_task_loop (fuel : nat) (st : worker_state)
    : outcome (completion string worker_state (option bool)) :=
  looking ← looking_for_task st;
  if looking : bool then
    match fuel with
    | O => Fault OutOfFuel
    | S fuel' =>
        let prev_task := Worker.task st.2 in
        '(task, found, s) ← TryNextTask st.1;
        let w := Worker.set_task task st.2 in
        if found : bool then
          st ← enter_group prev_task task (s, w);
          (* Are we done? *)
          match task with
          | None => Ok (Returns (Some true) st)
          | Some task =>
              k ← at_index (WindowGlobalSourceState.tasks st.1) task;
              (* Process the new state *)
              match Task.stage k with
              | SINK =>
                  st ← WindowLocalSourceState_Sink fuel' st;
                  next_task_loop fuel' st
              | FINALIZE =>
                  st ← WindowLocalSourceState_Finalize st;
                  next_task_loop fuel' st
              | GETDATA => next_task_loop fuel' st
              | DONE => Ok (Throws "Invalid window source state." st)
              end
          end
        else
          st ← FinishHashGroup prev_task (s, w);
          Ok (Returns (Some false) st)
    end
  else Ok (Returns None st).

(** [GetData], past the loop: open the scanner of the block unless one is
    open, and scan the next chunk.  The answer is the size of the chunk. *)
Definition scan_chunk (st : worker_state) : outcome (idx_t * worker_state) :=
  g ← group_of st.1 (Worker.window_hash_group st.2);
  k ← task_of st.1 (Worker.task st.2);
  lsource ← open_block g k (Worker.lsource st.2);
  remaining ←
    match Worker.scanner st.2, WindowHashGroup.rows g with
    | Some _, _ => Ok (Worker.Remaining st.2)
    | None, Some rows => Ok (Count rows (Task.begin_idx k))
    | None, None => Fault NullDereference
    end;
  let size := Scan remaining in
  Ok (size, (st.1, Worker.mk lsource (idx.sub remaining size))).

(** [WindowLocalSourceState::GetData(result)]: whether the call got
    through, and the size of [result] afterwards; [chunk] is its size
    before. *)
Definition WindowLocalSourceState_GetData (fuel : nat) (chunk : idx_t)
    (st : worker_state)
    : outcome (completion string worker_state (bool * idx_t)) :=
  st ← done_with_scanner st;
  c ← next_task_loop fuel st;
  match c with
  | Throws e st => Ok (Throws e st)
  | Returns (Some answer) st => Ok (Returns (answer, chunk) st)
  | Returns None st =>
      '(size, st) ← scan_chunk st;
      Ok (Returns (true, size) st)
  end.

End LocalSource.

(** *** What the worker relies on

    A group that is in place has its rows and its heap; every task has one
    of the three stages and a range within [idx_t]; and the books of the
    dispenser are in order. *)
Definition equipped (slot : option WindowHashGroup.t) : Prop :=
  forall g, slot = Some g ->
    is_Some (WindowHashGroup.rows g) /\ is_Some (WindowHashGroup.heap g).

Definition source_ok (s : WindowGlobalSourceState.t) (out : list idx_t) : Prop :=
  accounted s out /\
  Forall (fun k => Task.stage k ∈ states /\
                   Task.begin_idx k <= Task.end_idx k /\
                   Task.end_idx k < idx.modulus)
    (WindowGlobalSourceState.tasks s) /\
  Forall equipped
    (WindowPartitionGlobalSinkState.window_hash_groups (WindowGlobalSourceState.gsink s)).

(** The worker's own state: the task it holds was handed out and is not
    finished, and [window_hash_group] points at the group of that task; a
    scanner is open only on the first block that is left of a GETDATA task,
    and [batch_index] is then the group's [batch_base] plus the number of
    that block. *)
Definition worker_ok (s : WindowGlobalSourceState.t) (w : Worker.t)
    (out : list idx_t) : Prop :=
  (forall task,
      Worker.task w = Some task ->
      task ∈ out /\
      exists k,
        WindowGlobalSourceState.tasks s !! N.to_nat task = Some k /\
        Worker.window_hash_group w = Some (Task.group_idx k)) /\
  (forall scanner,
      Worker.scanner w = Some scanner ->
      exists task k g,
        Worker.task w = Some task /\
        WindowGlobalSourceState.tasks s !! N.to_nat task = Some k /\
        Task.stage k = GETDATA /\
        Task.begin_idx k < Task.end_idx k /\
        WindowPartitionGlobalSinkState.window_hash_groups (WindowGlobalSourceState.gsink s)
          !! N.to_nat (Task.group_idx k) = Some (Some g) /\
        RowDataCollectionScanner.block_idx scanner = Task.begin_idx k /\
        Worker.batch_index w
        = idx.add (WindowHashGroup.batch_base g) (Task.begin_idx k)).

(** What the loop that looks for a task leaves behind when it ends with
    [answer]: a state of the same kind, reached within the protocol; without
    an answer, a task to scan, and on a source of a single group no task
    finished on the way to it; with an answer, no task and no scanner. *)
Definition loop_leaves (s : WindowGlobalSourceState.t) (out : list idx_t)
    (answer : option bool) (s' : WindowGlobalSourceState.t) (w' : Worker.t)
    (out' : list idx_t) : Prop :=
  source_ok s' out' /\
  worker_ok s' w' out' /\
  protocol s out s' out' /\
  match answer with
  | None =>
      (exists task k,
          Worker.task w' = Some task /\
          WindowGlobalSourceState.tasks s' !! N.to_nat task = Some k /\
          task_exhausted k = false) /\
      (forall gi, Forall (eq gi) (group_indices s) -> remaining s' = remaining s)
  | Some _ => Worker.task w' = None /\ Worker.scanner w' = None
  end.

(** [sunk] after a block of [rows_in_block] rows has been scanned chunk by
    chunk, and after the [n] blocks from [block_idx] on have. *)
Definition drained (rows_in_block sunk : idx_t) : idx_t :=
  if rows_in_block =? 0 then sunk else idx.add sunk rows_in_block.

Fixpoint sunk_after (Count : idx_t -> idx_t) (block_idx : idx_t) (n : nat)
    (sunk : idx_t) : idx_t :=
  match n with
  | O => sunk
  | S n' => sunk_after Count (block_idx + 1) n' (drained (Count block_idx) sunk)
  end.

(** The rows of the [n] blocks from [block_idx] on. *)
Fixpoint rows_in (Count : idx_t -> idx_t) (block_idx : idx_t) (n : nat) : N :=
  match n with
  | O => 0
  | S n' => Count block_idx + rows_in Count (block_idx + 1) n'
  end.

(** *** Sample scanners and workers

    A scanner that delivers the rows of the block it was opened on, two at a
    time; a worker that has not started, and one that has just been handed
    the first SINK task of the group in slot 0. *)
Definition block_rows (rows : RowDataCollection.t) (block_idx : idx_t) : idx_t :=
  match RowDataCollection.blocks rows !! N.to_nat block_idx with
  | Some block => idx.wrap (RowDataBlock.count block)
  | None => 0
  end.

Definition two_at_a_time (remaining : idx_t) : idx_t := N.min 2 remaining.

Definition idle_worker : Worker.t := Worker.mk idle_thread 0.

Definition sinking_worker : Worker.t :=
  Worker.mk (WindowLocalSourceState.mk 0 (Some 0) (Some 0) None) 0.

(** ** The merge callbacks

    The partitioner, which is not part of this file, calls [OnBeginMerge]
    once and then [OnSortedPartition] for the bins it has sorted.
    [sort_partitions] is such a run of [OnSortedPartition] calls, for the
    bins [bins] in that order; it ends at the first call that faults. *)
Fixpoint sort_partitions
    (AlignHeapBlocks :
       RowDataCollection.t -> RowDataCollection.t ->
       RowDataCollection.t -> RowDataCollection.t -> Aligned.t)
    (bins : list idx_t) (gpart : WindowPartitionGlobalSinkState.t)
    : outcome WindowPartitionGlobalSinkState.t :=
  match bins with
  | [] => Ok gpart
  | group_idx :: bins =>
      gpart ← OnSortedPartition AlignHeapBlocks group_idx gpart;
      sort_partitions AlignHeapBlocks bins gpart
  end.

(** A bin whose sorter holds a sorted block with data blocks. *)
Definition sorted_bin (bin : option PartitionGlobalHashGroup.t) : Prop :=
  exists hg sd rest,
    bin = Some hg /\
    GlobalSortState.sorted_blocks (PartitionGlobalHashGroup.global_sort hg) = sd :: rest /\
    SortedData.data_blocks sd <> [].

(** ** The tasks of the SINK stage

    [sink_each ts]: the tasks [ts] are taken up one after the other by a
    worker of their group, as [TryNextTask] hands them out, and sunk with
    [Sink].  [rows_of Count ks]: the rows in the blocks of the ranges of the
    tasks [ks]. *)
Fixpoint sink_each (Count : RowDataCollection.t -> idx_t -> idx_t)
    (Scan : idx_t -> idx_t) (fuel : nat) (ts : list idx_t) (st : worker_state)
    : outcome worker_state :=
  match ts with
  | [] => Ok st
  | task :: ts =>
      st ← WindowLocalSourceState_Sink Count Scan fuel
             (st.1, Worker.set_task (Some task) st.2);
      sink_each Count Scan fuel ts st
  end.

Definition rows_of (Count : idx_t -> idx_t) (ks : list Task.t) : N :=
  foldr (fun k n =>
           rows_in Count (Task.begin_idx k)
             (N.to_nat (Task.end_idx k - Task.begin_idx k)) + n)
    0 ks.

(** * Properties *)

(** ** Arithmetic of [idx_t] *)

Lemma modulus_value : idx.modulus = 18446744073709551616.
Proof. reflexivity. Qed.

Lemma add_small a b : a + b < idx.modulus -> idx.add a b = a + b.
Proof. intros H. unfold idx.add, idx.wrap. apply N.mod_small. exact H. Qed.

Lemma sub_small a b : b <= a -> a < idx.modulus -> idx.sub a b = a - b.
Proof.
  intros Hb Ha. unfold idx.sub, idx.wrap.
  pose proof modulus_value as Hm.
  rewrite (N.mod_small b) by lia.
  replace (a + (idx.modulus - b)) with ((a - b) + 1 * idx.modulus) by lia.
  rewrite N.Div0.mod_add. apply N.mod_small. lia.
Qed.

Lemma incr_small a : a + 1 < idx.modulus -> idx.incr a = a + 1.
Proof. apply add_small. Qed.

Lemma iter_incr_small n a :
  a + N.of_nat n < idx.modulus -> Nat.iter n idx.incr a = a + N.of_nat n.
Proof.
  induction n as [|n IH]; intros H.
  - cbn. lia.
  - change (Nat.iter (S n) idx.incr a) with (idx.incr (Nat.iter n idx.incr a)).
    rewrite IH by lia. rewrite incr_small by lia. lia.
Qed.

Lemma ceil_div_bounds a b :
  0 < b -> a <= ceil_div a b * b /\ ceil_div a b * b < a + b.
Proof.
  intros Hb. unfold ceil_div.
  pose proof (N.Div0.div_mod (a + b - 1) b) as D.
  pose proof (N.mod_upper_bound (a + b - 1) b ltac:(lia)) as B.
  set (q := (a + b - 1) / b) in *. set (r := (a + b - 1) mod b) in *.
  clearbody q r. nia.
Qed.

Lemma ceil_div_le a b : 0 < b -> ceil_div a b <= a.
Proof.
  intros Hb. destruct (ceil_div_bounds a b Hb) as [_ H]. nia.
Qed.

Lemma ceil_div_pos a b : 0 < b -> 0 < a -> 0 < ceil_div a b.
Proof.
  intros Hb Ha. destruct (ceil_div_bounds a b Hb) as [H _]. nia.
Qed.

Lemma per_thread_of_ceil max_blocks threads :
  0 < threads ->
  max_blocks + threads < idx.modulus ->
  per_thread_of max_blocks threads = Ok (ceil_div max_blocks threads).
Proof.
  intros Ht Hsmall. unfold per_thread_of.
  destruct (N.eqb_spec threads 0) as [-> | _]; [lia |].
  rewrite add_small by exact Hsmall.
  rewrite sub_small by lia. reflexivity.
Qed.

(** ** The stage of a hash group *)

Lemma GetStage_GETDATA g :
  WindowHashGroup.finalized g = WindowHashGroup.blocks g ->
  WindowHashGroup.GetStage g = GETDATA.
Proof.
  intros H. unfold WindowHashGroup.GetStage.
  rewrite H, N.eqb_refl. reflexivity.
Qed.

Lemma GetStage_FINALIZE g :
  WindowHashGroup.sunk g = WindowHashGroup.count g ->
  WindowHashGroup.finalized g <> WindowHashGroup.blocks g ->
  WindowHashGroup.GetStage g = FINALIZE.
Proof.
  intros Hs Hf. unfold WindowHashGroup.GetStage.
  rewrite Hs, N.eqb_refl.
  apply N.eqb_neq in Hf. rewrite Hf. reflexivity.
Qed.

Lemma GetStage_SINK g :
  WindowHashGroup.sunk g <> WindowHashGroup.count g ->
  WindowHashGroup.finalized g <> WindowHashGroup.blocks g ->
  WindowHashGroup.GetStage g = SINK.
Proof.
  intros Hs Hf. unfold WindowHashGroup.GetStage.
  apply N.eqb_neq in Hs, Hf. rewrite Hs, Hf. reflexivity.
Qed.

Lemma GetStage_not_DONE g : WindowHashGroup.GetStage g <> DONE.
Proof.
  unfold WindowHashGroup.GetStage.
  cbv zeta. repeat case_match; discriminate.
Qed.

Lemma GetStage_monotone g g' :
  WindowHashGroup.count g' = WindowHashGroup.count g ->
  WindowHashGroup.blocks g' = WindowHashGroup.blocks g ->
  WindowHashGroup.sunk g <= WindowHashGroup.sunk g' ->
  WindowHashGroup.sunk g' <= WindowHashGroup.count g ->
  WindowHashGroup.finalized g <= WindowHashGroup.finalized g' ->
  WindowHashGroup.finalized g' <= WindowHashGroup.blocks g ->
  stage_value (WindowHashGroup.GetStage g)
  <= stage_value (WindowHashGroup.GetStage g').
Proof.
  intros Hc Hb Hs Hs' Hf Hf'. unfold WindowHashGroup.GetStage.
  rewrite Hc, Hb. cbv zeta.
  destruct (N.eqb_spec (WindowHashGroup.finalized g) (WindowHashGroup.blocks g)) as [Ef|Ef].
  - assert (WindowHashGroup.finalized g' = WindowHashGroup.blocks g) as -> by lia.
    rewrite N.eqb_refl. reflexivity.
  - destruct (N.eqb_spec (WindowHashGroup.finalized g') (WindowHashGroup.blocks g)).
    + destruct (N.eqb_spec (WindowHashGroup.sunk g) (WindowHashGroup.count g));
        cbn; lia.
    + destruct (N.eqb_spec (WindowHashGroup.sunk g) (WindowHashGroup.count g)) as [Es|Es].
      * assert (WindowHashGroup.sunk g' = WindowHashGroup.count g) as -> by lia.
        rewrite N.eqb_refl. reflexivity.
      * destruct (N.eqb_spec (WindowHashGroup.sunk g') (WindowHashGroup.count g));
          cbn; lia.
Qed.

Lemma GetStage_sink_chunk g size :
  WindowHashGroup.sunk g + size <= WindowHashGroup.count g ->
  WindowHashGroup.count g < idx.modulus ->
  WindowHashGroup.finalized g <= WindowHashGroup.blocks g ->
  stage_value (WindowHashGroup.GetStage g)
  <= stage_value (WindowHashGroup.GetStage (sink_chunk size g)).
Proof.
  intros Hs Hc Hinv. apply GetStage_monotone; cbn -[idx.add]; try reflexivity; try lia;
    rewrite add_small by lia; lia.
Qed.

Lemma GetStage_finalize_range g k :
  Task.begin_idx k <= Task.end_idx k ->
  Task.end_idx k < idx.modulus ->
  WindowHashGroup.finalized g + (Task.end_idx k - Task.begin_idx k)
    <= WindowHashGroup.blocks g ->
  WindowHashGroup.blocks g < idx.modulus ->
  WindowHashGroup.sunk g <= WindowHashGroup.count g ->
  stage_value (WindowHashGroup.GetStage g)
  <= stage_value (WindowHashGroup.GetStage (finalize_range k g)).
Proof.
  intros Hk Hsmall Hf Hb Hinv.
  apply GetStage_monotone; cbn -[idx.add idx.sub]; try reflexivity; try lia;
    rewrite sub_small by lia; rewrite add_small by lia; lia.
Qed.

(** C2: on the groups it is asked about, [GetStage] answers SINK while
    [sunk < count], FINALIZE once [sunk == count] with [finalized < blocks],
    and GETDATA once [finalized == blocks]; and as the two counters only
    grow, the stage never moves backwards through SINK, FINALIZE, GETDATA,
    DONE.  A group that gets tasks starts in service, and sinking a chunk
    or finalizing the range of a FINALIZE task within the bounds keeps it
    there and does not move the stage backwards. *)
Theorem GetStage_by_counters :
  (forall g,
      in_service g ->
      (WindowHashGroup.sunk g < WindowHashGroup.count g ->
       WindowHashGroup.GetStage g = SINK) /\
      (WindowHashGroup.sunk g = WindowHashGroup.count g ->
       WindowHashGroup.finalized g < WindowHashGroup.blocks g ->
       WindowHashGroup.GetStage g = FINALIZE) /\
      (WindowHashGroup.finalized g = WindowHashGroup.blocks g ->
       WindowHashGroup.GetStage g = GETDATA)) /\
  (forall g g',
      in_service g ->
      in_service g' ->
      WindowHashGroup.count g' = WindowHashGroup.count g ->
      WindowHashGroup.blocks g' = WindowHashGroup.blocks g ->
      WindowHashGroup.sunk g <= WindowHashGroup.sunk g' ->
      WindowHashGroup.finalized g <= WindowHashGroup.finalized g' ->
      stage_value (WindowHashGroup.GetStage g)
      <= stage_value (WindowHashGroup.GetStage g')) /\
  (forall g,
      0 < WindowHashGroup.blocks g ->
      WindowHashGroup.sunk g = 0 ->
      WindowHashGroup.finalized g = 0 ->
      in_service g) /\
  (forall g size,
      in_service g ->
      WindowHashGroup.sunk g + size <= WindowHashGroup.count g ->
      WindowHashGroup.count g < idx.modulus ->
      in_service (sink_chunk size g) /\
      stage_value (WindowHashGroup.GetStage g)
      <= stage_value (WindowHashGroup.GetStage (sink_chunk size g))) /\
  (forall g k,
      in_service g ->
      WindowHashGroup.GetStage g = FINALIZE ->
      Task.begin_idx k <= Task.end_idx k ->
      Task.end_idx k < idx.modulus ->
      WindowHashGroup.finalized g + (Task.end_idx k - Task.begin_idx k)
        <= WindowHashGroup.blocks g ->
      WindowHashGroup.blocks g < idx.modulus ->
      in_service (finalize_range k g) /\
      stage_value (WindowHashGroup.GetStage g)
      <= stage_value (WindowHashGroup.GetStage (finalize_range k g))).
Proof.
  split; [| split; [| split; [| split]]].
  - intros g (Hblocks & Hsunk & Hfinalized & Horder).
    split; [| split].
    + intros Hlt. apply GetStage_SINK; [lia |].
      destruct (N.eq_dec (WindowHashGroup.finalized g) 0) as [E | E]; [lia |].
      assert (WindowHashGroup.sunk g = WindowHashGroup.count g) by (apply Horder; lia).
      lia.
    + intros Heq Hlt. apply GetStage_FINALIZE; [exact Heq | lia].
    + exact (GetStage_GETDATA g).
  - intros g g' (_ & _ & _ & _) (_ & Hsunk' & Hfinalized' & _) Hc Hb Hs Hf.
    apply GetStage_monotone; try assumption; lia.
  - intros g Hblocks Hsunk Hfinalized. unfold in_service.
    rewrite Hsunk, Hfinalized. repeat split; try lia.
  - intros g size (Hblocks & Hsunk & Hfinalized & Horder) Hsize Hsmall.
    split; [| apply GetStage_sink_chunk; assumption].
    unfold in_service, sink_chunk.
    cbn [WindowHashGroup.blocks WindowHashGroup.sunk WindowHashGroup.count
         WindowHashGroup.finalized WindowHashGroup.set_sunk].
    rewrite add_small by lia.
    split; [exact Hblocks |]. split; [exact Hsize |]. split; [exact Hfinalized |].
    intros Hpos. specialize (Horder Hpos). lia.
  - intros g k (Hblocks & Hsunk & Hfinalized & Horder) Hstage Hk Hend Hrange Hsmall.
    split; [| apply GetStage_finalize_range; assumption].
    assert (WindowHashGroup.sunk g = WindowHashGroup.count g) as Hall.
    { revert Hstage. unfold WindowHashGroup.GetStage. cbv zeta.
      destruct (WindowHashGroup.finalized g =? WindowHashGroup.blocks g);
        [discriminate |].
      destruct (N.eqb_spec (WindowHashGroup.sunk g) (WindowHashGroup.count g));
        [auto | discriminate]. }
    unfold in_service, finalize_range.
    cbn [WindowHashGroup.blocks WindowHashGroup.sunk WindowHashGroup.count
         WindowHashGroup.finalized WindowHashGroup.set_finalized].
    rewrite sub_small by lia. rewrite add_small by lia.
    split; [exact Hblocks |]. split; [exact Hsunk |]. split; [exact Hrange |].
    intros _. exact Hall.
Qed.

(** The stages of a group of five rows in two blocks along its life. *)
Lemma GetStage_by_counters_witness :
  WindowHashGroup.GetStage (WindowHashGroup.mk None 5 2 None None None 0 3 0 6 0) = SINK
  /\ WindowHashGroup.GetStage (WindowHashGroup.mk None 5 2 None None None 0 5 1 6 0) = FINALIZE
  /\ WindowHashGroup.GetStage (WindowHashGroup.mk None 5 2 None None None 0 5 2 6 0) = GETDATA
  /\ stage_value (WindowHashGroup.GetStage (WindowHashGroup.mk None 5 2 None None None 0 3 0 6 0))
     <= stage_value (WindowHashGroup.GetStage (WindowHashGroup.mk None 5 2 None None None 0 5 1 6 0))
  /\ stage_value (WindowHashGroup.GetStage fresh_group)
     <= stage_value (WindowHashGroup.GetStage (sink_chunk 3 fresh_group)).
Proof.
  destruct GetStage_by_counters as (Hstage & Hmono & Hfresh & Hchunk & _).
  assert (in_service (WindowHashGroup.mk None 5 2 None None None 0 3 0 6 0)) as H3
    by (unfold in_service; cbn; lia).
  assert (in_service (WindowHashGroup.mk None 5 2 None None None 0 5 1 6 0)) as H5
    by (unfold in_service; cbn; lia).
  assert (in_service (WindowHashGroup.mk None 5 2 None None None 0 5 2 6 0)) as H52
    by (unfold in_service; cbn; lia).
  split; [apply (Hstage _ H3); cbn; lia |].
  split; [apply (Hstage _ H5); cbn; [reflexivity | lia] |].
  split; [apply (Hstage _ H52); reflexivity |].
  split; [apply (Hmono _ _ H3 H5); cbn; lia |].
  apply Hchunk; [apply Hfresh; cbn; [lia | reflexivity | reflexivity] | cbn; lia
                | reflexivity].
Defined.

(** ** The task dispenser *)

Lemma at_index_lookup {A} (v : list A) i a :
  v !! N.to_nat i = Some a -> at_index v i = Ok a.
Proof. unfold at_index. intros ->. reflexivity. Qed.

(** C1: a stopped or exhausted dispenser hands out no task and does not
    block; otherwise the task under the cursor is handed out, and the cursor
    advanced, exactly when its stage is the current stage of its group, and
    else the call blocks with the cursor where it was. *)
Theorem TryNextTask_dispenses (s : WindowGlobalSourceState.t) :
  (WindowGlobalSourceState.stopped s = true
   \/ idx.size (WindowGlobalSourceState.tasks s) <= WindowGlobalSourceState.next_task s ->
   TryNextTask s = Ok (None, true, s)) /\
  (forall k g,
      WindowGlobalSourceState.stopped s = false ->
      WindowGlobalSourceState.next_task s < idx.size (WindowGlobalSourceState.tasks s) ->
      WindowGlobalSourceState.tasks s !! N.to_nat (WindowGlobalSourceState.next_task s)
        = Some k ->
      WindowPartitionGlobalSinkState.window_hash_groups (WindowGlobalSourceState.gsink s)
        !! N.to_nat (Task.group_idx k) = Some (Some g) ->
      (Task.stage k = WindowHashGroup.GetStage g ->
       TryNextTask s =
         Ok (Some (WindowGlobalSourceState.next_task s), true,
             WindowGlobalSourceState.set_next_task
               (idx.incr (WindowGlobalSourceState.next_task s)) s)) /\
      (Task.stage k <> WindowHashGroup.GetStage g ->
       TryNextTask s = Ok (None, false, s))).
Proof.
  split.
  - intros H. unfold TryNextTask.
    destruct H as [-> | H].
    + rewrite orb_true_r. reflexivity.
    + apply N.leb_le in H. rewrite H. reflexivity.
  - intros k g Hstop Hlt Hk Hg. unfold TryNextTask.
    apply N.leb_gt in Hlt. rewrite Hlt, Hstop. cbn [orb].
    rewrite (at_index_lookup _ _ _ Hk). cbn [mbind outcome_bind].
    rewrite (at_index_lookup _ _ _ Hg). cbn [mbind outcome_bind deref].
    split; intros Hstage; case_decide; congruence.
Qed.

(** ** Finishing tasks *)

Lemma decr_zero_iff n : idx.decr n = 0 <-> n mod idx.modulus = 1.
Proof.
  unfold idx.decr, idx.sub, idx.wrap, idx.modulus.
  change (1 mod 2 ^ 64) with 1.
  set (m := 2 ^ 64). assert (m = 18446744073709551616) as Hm by reflexivity.
  clearbody m.
  pose proof (N.Div0.div_mod n m) as D.
  pose proof (N.mod_upper_bound n m ltac:(lia)) as B.
  set (q := n / m) in *. set (r := n mod m) in *. clearbody q r.
  destruct (N.eq_dec r 0) as [-> | Hr].
  - replace (n + (m - 1)) with ((m - 1) + q * m) by lia.
    rewrite N.Div0.mod_add, N.mod_small by lia. lia.
  - replace (n + (m - 1)) with ((r - 1) + (q + 1) * m) by lia.
    rewrite N.Div0.mod_add, N.mod_small by lia. lia.
Qed.

(** C4, as amended: [FinishTask] with a task decrements the group's
    [tasks_remaining] (modulo [2^64]) and releases the group exactly when the
    decremented value is zero; the stage of the group plays no part.  Other
    groups and the task list are left alone, and without a task nothing
    happens. *)
Theorem FinishTask_releases_at_zero (s : WindowGlobalSourceState.t)
    (task : idx_t) (k : Task.t) (g : WindowHashGroup.t) :
  WindowGlobalSourceState.tasks s !! N.to_nat task = Some k ->
  WindowPartitionGlobalSinkState.window_hash_groups (WindowGlobalSourceState.gsink s)
    !! N.to_nat (Task.group_idx k) = Some (Some g) ->
  FinishTask None s = Ok s /\
  exists s',
    FinishTask (Some task) s = Ok s' /\
    let remaining := idx.decr (WindowHashGroup.tasks_remaining g) in
    let groups' :=
      WindowPartitionGlobalSinkState.window_hash_groups
        (WindowGlobalSourceState.gsink s') in
    (remaining = 0 -> groups' !! N.to_nat (Task.group_idx k) = Some None) /\
    (remaining <> 0 ->
     groups' !! N.to_nat (Task.group_idx k)
       = Some (Some (WindowHashGroup.set_tasks_remaining remaining g))) /\
    (groups' !! N.to_nat (Task.group_idx k) = Some None <-> remaining = 0) /\
    (remaining = 0 <-> WindowHashGroup.tasks_remaining g mod idx.modulus = 1) /\
    (forall j, j <> N.to_nat (Task.group_idx k) ->
       groups' !! j =
       WindowPartitionGlobalSinkState.window_hash_groups
         (WindowGlobalSourceState.gsink s) !! j) /\
    WindowGlobalSourceState.tasks s' = WindowGlobalSourceState.tasks s /\
    WindowGlobalSourceState.next_task s' = WindowGlobalSourceState.next_task s.
Proof.
  intros Hk Hg. split; [reflexivity |].
  unfold FinishTask.
  rewrite (at_index_lookup _ _ _ Hk). cbn [mbind outcome_bind].
  rewrite (at_index_lookup _ _ _ Hg). cbn [mbind outcome_bind deref].
  eexists. split; [reflexivity |].
  cbn -[idx.decr].
  assert (N.to_nat (Task.group_idx k)
          < length (WindowPartitionGlobalSinkState.window_hash_groups
                      (WindowGlobalSourceState.gsink s)))%nat as Hlen
    by (eapply lookup_lt_Some; exact Hg).
  rewrite list_lookup_insert_eq by exact Hlen.
  repeat split.
  - intros ->. reflexivity.
  - intros Hne. apply N.eqb_neq in Hne. rewrite Hne. reflexivity.
  - destruct (N.eqb_spec (idx.decr (WindowHashGroup.tasks_remaining g)) 0);
      [trivial | discriminate].
  - intros ->. reflexivity.
  - apply decr_zero_iff.
  - apply decr_zero_iff.
  - intros j Hj. apply list_lookup_insert_ne. congruence.
Qed.

(** The dispenser on the six tasks of a fresh two-block group: the first
    SINK task is handed out, the first FINALIZE task blocks, and past the
    end there is nothing left. *)
Lemma TryNextTask_dispenses_witness :
  TryNextTask (source_at 0 fresh_group)
    = Ok (Some 0, true,
          WindowGlobalSourceState.set_next_task (idx.incr 0) (source_at 0 fresh_group))
  /\ TryNextTask (source_at 2 fresh_group) = Ok (None, false, source_at 2 fresh_group)
  /\ TryNextTask (source_at 6 fresh_group) = Ok (None, true, source_at 6 fresh_group).
Proof.
  split; [| split].
  - destruct (TryNextTask_dispenses (source_at 0 fresh_group)) as [_ H].
    destruct (H (Task.mk SINK 0 2 0 1) fresh_group) as [Hyes _];
      [reflexivity | reflexivity | reflexivity | reflexivity |].
    apply Hyes. reflexivity.
  - destruct (TryNextTask_dispenses (source_at 2 fresh_group)) as [_ H].
    destruct (H (Task.mk FINALIZE 0 2 0 1) fresh_group) as [_ Hno];
      [reflexivity | reflexivity | reflexivity | reflexivity |].
    apply Hno. discriminate.
  - destruct (TryNextTask_dispenses (source_at 6 fresh_group)) as [H _].
    apply H. right. vm_compute. discriminate.
Defined.

(** Finishing the last task of a scanned group empties its slot. *)
Lemma FinishTask_releases_at_zero_witness :
  exists s',
    FinishTask (Some 5) (source_at 6 scanned_group) = Ok s' /\
    WindowPartitionGlobalSinkState.window_hash_groups
      (WindowGlobalSourceState.gsink s') !! 0%nat = Some None.
Proof.
  destruct (FinishTask_releases_at_zero (source_at 6 scanned_group) 5
              (Task.mk GETDATA 0 2 1 2) scanned_group)
    as (_ & s' & Hrun & Hzero & _); [reflexivity | reflexivity |].
  exists s'. split; [exact Hrun |].
  apply Hzero. reflexivity.
Defined.

(** C4 does not hold as the specification words it: the group is released
    although its stage is not DONE.  Here the last GETDATA task of a fully scanned group
    is finished; [GetStage] answers GETDATA, as it does for every group that
    has been finalized, and the group is destroyed all the same. *)
Lemma FinishTask_releases_before_DONE :
  ~ (forall s task k g s',
        WindowGlobalSourceState.tasks s !! N.to_nat task = Some k ->
        WindowPartitionGlobalSinkState.window_hash_groups
          (WindowGlobalSourceState.gsink s) !! N.to_nat (Task.group_idx k)
          = Some (Some g) ->
        FinishTask (Some task) s = Ok s' ->
        WindowPartitionGlobalSinkState.window_hash_groups
          (WindowGlobalSourceState.gsink s') !! N.to_nat (Task.group_idx k)
          = Some None ->
        idx.decr (WindowHashGroup.tasks_remaining g) = 0
        /\ WindowHashGroup.GetStage g = DONE).
Proof.
  intros H.
  destruct (H (source_at 6 scanned_group) 5 (Task.mk GETDATA 0 2 1 2)
              scanned_group _ eq_refl eq_refl eq_refl eq_refl) as [_ Hdone].
  discriminate Hdone.
Qed.

(** ** Finalising the sink *)

(** C5: without sunk rows no output is possible; with the unpartitioned row
    collection present the answer is READY exactly when it holds rows, and
    nothing is scheduled; without merge tasks no output is possible; in every
    other case exactly one merge event is scheduled and the answer is
    READY. *)
Theorem Finalize_outcomes (state : WindowPartitionGlobalSinkState.t) :
  (WindowPartitionGlobalSinkState.count state = 0 ->
   Finalize state = (NO_OUTPUT_POSSIBLE, [])) /\
  (forall rows,
      WindowPartitionGlobalSinkState.count state <> 0 ->
      WindowPartitionGlobalSinkState.rows state = Some rows ->
      (RowDataCollection.count rows <> 0 -> Finalize state = (READY, [])) /\
      (RowDataCollection.count rows = 0 -> Finalize state = (NO_OUTPUT_POSSIBLE, []))) /\
  (WindowPartitionGlobalSinkState.count state <> 0 ->
   WindowPartitionGlobalSinkState.rows state = None ->
   WindowPartitionGlobalSinkState.HasMergeTasks state = false ->
   Finalize state = (NO_OUTPUT_POSSIBLE, [])) /\
  (WindowPartitionGlobalSinkState.count state <> 0 ->
   WindowPartitionGlobalSinkState.rows state = None ->
   WindowPartitionGlobalSinkState.HasMergeTasks state = true ->
   Finalize state = (READY, [PartitionMergeEvent state])).
Proof.
  unfold Finalize. split; [| split; [| split]].
  - intros ->. reflexivity.
  - intros rows Hc Hr. apply N.eqb_neq in Hc. rewrite Hc, Hr.
    split; intros Hn.
    + apply N.eqb_neq in Hn. rewrite Hn. reflexivity.
    + rewrite Hn. reflexivity.
  - intros Hc Hr Hm. apply N.eqb_neq in Hc. rewrite Hc, Hr, Hm. reflexivity.
  - intros Hc Hr Hm. apply N.eqb_neq in Hc. rewrite Hc, Hr, Hm. reflexivity.
Qed.

(** A hashed partition with merge work, an unpartitioned one with rows, and
    an empty one. *)
Lemma Finalize_outcomes_witness :
  Finalize (partition_of []) = (READY, [PartitionMergeEvent (partition_of [])])
  /\ Finalize (WindowPartitionGlobalSinkState.mk 5 (Some two_blocks) None [] false false [])
     = (READY, [])
  /\ Finalize (WindowPartitionGlobalSinkState.mk 0 None None [] false true [])
     = (NO_OUTPUT_POSSIBLE, []).
Proof.
  split; [| split].
  - destruct (Finalize_outcomes (partition_of [])) as (_ & _ & _ & H).
    apply H; [discriminate | reflexivity | reflexivity].
  - destruct (Finalize_outcomes
                (WindowPartitionGlobalSinkState.mk 5 (Some two_blocks) None [] false false []))
      as (_ & H & _).
    apply (H two_blocks); [discriminate | reflexivity | discriminate].
  - destruct (Finalize_outcomes
                (WindowPartitionGlobalSinkState.mk 0 None None [] false true []))
      as (H & _).
    apply H. reflexivity.
Defined.

(** ** The canonical descriptor and the source order *)

Lemma incr_size {A} (v : list A) (a : A) :
  idx.size (v ++ [a]) < idx.modulus ->
  idx.incr (idx.size v) = idx.size (v ++ [a]).
Proof.
  unfold idx.incr, idx.add, idx.wrap, idx.size. rewrite length_app. cbn [length].
  intros H. rewrite N.mod_small by lia. lia.
Qed.

(** What the constructor's loop knows after the descriptors [seen]: the
    largest number of order keys among them, and the first place where it
    occurs. *)
Definition most_orders (seen : list BoundWindowExpression.t)
    (order_idx max_orders : idx_t) : Prop :=
  (forall w, w ∈ seen -> idx.size (BoundWindowExpression.orders w) <= max_orders) /\
  (max_orders = 0 -> order_idx = 0) /\
  (0 < max_orders ->
   exists w,
     seen !! N.to_nat order_idx = Some w /\
     idx.size (BoundWindowExpression.orders w) = max_orders /\
     forall j w', (j < N.to_nat order_idx)%nat -> seen !! j = Some w' ->
       idx.size (BoundWindowExpression.orders w') < max_orders).

Lemma scan_select_list_most_orders v :
  forall seen order_idx dep max_orders order_idx' dep' max_orders',
    idx.size (seen ++ v) < idx.modulus ->
    most_orders seen order_idx max_orders ->
    PhysicalWindow.scan_select_list (idx.size seen) v (order_idx, dep, max_orders)
      = (order_idx', dep', max_orders') ->
    most_orders (seen ++ v) order_idx' max_orders'.
Proof.
  induction v as [|bw v IH]; intros seen oi dep m oi' dep' m' Hlen Hinv Hrun.
  - cbn in Hrun. rewrite app_nil_r. congruence.
  - cbn [PhysicalWindow.scan_select_list] in Hrun.
    assert (idx.size (seen ++ [bw]) < idx.modulus) as Hlen1.
    { revert Hlen. unfold idx.size. rewrite !length_app. cbn [length]. lia. }
    rewrite (incr_size seen bw Hlen1) in Hrun.
    replace (seen ++ bw :: v) with ((seen ++ [bw]) ++ v) in *
      by (rewrite <- app_assoc; reflexivity).
    destruct Hinv as (Hmax & Hzero & Hpos).
    set (n := idx.size (BoundWindowExpression.orders bw)) in *.
    destruct (N.ltb_spec m n) as [Hlt | Hge].
    + eapply IH; [exact Hlen | | exact Hrun].
      split; [| split].
      * intros w Hw. apply elem_of_app in Hw as [Hw | Hw].
        -- specialize (Hmax w Hw). lia.
        -- apply list_elem_of_singleton in Hw. subst w. fold n. lia.
      * lia.
      * intros _. exists bw.
        assert (N.to_nat (idx.size seen) = length seen) as Eidx
          by (unfold idx.size; lia).
        rewrite Eidx. split; [| split].
        -- rewrite lookup_app_r by lia. rewrite Nat.sub_diag. reflexivity.
        -- reflexivity.
        -- intros j w' Hj Hw'. rewrite lookup_app_l in Hw' by exact Hj.
           apply list_elem_of_lookup_2 in Hw'. specialize (Hmax w' Hw'). lia.
    + eapply IH; [exact Hlen | | exact Hrun].
      split; [| split].
      * intros w Hw. apply elem_of_app in Hw as [Hw | Hw].
        -- exact (Hmax w Hw).
        -- apply list_elem_of_singleton in Hw. subst w. exact Hge.
      * exact Hzero.
      * intros Hm. destruct (Hpos Hm) as (w & Hw & Hn & Hfirst).
        exists w. split; [| split].
        -- apply lookup_app_l_Some. exact Hw.
        -- exact Hn.
        -- intros j w' Hj Hw'.
           assert (N.to_nat oi < length seen)%nat
             by (eapply lookup_lt_Some; exact Hw).
           rewrite lookup_app_l in Hw' by lia.
           exact (Hfirst j w' Hj Hw').
Qed.

(** The condition under which the source keeps a fixed order: the descriptor
    has no partition key and at least one order key. *)
Definition single_sorted_stream (w : BoundWindowExpression.t) : Prop :=
  BoundWindowExpression.partitions w = [] /\ BoundWindowExpression.orders w <> [].

Lemma supports_iff_single_sorted_stream w :
  PhysicalWindow.empty (BoundWindowExpression.partitions w)
  && negb (PhysicalWindow.empty (BoundWindowExpression.orders w)) = true
  <-> single_sorted_stream w.
Proof.
  unfold single_sorted_stream.
  destruct (BoundWindowExpression.partitions w), (BoundWindowExpression.orders w);
    cbn; intuition congruence.
Qed.

(** C8: the constructor picks the first descriptor with the most order keys,
    and the operator answers FIXED_ORDER and supports batch indices exactly
    when that descriptor has no partition key and at least one order key; in
    every other case it answers NO_ORDER and supports none. *)
Theorem SourceOrder_of_canonical_descriptor
    (select_list : list BoundWindowExpression.t) :
  select_list <> [] ->
  idx.size select_list < idx.modulus ->
  let op := PhysicalWindow.ctor select_list in
  exists wexpr,
    select_list !! N.to_nat (PhysicalWindow.order_idx op) = Some wexpr /\
    (forall w, w ∈ select_list ->
       (length (BoundWindowExpression.orders w)
        <= length (BoundWindowExpression.orders wexpr))%nat) /\
    (forall j w, (j < N.to_nat (PhysicalWindow.order_idx op))%nat ->
       select_list !! j = Some w ->
       (length (BoundWindowExpression.orders w)
        < length (BoundWindowExpression.orders wexpr))%nat) /\
    (PhysicalWindow.SupportsBatchIndex op = Ok true <-> single_sorted_stream wexpr) /\
    (PhysicalWindow.SourceOrder op = Ok FIXED_ORDER <-> single_sorted_stream wexpr) /\
    (PhysicalWindow.SupportsBatchIndex op = Ok false <-> ~ single_sorted_stream wexpr) /\
    (PhysicalWindow.SourceOrder op = Ok NO_ORDER <-> ~ single_sorted_stream wexpr).
Proof.
  intros Hne Hlen op.
  unfold PhysicalWindow.ctor in op.
  destruct (PhysicalWindow.scan_select_list 0 select_list (0, false, 0))
    as [[oi dep] m] eqn:Hrun.
  assert (most_orders select_list oi m) as (Hmax & Hzero & Hpos).
  { apply (scan_select_list_most_orders select_list [] 0 false 0 oi dep m);
      [exact Hlen | | exact Hrun].
    split; [| split].
    - intros w Hw. apply elem_of_nil in Hw. contradiction.
    - reflexivity.
    - lia. }
  assert (exists wexpr,
             select_list !! N.to_nat oi = Some wexpr /\
             idx.size (BoundWindowExpression.orders wexpr) = m /\
             forall j w', (j < N.to_nat oi)%nat -> select_list !! j = Some w' ->
               idx.size (BoundWindowExpression.orders w') < m)
    as (wexpr & Hw & Hn & Hfirst).
  { destruct (N.eq_dec m 0) as [Hm | Hm].
    - rewrite (Hzero Hm). destruct select_list as [|w0 rest]; [congruence |].
      exists w0. split; [reflexivity | split].
      + specialize (Hmax w0 ltac:(left)). lia.
      + intros j w' Hj. cbn in Hj. lia.
    - apply Hpos. lia. }
  exists wexpr. subst op. cbn [PhysicalWindow.order_idx].
  split; [exact Hw |].
  split.
  { intros w Hin. specialize (Hmax w Hin). unfold idx.size in *. lia. }
  split.
  { intros j w Hj Hjw. specialize (Hfirst j w Hj Hjw). unfold idx.size in *. lia. }
  unfold PhysicalWindow.SourceOrder, PhysicalWindow.SupportsBatchIndex.
  cbn [PhysicalWindow.select_list PhysicalWindow.order_idx].
  rewrite (at_index_lookup _ _ _ Hw). cbn [mbind outcome_bind].
  pose proof (supports_iff_single_sorted_stream wexpr) as Hiff.
  destruct (PhysicalWindow.empty (BoundWindowExpression.partitions wexpr)
            && negb (PhysicalWindow.empty (BoundWindowExpression.orders wexpr))).
  - assert (single_sorted_stream wexpr) as Hyes by (apply Hiff; reflexivity).
    split; [split; [intros _; exact Hyes | reflexivity] |].
    split; [split; [intros _; exact Hyes | reflexivity] |].
    split; split; intros X; try discriminate X; contradiction.
  - assert (~ single_sorted_stream wexpr) as Hno
      by (intros X; apply Hiff in X; discriminate).
    split; [split; intros X; [discriminate X | contradiction] |].
    split; [split; intros X; [discriminate X | contradiction] |].
    split; split; intros _; try exact Hno; reflexivity.
Qed.

(** [OVER ()] next to [OVER (ORDER BY x)]: the second descriptor is the
    canonical one and the source order is fixed. *)
Lemma SourceOrder_of_canonical_descriptor_witness :
  let by_x :=
    BoundOrderByNode.mk ASCENDING NULLS_LAST (Expression.mk "x") in
  let select_list :=
    [BoundWindowExpression.mk [] []; BoundWindowExpression.mk [] [by_x]] in
  PhysicalWindow.order_idx (PhysicalWindow.ctor select_list) = 1
  /\ PhysicalWindow.SourceOrder (PhysicalWindow.ctor select_list) = Ok FIXED_ORDER.
Proof.
  intros by_x select_list. split; [reflexivity |].
  destruct (SourceOrder_of_canonical_descriptor select_list)
    as (wexpr & Hw & _ & _ & _ & Hfixed & _);
    [discriminate | vm_compute; reflexivity |].
  apply Hfixed. vm_compute in Hw. injection Hw as <-.
  split; [reflexivity | discriminate].
Defined.

(** ** The external flag of a hash group *)

(** The sorted payload can be moved out: there is no sorted block, or the
    first one has a data block. *)
Definition materializable (hg : PartitionGlobalHashGroup.t) : Prop :=
  match GlobalSortState.sorted_blocks (PartitionGlobalHashGroup.global_sort hg) with
  | [] => True
  | sd :: _ => SortedData.data_blocks sd <> []
  end.

Lemma MaterializeSortedData_external g g' :
  MaterializeSortedData g = Ok g' ->
  WindowHashGroup.external g' = WindowHashGroup.external g.
Proof.
  unfold MaterializeSortedData.
  destruct (WindowHashGroup.hash_group g) as [hg|]; [| discriminate].
  cbn [deref mbind outcome_bind].
  destruct (GlobalSortState.sorted_blocks _) as [|sd ?]; [congruence |].
  destruct (at_index _ 0); [| discriminate]. cbn [mbind outcome_bind].
  destruct (SortedData.heap_blocks sd); intros [= <-]; reflexivity.
Qed.

Lemma MaterializeSortedData_total g hg :
  WindowHashGroup.hash_group g = Some hg ->
  materializable hg ->
  exists g', MaterializeSortedData g = Ok g'.
Proof.
  unfold MaterializeSortedData, materializable. intros -> H.
  cbn [deref mbind outcome_bind].
  destruct (GlobalSortState.sorted_blocks _) as [|sd ?]; [eauto |].
  destruct (SortedData.data_blocks sd) as [|b bs] eqn:E; [contradiction |].
  cbn. destruct (SortedData.heap_blocks sd); eauto.
Qed.

Lemma MaterializeSortedData_counters g g' :
  MaterializeSortedData g = Ok g' ->
  WindowHashGroup.tasks_remaining g' = WindowHashGroup.tasks_remaining g /\
  WindowHashGroup.batch_base g' = WindowHashGroup.batch_base g /\
  WindowHashGroup.sunk g' = WindowHashGroup.sunk g /\
  WindowHashGroup.finalized g' = WindowHashGroup.finalized g.
Proof.
  unfold MaterializeSortedData.
  destruct (WindowHashGroup.hash_group g) as [hg|]; [| discriminate].
  cbn [deref mbind outcome_bind].
  destruct (GlobalSortState.sorted_blocks _) as [|sd ?]; [intros [= <-]; auto |].
  destruct (at_index _ 0); [| discriminate]. cbn [mbind outcome_bind].
  destruct (SortedData.heap_blocks sd); intros [= <-]; auto.
Qed.

Lemma bin_in_range {A} (v : list (option A)) (i : idx_t) :
  (if i <? idx.size v then mjoin (v !! N.to_nat i) else None)
  = mjoin (v !! N.to_nat i).
Proof.
  destruct (N.ltb_spec i (idx.size v)) as [H | H]; [reflexivity |].
  rewrite lookup_ge_None_2; [reflexivity |]. unfold idx.size in H. lia.
Qed.

Section ExternalFlag.

Variable AlignHeapBlocks :
  RowDataCollection.t -> RowDataCollection.t ->
  RowDataCollection.t -> RowDataCollection.t -> Aligned.t.

(** C10: a group built for the unpartitioned case (global rows present,
    bin 0) is marked external whatever the partitioner's and the sorter's
    flags say; a group built from a hash bin copies the flag of that bin's
    sorter; and a group built from nothing has its flag left unset. *)
Theorem WindowHashGroup_external_flag
    (gpart : WindowPartitionGlobalSinkState.t) (hash_bin : idx_t) :
  let unpartitioned :=
    is_Some (WindowPartitionGlobalSinkState.rows gpart) /\ hash_bin = 0 in
  let bin :=
    mjoin (WindowPartitionGlobalSinkState.hash_groups gpart !! N.to_nat hash_bin) in
  (unpartitioned ->
   is_Some (WindowPartitionGlobalSinkState.strings gpart) ->
   exists g gpart',
     WindowHashGroup_ctor AlignHeapBlocks gpart hash_bin = Ok (g, gpart') /\
     WindowHashGroup.external g = Some true) /\
  (forall hg,
      ~ unpartitioned ->
      bin = Some hg ->
      (forall g gpart',
          WindowHashGroup_ctor AlignHeapBlocks gpart hash_bin = Ok (g, gpart') ->
          WindowHashGroup.external g
          = Some (GlobalSortState.external (PartitionGlobalHashGroup.global_sort hg))) /\
      (materializable hg ->
       exists g gpart',
         WindowHashGroup_ctor AlignHeapBlocks gpart hash_bin = Ok (g, gpart'))) /\
  (~ unpartitioned ->
   bin = None ->
   exists g,
     WindowHashGroup_ctor AlignHeapBlocks gpart hash_bin = Ok (g, gpart) /\
     WindowHashGroup.external g = None).
Proof.
  intros unpartitioned bin. unfold WindowHashGroup_ctor.
  rewrite bin_in_range. fold bin.
  assert (bool_decide (is_Some (WindowPartitionGlobalSinkState.rows gpart))
          && (hash_bin =? 0) = true <-> unpartitioned) as Hun.
  { unfold unpartitioned. rewrite andb_true_iff, bool_decide_eq_true, N.eqb_eq.
    reflexivity. }
  destruct (bool_decide (is_Some (WindowPartitionGlobalSinkState.rows gpart))
            && (hash_bin =? 0)) eqn:Hflag.
  - assert unpartitioned as Hyes by (apply Hun; reflexivity).
    split; [| split].
    + intros _ [strings Hstrings].
      destruct Hyes as [[rows Hrows] _]. rewrite Hrows, Hstrings.
      destruct bin; cbn; eauto.
    + intros hg Hno. contradiction.
    + intros Hno. contradiction.
  - assert (~ unpartitioned) as Hno by (intros X; apply Hun in X; discriminate).
    split; [| split].
    + intros Hyes. contradiction.
    + intros hg _ Hbin. rewrite Hbin.
      destruct (hash_bin <? idx.size (WindowPartitionGlobalSinkState.hash_groups gpart))
        eqn:Hrange.
      * cbn [deref mbind outcome_bind]. split.
        -- intros g gpart'.
           destruct (MaterializeSortedData _) as [g1|] eqn:Hmat; [| discriminate].
           apply MaterializeSortedData_external in Hmat.
           cbn. intros [= <- _]. cbn. rewrite Hmat. reflexivity.
        -- intros Hm.
           match goal with
           | |- context [MaterializeSortedData ?g0] =>
               destruct (MaterializeSortedData_total g0 hg eq_refl Hm) as [g1 Hg1]
           end.
           rewrite Hg1. cbn. eauto.
      * exfalso. subst bin.
        rewrite lookup_ge_None_2 in Hbin; [discriminate |].
        apply N.ltb_ge in Hrange. unfold idx.size in Hrange. lia.
    + intros _ Hbin. rewrite Hbin. eexists. split; reflexivity.
Qed.

(** A group comes out of its constructor with all counters at zero and
    with [blocks] equal to the number of blocks of its rows: the groups the
    source state works on are fresh, and the [max_idx] of their tasks is
    their [blocks]. *)
Lemma WindowHashGroup_ctor_fresh gpart hash_bin g gpart' :
  WindowHashGroup_ctor AlignHeapBlocks gpart hash_bin = Ok (g, gpart') ->
  WindowHashGroup.tasks_remaining g = 0 /\
  WindowHashGroup.batch_base g = 0 /\
  WindowHashGroup.sunk g = 0 /\
  WindowHashGroup.finalized g = 0 /\
  forall rows,
    WindowHashGroup.rows g = Some rows ->
    WindowHashGroup.blocks g = idx.size (RowDataCollection.blocks rows).
Proof.
  unfold WindowHashGroup_ctor.
  set (bin := if _ <? _ then _ else None).
  set (unpartitioned := bool_decide _ && _).
  destruct (match bin with
            | Some hg => Some (PartitionGlobalHashGroup.count hg)
            | None =>
                if unpartitioned
                then Some (WindowPartitionGlobalSinkState.count gpart)
                else None
            end) as [count|].
  2: { intros [= <- <-]. cbn. repeat split; try reflexivity. discriminate. }
  destruct unpartitioned.
  - destruct (WindowPartitionGlobalSinkState.rows gpart); [| discriminate].
    destruct (WindowPartitionGlobalSinkState.strings gpart); [| discriminate].
    cbn. intros [= <- <-]. cbn. repeat split; try reflexivity.
    intros rows [= <-]. reflexivity.
  - destruct (_ <? _).
    + destruct bin as [hg|]; [| discriminate]. cbn [deref mbind outcome_bind].
      destruct (MaterializeSortedData _) as [g1|] eqn:Hmat; [| discriminate].
      apply MaterializeSortedData_counters in Hmat as (Htr & Hbb & Hs & Hf).
      cbn in Htr, Hbb, Hs, Hf. cbn [mbind outcome_bind].
      intros [= <- <-]. cbn. repeat split; try assumption.
      intros rows Hrows. rewrite Hrows. reflexivity.
    + cbn. intros [= <- <-]. cbn. repeat split; try reflexivity. discriminate.
Qed.

End ExternalFlag.

(** The three ways a group is built: from the unpartitioned rows of a
    partitioner that did not spill, from a bin sorted out of core, and from
    an empty bin. *)
Lemma WindowHashGroup_external_flag_witness :
  (exists g gpart',
      WindowHashGroup_ctor hand_over unpartitioned_partition 0 = Ok (g, gpart')
      /\ WindowHashGroup.external g = Some true)
  /\ (exists g gpart',
         WindowHashGroup_ctor hand_over (hashed_partition (Some spilled_bin)) 0
         = Ok (g, gpart')
         /\ WindowHashGroup.external g = Some true)
  /\ (exists g,
         WindowHashGroup_ctor hand_over (hashed_partition None) 0
         = Ok (g, hashed_partition None)
         /\ WindowHashGroup.external g = None).
Proof.
  split; [| split].
  - destruct (WindowHashGroup_external_flag hand_over unpartitioned_partition 0)
      as (H & _).
    apply H; [split; [eexists |]; reflexivity | eexists; reflexivity].
  - destruct (WindowHashGroup_external_flag hand_over
                (hashed_partition (Some spilled_bin)) 0) as (_ & H & _).
    destruct (H spilled_bin) as [Hflag Hrun];
      [intros [[? X] _]; discriminate X | reflexivity |].
    destruct Hrun as (g & gpart' & Hg); [cbn; discriminate |].
    exists g, gpart'. split; [exact Hg |]. exact (Hflag g gpart' Hg).
  - destruct (WindowHashGroup_external_flag hand_over (hashed_partition None) 0)
      as (_ & _ & H).
    apply H; [intros [[? X] _]; discriminate X | reflexivity].
Defined.

(** ** Exceptions in the source *)

(** Nobody is queued in a source that leaves its constructor, and the
    dispenser does not write the queue. *)
Lemma construction_queues_nobody AlignHeapBlocks fuel threads gsink source :
  WindowGlobalSourceState_ctor AlignHeapBlocks fuel threads gsink = Ok source ->
  WindowGlobalSourceState.blocked_tasks source = [].
Proof.
  unfold WindowGlobalSourceState_ctor. intros Hrun.
  destruct (prepare_hash_groups AlignHeapBlocks gsink) as [gpart|]; [| discriminate].
  cbn [mbind outcome_bind] in Hrun.
  destruct (WindowPartitionGlobalSinkState.window_hash_groups gpart);
    [injection Hrun as <-; reflexivity |].
  destruct (collect_partition_blocks _ _) as [pbs|]; [| discriminate].
  cbn [mbind outcome_bind] in Hrun.
  destruct (at_index _ _) as [max_block|]; [| discriminate].
  cbn [mbind outcome_bind] in Hrun.
  destruct (per_thread_of _ _) as [per_thread|]; [| discriminate].
  cbn [mbind outcome_bind] in Hrun.
  destruct (for_each _ _ _) as [[tasks groups]|]; [| discriminate].
  injection Hrun as <-. reflexivity.
Qed.

Lemma dispenser_keeps_queue s :
  (forall task flag s',
      TryNextTask s = Ok (task, flag, s') ->
      WindowGlobalSourceState.blocked_tasks s'
      = WindowGlobalSourceState.blocked_tasks s) /\
  (forall task s',
      FinishTask task s = Ok s' ->
      WindowGlobalSourceState.blocked_tasks s'
      = WindowGlobalSourceState.blocked_tasks s).
Proof.
  split.
  - intros task flag s'. unfold TryNextTask.
    destruct (_ || _); [intros H; inversion H; reflexivity |].
    destruct (at_index _ _) as [k|]; [| discriminate]. cbn [mbind outcome_bind].
    destruct (at_index _ _) as [[g|]|]; [| discriminate | discriminate].
    cbn [deref mbind outcome_bind].
    destruct (decide _); intros H; inversion H; reflexivity.
  - intros [task|] s'; unfold FinishTask; [| intros H; inversion H; reflexivity].
    destruct (at_index _ _) as [k|]; [| discriminate]. cbn [mbind outcome_bind].
    destruct (at_index _ _) as [[g|]|]; [| discriminate | discriminate].
    cbn [deref mbind outcome_bind].
    intros H. inversion H. reflexivity.
Qed.

Section SourceExceptions.

Context {E : Type}.
Variable lsource_GetData : source_state -> completion E source_state (bool * idx_t).
Variable YieldThread : WindowGlobalSourceState.t -> WindowGlobalSourceState.t.






End SourceExceptions.


(** ** The task-emitting loop *)

Lemma MinValue_min a b : idx.MinValue a b = N.min a b.
Proof.
  unfold idx.MinValue. destruct (N.ltb_spec a b); lia.
Qed.

Lemma add_tasks_remaining_0 g : add_tasks_remaining 0 g = g.
Proof. destruct g. reflexivity. Qed.

Lemma add_tasks_remaining_add a b g :
  add_tasks_remaining a (add_tasks_remaining b g) = add_tasks_remaining (a + b) g.
Proof.
  unfold add_tasks_remaining. cbn.
  rewrite Nat.iter_add. reflexivity.
Qed.

Lemma bump_0 gi groups : bump 0 gi groups = groups.
Proof.
  unfold bump. apply list_alter_id.
  intros [g|]; cbn; [rewrite add_tasks_remaining_0 |]; reflexivity.
Qed.

Lemma bump_bump a b gi groups :
  bump a gi (bump b gi groups) = bump (a + b) gi groups.
Proof.
  unfold bump. rewrite list_alter_alter_eq.
  apply list_alter_ext; [| reflexivity].
  intros [g|] _; cbn; [rewrite add_tasks_remaining_add |]; reflexivity.
Qed.

Lemma bump_insert gi groups g :
  groups !! N.to_nat gi = Some (Some g) ->
  <[N.to_nat gi :=
      Some (WindowHashGroup.set_tasks_remaining
              (idx.incr (WindowHashGroup.tasks_remaining g)) g)]> groups
  = bump 1 gi groups.
Proof.
  intros Hg. unfold bump. rewrite list_insert_alter.
  apply list_alter_ext; [| reflexivity].
  intros slot Hj. rewrite Hg in Hj. injection Hj as <-. reflexivity.
Qed.

Lemma bump_live n gi gj groups :
  (exists g, groups !! N.to_nat gj = Some (Some g)) ->
  exists g, bump n gi groups !! N.to_nat gj = Some (Some g).
Proof.
  intros [g Hg]. unfold bump. rewrite list_lookup_alter.
  case_decide as Heq; [| eauto].
  rewrite Heq, Hg. cbn. eauto.
Qed.

Lemma emit_tasks_run per_thread stage gi max_idx :
  0 < per_thread ->
  max_idx + per_thread <= idx.modulus ->
  forall n fuel begin_idx end_idx tasks groups,
    (n <= fuel)%nat ->
    max_idx <= begin_idx + N.of_nat n * per_thread ->
    (n <> 0%nat -> begin_idx + (N.of_nat n - 1) * per_thread < max_idx) ->
    (exists g, groups !! N.to_nat gi = Some (Some g)) ->
    emit_tasks fuel per_thread (Task.mk stage gi max_idx begin_idx end_idx)
      (tasks, groups)
    = Ok (tasks
          ++ ((fun r : N * N => Task.mk stage gi max_idx r.1 r.2)
                <$> strides n begin_idx per_thread max_idx),
          bump n gi groups).
Proof.
  intros Hp Hsmall. induction n as [|n IH];
    intros fuel begin_idx end_idx tasks groups Hfuel Hhi Hlo Hlive.
  - assert ((begin_idx <? max_idx) = false) as Hdone by (apply N.ltb_ge; lia).
    destruct fuel; cbn [emit_tasks Task.begin_idx Task.max_idx];
      rewrite Hdone; cbn [strides fmap list_fmap];
      rewrite app_nil_r, bump_0; reflexivity.
  - destruct fuel as [|fuel]; [lia |].
    assert (begin_idx + N.of_nat n * per_thread < max_idx) as Hlt
      by (specialize (Hlo ltac:(lia)); lia).
    assert ((begin_idx <? max_idx) = true) as Hgo by (apply N.ltb_lt; nia).
    cbn [emit_tasks Task.begin_idx Task.max_idx Task.group_idx
         Task.set_end_idx Task.set_begin_idx Task.stage Task.end_idx fst snd].
    rewrite Hgo.
    destruct Hlive as [g Hg].
    rewrite (at_index_lookup _ _ _ Hg). cbn [mbind outcome_bind deref].
    rewrite (bump_insert _ _ _ Hg).
    assert (begin_idx + per_thread < idx.modulus) as Hnowrap by nia.
    rewrite add_small by exact Hnowrap. rewrite MinValue_min.
    unfold Task.set_begin_idx, Task.set_end_idx.
    cbn [Task.begin_idx Task.max_idx Task.group_idx Task.stage Task.end_idx].
    rewrite IH.
    + cbn [strides fmap list_fmap fst snd].
      rewrite <- app_assoc. cbn [app].
      rewrite bump_bump. replace (n + 1)%nat with (S n) by lia. reflexivity.
    + lia.
    + lia.
    + intros Hn. nia.
    + apply bump_live. eauto.
Qed.

Lemma ceil_div_0_l b : ceil_div 0 b = 0.
Proof.
  unfold ceil_div. destruct (N.eq_dec b 0) as [-> | Hb]; [reflexivity |].
  apply N.div_small. lia.
Qed.

Lemma emit_stage per_thread stage (b : PartitionBlock) fuel tasks groups :
  (b.1 <> 0 -> 0 < per_thread) ->
  b.1 + per_thread <= idx.modulus ->
  (task_count per_thread b <= fuel)%nat ->
  (exists g, groups !! N.to_nat b.2 = Some (Some g)) ->
  emit_tasks fuel per_thread (Task.ctor stage b.2 b.1) (tasks, groups)
  = Ok (tasks ++ stride_tasks per_thread stage b,
        bump (task_count per_thread b) b.2 groups).
Proof.
  intros Hp Hsmall Hfuel Hlive. unfold Task.ctor, stride_tasks, task_count in *.
  destruct (N.eq_dec b.1 0) as [Hz | Hnz].
  - rewrite Hz, ceil_div_0_l. cbn [N.to_nat strides fmap list_fmap].
    rewrite app_nil_r, bump_0.
    destruct fuel; reflexivity.
  - specialize (Hp Hnz).
    destruct (ceil_div_bounds b.1 per_thread Hp) as [Hlo Hhi].
    apply emit_tasks_run; try assumption.
    + rewrite N2Nat.id. lia.
    + intros Hn. rewrite N2Nat.id.
      assert (0 < ceil_div b.1 per_thread) by lia. nia.
Qed.

Lemma schedule_group per_thread (b : PartitionBlock) fuel tasks groups :
  (b.1 <> 0 -> 0 < per_thread) ->
  b.1 + per_thread <= idx.modulus ->
  (task_count per_thread b <= fuel)%nat ->
  (exists g, groups !! N.to_nat b.2 = Some (Some g)) ->
  for_each
    (fun st state => emit_tasks fuel per_thread (Task.ctor state b.2 b.1) st)
    states (tasks, groups)
  = Ok (tasks ++ group_tasks per_thread b,
        bump (3 * task_count per_thread b) b.2 groups).
Proof.
  intros Hp Hsmall Hfuel Hlive. unfold states, group_tasks.
  cbn [for_each].
  rewrite emit_stage by assumption. cbn [mbind outcome_bind].
  rewrite emit_stage by (try assumption; apply bump_live; assumption).
  cbn [mbind outcome_bind].
  rewrite emit_stage by (try assumption; do 2 apply bump_live; assumption).
  cbn [mbind outcome_bind].
  rewrite !bump_bump, <- !app_assoc.
  replace (task_count per_thread b + task_count per_thread b + task_count per_thread b)%nat
    with (3 * task_count per_thread b)%nat by lia.
  reflexivity.
Qed.

Lemma bump_all_cons per_thread (b : PartitionBlock) pbs groups :
  bump_all per_thread (b :: pbs) groups
  = bump_all per_thread pbs (bump (3 * task_count per_thread b) b.2 groups).
Proof. reflexivity. Qed.

Lemma bump_all_live per_thread pbs :
  forall groups gj,
    (exists g, groups !! N.to_nat gj = Some (Some g)) ->
    exists g, bump_all per_thread pbs groups !! N.to_nat gj = Some (Some g).
Proof.
  induction pbs as [|b pbs IH]; intros groups gj Hlive; [exact Hlive |].
  rewrite bump_all_cons. apply IH. apply bump_live. exact Hlive.
Qed.

Lemma schedule_all per_thread fuel pbs :
  forall tasks groups,
    (forall b, b ∈ pbs ->
       (b.1 <> 0 -> 0 < per_thread) /\
       b.1 + per_thread <= idx.modulus /\
       (task_count per_thread b <= fuel)%nat /\
       exists g, groups !! N.to_nat b.2 = Some (Some g)) ->
    for_each
      (fun st (b : PartitionBlock) =>
         for_each
           (fun st state => emit_tasks fuel per_thread (Task.ctor state b.2 b.1) st)
           states st)
      pbs (tasks, groups)
    = Ok (tasks ++ (pbs ≫= group_tasks per_thread),
          bump_all per_thread pbs groups).
Proof.
  induction pbs as [|b pbs IH]; intros tasks groups Hall.
  - cbn. rewrite app_nil_r. reflexivity.
  - cbn [for_each].
    destruct (Hall b ltac:(left)) as (Hp & Hsmall & Hfuel & Hlive).
    rewrite schedule_group by assumption. cbn [mbind outcome_bind].
    rewrite IH.
    + rewrite bump_all_cons. cbn [mbind list_bind]. rewrite <- app_assoc. reflexivity.
    + intros b' Hb'. destruct (Hall b' ltac:(right; exact Hb')) as (? & ? & ? & ?).
      repeat split; try assumption. apply bump_live. assumption.
Qed.

Lemma bump_all_untouched per_thread pbs :
  forall groups gi,
    gi ∉ pbs.*2 ->
    bump_all per_thread pbs groups !! N.to_nat gi = groups !! N.to_nat gi.
Proof.
  induction pbs as [|b pbs IH]; intros groups gi Hnot; [reflexivity |].
  rewrite fmap_cons in Hnot. apply not_elem_of_cons in Hnot as [Hne Hnot].
  rewrite bump_all_cons, IH by exact Hnot. unfold bump.
  apply list_lookup_alter_ne. intros Heq. apply N2Nat.inj in Heq. congruence.
Qed.

Lemma bump_all_lookup per_thread pbs :
  forall groups (b : PartitionBlock) g,
    NoDup pbs.*2 ->
    b ∈ pbs ->
    groups !! N.to_nat b.2 = Some (Some g) ->
    bump_all per_thread pbs groups !! N.to_nat b.2
    = Some (Some (add_tasks_remaining (3 * task_count per_thread b) g)).
Proof.
  induction pbs as [|b0 pbs IH]; intros groups b g Hnodup Hin Hg.
  - apply elem_of_nil in Hin. contradiction.
  - rewrite fmap_cons in Hnodup. apply NoDup_cons in Hnodup as [Hfresh Hnodup].
    rewrite bump_all_cons. apply elem_of_cons in Hin as [-> | Hin].
    + rewrite bump_all_untouched by exact Hfresh.
      unfold bump. rewrite list_lookup_alter_eq, Hg. reflexivity.
    + apply IH; [exact Hnodup | exact Hin |].
      unfold bump. rewrite list_lookup_alter_ne; [exact Hg |].
      intros Heq. apply N2Nat.inj in Heq. apply Hfresh. rewrite Heq.
      apply list_elem_of_fmap. exists b. auto.
Qed.

(** ** Collecting and sorting the partition blocks *)

Lemma collect_partition_blocks_populated slots :
  forall group_idx,
    Forall populated slots ->
    group_idx + idx.size slots <= idx.modulus ->
    collect_partition_blocks group_idx slots = Ok (indexed_blocks group_idx slots).
Proof.
  induction slots as [|slot slots IH]; intros group_idx Hpop Hlen; [reflexivity |].
  apply Forall_cons in Hpop as [(g & rows & -> & Hrows) Hpop].
  unfold idx.size in Hlen. cbn [length] in Hlen.
  cbn [collect_partition_blocks indexed_blocks block_count_of deref mbind outcome_bind].
  rewrite Hrows. cbn [deref mbind outcome_bind].
  destruct slots as [|slot' slots'].
  - reflexivity.
  - rewrite incr_small by (cbn [length] in Hlen; lia).
    rewrite IH; [reflexivity | exact Hpop |].
    unfold idx.size. lia.
Qed.

Lemma collect_partition_blocks_faults slots :
  forall group_idx,
    ~ Forall populated slots ->
    collect_partition_blocks group_idx slots = Fault NullDereference.
Proof.
  induction slots as [|slot slots IH]; intros group_idx Hnot.
  - exfalso. apply Hnot. constructor.
  - cbn [collect_partition_blocks].
    destruct slot as [g|]; [| reflexivity]. cbn [deref mbind outcome_bind].
    destruct (WindowHashGroup.rows g) as [rows|] eqn:Hrows; [| reflexivity].
    cbn [deref mbind outcome_bind].
    rewrite IH; [reflexivity |].
    intros Hrest. apply Hnot. constructor; [| exact Hrest].
    exists g, rows. auto.
Qed.

Lemma elem_of_indexed_blocks slots :
  forall group_idx (b : PartitionBlock),
    b ∈ indexed_blocks group_idx slots <->
    exists k slot,
      slots !! k = Some slot /\ b = (block_count_of slot, group_idx + N.of_nat k).
Proof.
  induction slots as [|slot slots IH]; intros group_idx b; cbn [indexed_blocks].
  - split; [intros H; apply elem_of_nil in H; contradiction |].
    intros (k & slot & H & _). rewrite lookup_nil in H. discriminate.
  - rewrite elem_of_cons, IH. split.
    + intros [-> | (k & slot' & Hk & ->)].
      * exists 0%nat, slot. split; [reflexivity | f_equal; lia].
      * exists (S k), slot'. split; [exact Hk | f_equal; lia].
    + intros ([|k] & slot' & Hk & ->).
      * left. cbn in Hk. injection Hk as <-. f_equal. lia.
      * right. exists k, slot'. split; [exact Hk | f_equal; lia].
Qed.

Lemma indexed_blocks_NoDup slots :
  forall group_idx, NoDup (indexed_blocks group_idx slots).*2.
Proof.
  induction slots as [|slot slots IH]; intros group_idx; cbn [indexed_blocks].
  - constructor.
  - rewrite fmap_cons. constructor; [| apply IH].
    intros Hin. apply list_elem_of_fmap in Hin as (b & Hb & Hin).
    apply elem_of_indexed_blocks in Hin as (k & slot' & _ & ->).
    cbn in Hb. lia.
Qed.

Lemma indexed_blocks_length slots :
  forall group_idx, length (indexed_blocks group_idx slots) = length slots.
Proof.
  induction slots as [|slot slots IH]; intros group_idx; cbn; [| rewrite IH]; reflexivity.
Qed.

#[global] Instance greater_sorted_total : Total greater_sorted.
Proof.
  intros [a1 a2] [b1 b2]. unfold greater_sorted, PartitionBlock_greater. cbn. lia.
Qed.

#[global] Instance greater_sorted_trans : Transitive greater_sorted.
Proof.
  intros [a1 a2] [b1 b2] [c1 c2]. unfold greater_sorted, PartitionBlock_greater.
  cbn. lia.
Qed.

#[global] Instance greater_sorted_antisymm : AntiSymm (=) greater_sorted.
Proof.
  intros [a1 a2] [b1 b2]. unfold greater_sorted, PartitionBlock_greater. cbn.
  intros H1 H2. f_equal; lia.
Qed.

(** The range sorted by [std::greater] is unique: whatever algorithm
    [std::sort] runs, it returns what the merge sort returns. *)
Lemma std_sort_greater_unique (v sorted : list PartitionBlock) :
  sorted ≡ₚ v ->
  Sorted greater_sorted sorted ->
  sorted = std_sort_greater v.
Proof.
  intros Hperm Hsorted. apply (Sorted_unique greater_sorted); [exact Hsorted | |].
  - apply Sorted_merge_sort; apply _.
  - rewrite Hperm. symmetry. apply merge_sort_Permutation.
Qed.

Lemma std_sort_greater_descending (v : list PartitionBlock) :
  StronglySorted (fun a b : PartitionBlock => b.1 <= a.1) (std_sort_greater v).
Proof.
  pose proof (StronglySorted_merge_sort greater_sorted v) as H.
  unfold std_sort_greater.
  induction H as [|a l Hl IH Hall]; constructor; [exact IH |].
  eapply Forall_impl; [exact Hall |].
  intros [b1 b2]. destruct a as [a1 a2].
  unfold greater_sorted, PartitionBlock_greater. cbn. lia.
Qed.

Lemma std_sort_greater_front (v : list PartitionBlock) :
  v <> [] ->
  exists max_block,
    std_sort_greater v !! 0%nat = Some max_block /\
    max_block ∈ v /\
    forall b, b ∈ v -> b.1 <= max_block.1.
Proof.
  intros Hne.
  pose proof (std_sort_greater_descending v) as Hsorted.
  pose proof (merge_sort_Permutation greater_sorted v) as Hperm.
  fold (std_sort_greater v) in Hperm.
  destruct (std_sort_greater v) as [|m rest].
  - apply Permutation_nil_l in Hperm. congruence.
  - exists m. split; [reflexivity |]. split.
    + rewrite <- Hperm. left.
    + intros b Hb. rewrite <- Hperm in Hb.
      apply StronglySorted_inv in Hsorted as [_ Hall].
      apply elem_of_cons in Hb as [-> | Hb]; [lia |].
      rewrite Forall_forall in Hall. apply Hall. exact Hb.
Qed.

(** ** The [batch_base] loop *)

Lemma wrap_small a : a < idx.modulus -> idx.wrap a = a.
Proof. apply N.mod_small. Qed.

Lemma add_wrap_l a b : idx.add (idx.wrap a) b = idx.wrap (a + b).
Proof. unfold idx.add, idx.wrap. apply N.Div0.add_mod_idemp_l. Qed.

Lemma assign_batch_base_lookup slots :
  forall batch_base k,
    assign_batch_base (idx.wrap batch_base) slots !! k
    = rebase (idx.wrap (batch_base + total_blocks (take k slots))) <$> slots !! k.
Proof.
  induction slots as [|slot slots IH]; intros batch_base k; [reflexivity |].
  destruct slot as [g|].
  - cbn [assign_batch_base]. destruct (WindowHashGroup.rows g) as [rows|] eqn:Hrows.
    + destruct k as [|k].
      * cbn. rewrite Hrows, N.add_0_r. reflexivity.
      * cbn [lookup list_lookup take total_blocks block_count_of].
        rewrite add_wrap_l, IH, Hrows. do 3 f_equal. lia.
    + destruct k as [|k].
      * cbn. rewrite Hrows. reflexivity.
      * cbn [lookup list_lookup take total_blocks block_count_of].
        rewrite IH, Hrows. do 3 f_equal.
  - destruct k as [|k]; [reflexivity |].
    cbn [assign_batch_base lookup list_lookup take total_blocks block_count_of].
    rewrite IH. do 3 f_equal.
Qed.

Lemma block_count_of_rebase batch_base slot :
  block_count_of (rebase batch_base slot) = block_count_of slot.
Proof.
  destruct slot as [g|]; [| reflexivity]. cbn.
  destruct (WindowHashGroup.rows g) eqn:E; cbn; rewrite E; reflexivity.
Qed.

Lemma populated_rebase batch_base slot :
  populated (rebase batch_base slot) <-> populated slot.
Proof.
  unfold populated. destruct slot as [g|]; cbn.
  - destruct (WindowHashGroup.rows g) as [rows|] eqn:E.
    + split; intros _; eexists _, rows; (split; [reflexivity |]); [exact E | exact E].
    + reflexivity.
  - reflexivity.
Qed.

Lemma assign_batch_base_length slots :
  forall batch_base, length (assign_batch_base batch_base slots) = length slots.
Proof.
  induction slots as [|[g|] slots IH]; intros batch_base; cbn [assign_batch_base].
  - reflexivity.
  - destruct (WindowHashGroup.rows g); cbn [length]; rewrite IH; reflexivity.
  - cbn [length]. rewrite IH. reflexivity.
Qed.

(** ** Strides tile the blocks of a group *)

Lemma strides_tiling p hi :
  0 < p ->
  forall n lo,
    hi <= lo + N.of_nat n * p ->
    (n <> 0%nat -> lo + (N.of_nat n - 1) * p < hi) ->
    (n = 0%nat -> lo = hi) ->
    tiling p hi lo (strides n lo p hi).
Proof.
  intros Hp. induction n as [|n IH]; intros lo Hhi Hlo Hzero.
  - rewrite (Hzero eq_refl). constructor.
  - specialize (Hlo ltac:(lia)). cbn [strides].
    constructor; [nia |].
    destruct n as [|n].
    + cbn [strides]. replace (N.min (lo + p) hi) with hi by lia. constructor.
    + replace (N.min (lo + p) hi) with (lo + p) by nia.
      apply IH; [nia | intros _; nia | lia].
Qed.

Lemma tiling_covering p hi lo ranges :
  0 < p ->
  tiling p hi lo ranges ->
  lo <= hi /\
  forall x, covering x ranges = if decide (lo <= x /\ x < hi) then 1%nat else 0%nat.
Proof.
  intros Hp Htiling. induction Htiling as [|lo rest Hlt _ [Hle IH]].
  - split; [lia |]. intros x. cbn. case_decide; [lia | reflexivity].
  - split; [lia |]. intros x. specialize (IH x). unfold covering in *.
    rewrite filter_cons. cbn [fst snd].
    repeat case_decide; cbn [length]; rewrite IH; try reflexivity; lia.
Qed.

Lemma stride_tasks_tiling per_thread stage (b : PartitionBlock) :
  (b.1 <> 0 -> 0 < per_thread) ->
  let ranges :=
    (fun k => (Task.begin_idx k, Task.end_idx k)) <$> stride_tasks per_thread stage b in
  (0 < per_thread -> tiling per_thread b.1 0 ranges) /\
  (forall x, covering x ranges = if decide (x < b.1) then 1%nat else 0%nat) /\
  Forall (fun k => Task.stage k = stage /\ Task.group_idx k = b.2
                   /\ Task.max_idx k = b.1) (stride_tasks per_thread stage b) /\
  length (stride_tasks per_thread stage b) = N.to_nat (ceil_div b.1 per_thread).
Proof.
  intros Hp ranges.
  assert (ranges = strides (N.to_nat (ceil_div b.1 per_thread)) 0 per_thread b.1) as ->.
  { unfold ranges, stride_tasks. rewrite <- list_fmap_compose.
    rewrite <- (list_fmap_id (strides _ _ _ _)) at 2.
    apply list_fmap_ext. intros _ [lo hi] _. reflexivity. }
  assert (0 < per_thread ->
          tiling per_thread b.1 0
            (strides (N.to_nat (ceil_div b.1 per_thread)) 0 per_thread b.1)) as Htiling.
  { intros Hpos. destruct (ceil_div_bounds b.1 per_thread Hpos) as [Hlo Hhi].
    apply strides_tiling; [exact Hpos | | |].
    - rewrite N2Nat.id. lia.
    - intros Hn. rewrite N2Nat.id.
      assert (0 < ceil_div b.1 per_thread) by lia. nia.
    - intros Hn. assert (ceil_div b.1 per_thread = 0) by lia. nia. }
  split; [exact Htiling |]. split; [| split].
  - intros x. destruct (N.eq_dec b.1 0) as [Hz | Hnz].
    + rewrite Hz, ceil_div_0_l. cbn. case_decide; [lia | reflexivity].
    + destruct (tiling_covering _ _ _ _ (Hp Hnz) (Htiling (Hp Hnz))) as [_ Hcover].
      rewrite Hcover. repeat case_decide; try reflexivity; lia.
  - unfold stride_tasks. apply Forall_fmap, Forall_true. intros r. cbn. auto.
  - unfold stride_tasks. rewrite length_fmap.
    generalize (N.to_nat (ceil_div b.1 per_thread)) as n. generalize 0 as lo.
    intros lo n. revert lo. induction n as [|n IH]; intros lo; cbn; [| rewrite IH];
      reflexivity.
Qed.

(** ** The constructor of the global source state *)

Section Construction.

Variable AlignHeapBlocks :
  RowDataCollection.t -> RowDataCollection.t ->
  RowDataCollection.t -> RowDataCollection.t -> Aligned.t.

Lemma prepare_hash_groups_nonempty gsink :
  WindowPartitionGlobalSinkState.window_hash_groups gsink <> [] ->
  prepare_hash_groups AlignHeapBlocks gsink
  = Ok (WindowPartitionGlobalSinkState.set_window_hash_groups
          (assign_batch_base 0
             (WindowPartitionGlobalSinkState.window_hash_groups gsink))
          gsink).
Proof.
  intros Hne. unfold prepare_hash_groups.
  destruct (WindowPartitionGlobalSinkState.window_hash_groups gsink);
    [congruence | reflexivity].
Qed.

Lemma match_nonempty {A B} (l : list A) (x y : B) :
  l <> [] -> match l with [] => x | _ :: _ => y end = y.
Proof. destruct l; [congruence | reflexivity]. Qed.

Lemma construct_prepared fuel threads gsink gpart :
  prepare_hash_groups AlignHeapBlocks gsink = Ok gpart ->
  let groups := WindowPartitionGlobalSinkState.window_hash_groups gpart in
  let sorted := std_sort_greater (indexed_blocks 0 groups) in
  groups <> [] ->
  Forall populated groups ->
  idx.size groups <= idx.modulus ->
  0 < threads ->
  Forall (schedulable fuel threads) groups ->
  exists max_block,
    sorted !! 0%nat = Some max_block /\
    max_block ∈ indexed_blocks 0 groups /\
    (forall b, b ∈ indexed_blocks 0 groups -> b.1 <= max_block.1) /\
    let per_thread := ceil_div max_block.1 threads in
    WindowGlobalSourceState_ctor AlignHeapBlocks fuel threads gsink
    = Ok (WindowGlobalSourceState.mk
            (WindowPartitionGlobalSinkState.set_window_hash_groups
               (bump_all per_thread sorted groups) gpart)
            (sorted ≫= group_tasks per_thread) 0 false 0 []).
Proof.
  intros Hprep groups sorted Hne Hpop Hlen Hthreads Hsched.
  assert (indexed_blocks 0 groups <> []) as Hne'.
  { intros E. apply (f_equal length) in E.
    rewrite indexed_blocks_length in E. destruct groups; [congruence | discriminate]. }
  destruct (std_sort_greater_front _ Hne') as (max_block & Hfront & Hin & Hmax).
  exists max_block. split; [exact Hfront |]. split; [exact Hin |].
  split; [exact Hmax |]. intros per_thread.
  assert (exists slot, slot ∈ groups /\ max_block.1 = block_count_of slot)
    as (slot_max & Hslot_in & Hslot_max).
  { apply elem_of_indexed_blocks in Hin as (k & slot & Hk & ->).
    exists slot. split; [eapply list_elem_of_lookup_2; exact Hk | reflexivity]. }
  rewrite Forall_forall in Hsched.
  destruct (Hsched _ Hslot_in) as (HMT & HMM & _).
  rewrite <- Hslot_max in HMT, HMM.
  assert (per_thread <= max_block.1) as Hple by (apply ceil_div_le; exact Hthreads).
  unfold WindowGlobalSourceState_ctor. rewrite Hprep. cbn [mbind outcome_bind].
  fold groups. rewrite match_nonempty by exact Hne.
  rewrite collect_partition_blocks_populated by (try assumption; lia).
  cbn [mbind outcome_bind]. fold sorted.
  rewrite (at_index_lookup sorted 0 max_block Hfront). cbn [mbind outcome_bind].
  rewrite per_thread_of_ceil by assumption. cbn [mbind outcome_bind].
  fold per_thread.
  rewrite schedule_all; [reflexivity |].
  intros b Hb.
  assert (b ∈ indexed_blocks 0 groups) as Hb'.
  { unfold sorted, std_sort_greater in Hb.
    rewrite merge_sort_Permutation in Hb. exact Hb. }
  specialize (Hmax b Hb').
  apply elem_of_indexed_blocks in Hb' as (k & slot & Hk & ->).
  cbn [fst snd] in *.
  assert (slot ∈ groups) as Hslot by (eapply list_elem_of_lookup_2; exact Hk).
  destruct (Hsched _ Hslot) as (_ & _ & Hfuel).
  rewrite Forall_forall in Hpop. destruct (Hpop _ Hslot) as (g & rows & -> & Hrows).
  split; [| split; [| split]].
  - intros Hnz. apply ceil_div_pos; [exact Hthreads | lia].
  - lia.
  - unfold task_count. cbn [fst].
    destruct (N.eq_dec (block_count_of (Some g)) 0) as [Hz | Hnz].
    + rewrite Hz, ceil_div_0_l. lia.
    + assert (0 < per_thread) by (apply ceil_div_pos; [exact Hthreads | lia]).
      pose proof (ceil_div_le (block_count_of (Some g)) per_thread ltac:(assumption)).
      lia.
  - exists g. rewrite <- Hk. f_equal. lia.
Qed.

End Construction.

(** ** The task list *)

Section TaskList.

Variable AlignHeapBlocks :
  RowDataCollection.t -> RowDataCollection.t ->
  RowDataCollection.t -> RowDataCollection.t -> Aligned.t.

(** C3: the constructor sorts the groups by descending block count, cuts
    every group, in that order and stage by stage (SINK, FINALIZE, GETDATA),
    into tasks of stride [per_thread], the block count of the largest group
    divided by the number of threads and rounded up; the ranges of one stage
    of a group tile its blocks, each block lying in exactly one of them; and
    a group of [b] blocks ends up with [tasks_remaining] equal to three times
    [b / per_thread] rounded up. *)
Theorem task_list_construction (fuel : nat) (threads : idx_t)
    (gsink gpart : WindowPartitionGlobalSinkState.t) :
  prepare_hash_groups AlignHeapBlocks gsink = Ok gpart ->
  let groups := WindowPartitionGlobalSinkState.window_hash_groups gpart in
  groups <> [] ->
  Forall populated groups ->
  Forall (fun slot => forall g, slot = Some g -> WindowHashGroup.tasks_remaining g = 0)
    groups ->
  idx.size groups <= idx.modulus ->
  0 < threads ->
  Forall (schedulable fuel threads) groups ->
  exists source partition_blocks max_block,
    WindowGlobalSourceState_ctor AlignHeapBlocks fuel threads gsink = Ok source /\
    partition_blocks ≡ₚ indexed_blocks 0 groups /\
    StronglySorted (fun a b : PartitionBlock => b.1 <= a.1) partition_blocks /\
    partition_blocks !! 0%nat = Some max_block /\
    (forall b : PartitionBlock, b ∈ partition_blocks -> b.1 <= max_block.1) /\
    let per_thread := ceil_div max_block.1 threads in
    (max_block.1 <= per_thread * threads /\
     per_thread * threads < max_block.1 + threads) /\
    WindowGlobalSourceState.tasks source
      = partition_blocks ≫= group_tasks per_thread /\
    (forall (b : PartitionBlock) stage, b ∈ partition_blocks ->
       let ranges :=
         (fun k => (Task.begin_idx k, Task.end_idx k))
           <$> stride_tasks per_thread stage b in
       (0 < b.1 -> tiling per_thread b.1 0 ranges) /\
       (forall x, covering x ranges = if decide (x < b.1) then 1%nat else 0%nat)) /\
    (forall k g rows,
       groups !! k = Some (Some g) ->
       WindowHashGroup.rows g = Some rows ->
       let b := idx.size (RowDataCollection.blocks rows) in
       exists g',
         WindowPartitionGlobalSinkState.window_hash_groups
           (WindowGlobalSourceState.gsink source) !! k = Some (Some g') /\
         WindowHashGroup.tasks_remaining g' = 3 * ceil_div b per_thread /\
         g' = WindowHashGroup.set_tasks_remaining (3 * ceil_div b per_thread) g).
Proof.
  intros Hprep groups Hne Hpop Hfresh Hlen Hthreads Hsched.
  destruct (construct_prepared AlignHeapBlocks fuel threads gsink gpart
              Hprep Hne Hpop Hlen Hthreads Hsched)
    as (max_block & Hfront & Hin & Hmax & Hctor).
  fold groups in Hfront, Hin, Hmax, Hctor.
  set (sorted := std_sort_greater (indexed_blocks 0 groups)) in *.
  assert (sorted ≡ₚ indexed_blocks 0 groups) as Hperm
    by apply merge_sort_Permutation.
  eexists _, sorted, max_block.
  split; [exact Hctor |]. split; [exact Hperm |].
  split; [apply std_sort_greater_descending |]. split; [exact Hfront |].
  split; [intros b Hb; apply Hmax; rewrite <- Hperm; exact Hb |].
  intros per_thread.
  assert (forall b : PartitionBlock, b ∈ sorted -> b.1 <> 0 -> 0 < per_thread) as Hpos.
  { intros b Hb Hnz. rewrite Hperm in Hb. specialize (Hmax b Hb).
    apply ceil_div_pos; [exact Hthreads | lia]. }
  split; [apply ceil_div_bounds; exact Hthreads |].
  split; [reflexivity |]. split.
  - intros b stage Hb ranges.
    destruct (stride_tasks_tiling per_thread stage b (Hpos b Hb))
      as (Htile & Hcover & _).
    split; [| exact Hcover].
    intros Hb1. apply Htile. apply (Hpos b Hb). lia.
  - intros k g rows Hk Hrows b.
    cbn [WindowGlobalSourceState.gsink
         WindowPartitionGlobalSinkState.window_hash_groups
         WindowPartitionGlobalSinkState.set_window_hash_groups].
    assert ((b, N.of_nat k) ∈ sorted) as Hb.
    { rewrite Hperm. apply elem_of_indexed_blocks.
      exists k, (Some g). split; [exact Hk |].
      cbn [block_count_of]. rewrite Hrows. reflexivity. }
    assert (NoDup sorted.*2) as Hnodup.
    { rewrite Hperm. apply indexed_blocks_NoDup. }
    pose proof (bump_all_lookup per_thread sorted groups (b, N.of_nat k) g
                  Hnodup Hb) as Hlookup.
    cbn [fst snd] in Hlookup. rewrite Nat2N.id in Hlookup.
    specialize (Hlookup Hk).
    assert (Some g ∈ groups) as Hslot by (eapply list_elem_of_lookup_2; exact Hk).
    rewrite Forall_forall in Hfresh, Hsched.
    pose proof (Hfresh _ Hslot g eq_refl) as Hzero.
    destruct (Hsched _ Hslot) as (_ & Hsmall & _).
    cbn [block_count_of] in Hsmall. rewrite Hrows in Hsmall. fold b in Hsmall.
    assert (Nat.iter (3 * task_count per_thread (b, N.of_nat k)) idx.incr 0
            = 3 * ceil_div b per_thread) as Hiter.
    { unfold task_count. cbn [fst].
      assert (ceil_div b per_thread <= b) as Hle.
      { destruct (N.eq_dec b 0) as [-> | Hnz]; [rewrite ceil_div_0_l; lia |].
        apply ceil_div_le. apply (Hpos _ Hb). exact Hnz. }
      rewrite iter_incr_small by lia. lia. }
    eexists. split; [exact Hlookup |].
    unfold add_tasks_remaining. rewrite Hzero, Hiter. split; reflexivity.
Qed.

End TaskList.

(** ** Batch indices during GETDATA *)

Lemma block_range_cons lo n : block_range lo (S n) = lo :: block_range (lo + 1) n.
Proof.
  unfold block_range. cbn [seq fmap list_fmap]. f_equal; [lia |].
  rewrite <- fmap_S_seq, <- list_fmap_compose.
  apply list_fmap_ext. intros _ i _. cbn. lia.
Qed.









(** ** What the constructor leaves of the groups *)

Lemma emit_tasks_bases fuel :
  forall per_thread task tasks groups tasks' groups',
    emit_tasks fuel per_thread task (tasks, groups) = Ok (tasks', groups') ->
    bases groups' = bases groups.
Proof.
  induction fuel as [|fuel IH]; intros per_thread task tasks groups tasks' groups';
    cbn [emit_tasks]; destruct (_ <? _); try discriminate;
    try (intros [= _ <-]; reflexivity).
  cbn [fst snd].
  destruct (at_index groups _) as [slot|] eqn:Hslot; [| discriminate].
  cbn [mbind outcome_bind]. destruct slot as [g|]; [| discriminate].
  cbn [deref mbind outcome_bind]. intros Hrun. apply IH in Hrun. rewrite Hrun.
  unfold bases. rewrite list_fmap_insert. apply list_insert_id.
  unfold at_index in Hslot. cbn [Task.group_idx Task.set_end_idx] in *.
  destruct (groups !! _) as [slot|] eqn:Hlookup; [| discriminate].
  injection Hslot as ->. rewrite list_lookup_fmap, Hlookup. reflexivity.
Qed.

Lemma schedule_group_bases fuel per_thread (b : PartitionBlock) sts :
  forall tasks groups tasks' groups',
    for_each
      (fun st state => emit_tasks fuel per_thread (Task.ctor state b.2 b.1) st)
      sts (tasks, groups) = Ok (tasks', groups') ->
    bases groups' = bases groups.
Proof.
  induction sts as [|state sts IH]; intros tasks groups tasks' groups'; cbn [for_each].
  - intros [= _ <-]. reflexivity.
  - destruct (emit_tasks _ _ _ _) as [[tasks1 groups1]|] eqn:Hemit; [| discriminate].
    cbn [mbind outcome_bind]. intros Hrest.
    apply IH in Hrest. apply emit_tasks_bases in Hemit. congruence.
Qed.

Lemma schedule_all_bases fuel per_thread pbs :
  forall tasks groups tasks' groups',
    for_each
      (fun st (b : PartitionBlock) =>
         for_each
           (fun st state => emit_tasks fuel per_thread (Task.ctor state b.2 b.1) st)
           states st)
      pbs (tasks, groups) = Ok (tasks', groups') ->
    bases groups' = bases groups.
Proof.
  induction pbs as [|b pbs IH]; intros tasks groups tasks' groups'; cbn [for_each].
  - intros [= _ <-]. reflexivity.
  - destruct (for_each _ states _) as [[tasks1 groups1]|] eqn:Hgroup; [| discriminate].
    cbn [mbind outcome_bind]. intros Hrest.
    apply IH in Hrest. apply schedule_group_bases in Hgroup. congruence.
Qed.

Lemma assign_batch_base_Forall (P : option WindowHashGroup.t -> Prop) slots :
  (forall batch_base slot, P (rebase batch_base slot) <-> P slot) ->
  Forall P (assign_batch_base 0 slots) <-> Forall P slots.
Proof.
  intros HP. rewrite !Forall_lookup.
  change 0 with (idx.wrap 0) at 1.
  split; intros H k slot Hk.
  - specialize (H k (rebase (idx.wrap (0 + total_blocks (take k slots))) slot)).
    rewrite assign_batch_base_lookup, Hk in H. apply HP in H; [exact H | reflexivity].
  - rewrite assign_batch_base_lookup in Hk.
    destruct (slots !! k) as [slot0|] eqn:Hk0; [| discriminate].
    injection Hk as <-. apply HP. exact (H k slot0 Hk0).
Qed.

Lemma schedulable_rebase fuel threads batch_base slot :
  schedulable fuel threads (rebase batch_base slot) <-> schedulable fuel threads slot.
Proof. unfold schedulable. rewrite block_count_of_rebase. reflexivity. Qed.

Section ConstructionInversion.

Variable AlignHeapBlocks :
  RowDataCollection.t -> RowDataCollection.t ->
  RowDataCollection.t -> RowDataCollection.t -> Aligned.t.

Lemma construct_unpopulated fuel threads gsink :
  WindowPartitionGlobalSinkState.window_hash_groups gsink <> [] ->
  ~ Forall populated (WindowPartitionGlobalSinkState.window_hash_groups gsink) ->
  WindowGlobalSourceState_ctor AlignHeapBlocks fuel threads gsink
  = Fault NullDereference.
Proof.
  intros Hne Hnot. unfold WindowGlobalSourceState_ctor.
  rewrite prepare_hash_groups_nonempty by exact Hne.
  cbn [mbind outcome_bind WindowPartitionGlobalSinkState.window_hash_groups
       WindowPartitionGlobalSinkState.set_window_hash_groups].
  rewrite match_nonempty.
  - rewrite collect_partition_blocks_faults; [reflexivity |].
    rewrite (assign_batch_base_Forall populated); [exact Hnot |].
    intros; apply populated_rebase.
  - intros E. apply (f_equal length) in E.
    rewrite assign_batch_base_length in E.
    destruct (WindowPartitionGlobalSinkState.window_hash_groups gsink);
      [congruence | discriminate].
Qed.

Lemma construct_inversion fuel threads gsink source :
  WindowPartitionGlobalSinkState.window_hash_groups gsink <> [] ->
  WindowGlobalSourceState_ctor AlignHeapBlocks fuel threads gsink = Ok source ->
  Forall populated (WindowPartitionGlobalSinkState.window_hash_groups gsink) /\
  bases (WindowPartitionGlobalSinkState.window_hash_groups
           (WindowGlobalSourceState.gsink source))
  = bases (assign_batch_base 0
             (WindowPartitionGlobalSinkState.window_hash_groups gsink)).
Proof.
  intros Hne Hrun.
  destruct (decide (Forall populated
                      (WindowPartitionGlobalSinkState.window_hash_groups gsink)))
    as [Hpop | Hnot].
  2: { rewrite construct_unpopulated in Hrun by assumption. discriminate. }
  split; [exact Hpop |].
  unfold WindowGlobalSourceState_ctor in Hrun.
  rewrite prepare_hash_groups_nonempty in Hrun by exact Hne.
  cbn [mbind outcome_bind WindowPartitionGlobalSinkState.window_hash_groups
       WindowPartitionGlobalSinkState.set_window_hash_groups] in Hrun.
  rewrite match_nonempty in Hrun.
  2: { intros E. apply (f_equal length) in E.
       rewrite assign_batch_base_length in E.
       destruct (WindowPartitionGlobalSinkState.window_hash_groups gsink);
         [congruence | discriminate]. }
  destruct (collect_partition_blocks _ _) as [pbs|]; [| discriminate].
  cbn [mbind outcome_bind] in Hrun.
  destruct (at_index _ 0) as [max_block|]; [| discriminate].
  cbn [mbind outcome_bind] in Hrun.
  destruct (per_thread_of _ _) as [per_thread|]; [| discriminate].
  cbn [mbind outcome_bind] in Hrun.
  destruct (for_each _ _ _) as [[tasks groups]|] eqn:Hloop; [| discriminate].
  cbn [mbind outcome_bind] in Hrun. injection Hrun as <-.
  cbn [WindowGlobalSourceState.gsink
       WindowPartitionGlobalSinkState.window_hash_groups
       WindowPartitionGlobalSinkState.set_window_hash_groups].
  eapply schedule_all_bases. exact Hloop.
Qed.

End ConstructionInversion.

(** ** Safety of the construction *)

Lemma assign_batch_base_skips slots k slot :
  slots !! k = Some slot ->
  ~ populated slot ->
  assign_batch_base 0 slots !! k = Some slot.
Proof.
  intros Hk Hnot. change 0 with (idx.wrap 0) at 1.
  rewrite assign_batch_base_lookup, Hk. cbn [fmap option_fmap option_map].
  f_equal. destruct slot as [g|]; [| reflexivity]. cbn.
  destruct (WindowHashGroup.rows g) as [rows|] eqn:E; [| reflexivity].
  exfalso. apply Hnot. exists g, rows. auto.
Qed.

Section Safety.

Variable AlignHeapBlocks :
  RowDataCollection.t -> RowDataCollection.t ->
  RowDataCollection.t -> RowDataCollection.t -> Aligned.t.

(** C9: the [batch_base] loop steps over an empty slot and over a group
    without rows and leaves them as they are, whereas the loop that collects
    the partition blocks dereferences both: with any such slot the
    constructor ends in a null dereference, whatever the fuel and the thread
    count, so it completes only if every slot holds a group with rows, and
    then, sizes permitting, it does complete.  The slots [OnBeginMerge]
    makes are empty, so a source built right after it faults. *)
Theorem source_construction_needs_populated_groups
    (gsink : WindowPartitionGlobalSinkState.t) :
  let slots := WindowPartitionGlobalSinkState.window_hash_groups gsink in
  slots <> [] ->
  (length (assign_batch_base 0 slots) = length slots /\
   forall k slot, slots !! k = Some slot -> ~ populated slot ->
     assign_batch_base 0 slots !! k = Some slot) /\
  (~ Forall populated slots ->
   forall fuel threads,
     WindowGlobalSourceState_ctor AlignHeapBlocks fuel threads gsink
     = Fault NullDereference) /\
  (forall fuel threads source,
      WindowGlobalSourceState_ctor AlignHeapBlocks fuel threads gsink = Ok source ->
      Forall populated slots) /\
  (Forall populated slots ->
   forall fuel threads,
     idx.size slots <= idx.modulus ->
     0 < threads ->
     Forall (schedulable fuel threads) slots ->
     exists source,
       WindowGlobalSourceState_ctor AlignHeapBlocks fuel threads gsink = Ok source) /\
  (forall gpart fuel threads,
      WindowPartitionGlobalSinkState.window_hash_groups gpart = [] ->
      WindowPartitionGlobalSinkState.hash_groups gpart <> [] ->
      Forall (fun slot => slot = None)
        (WindowPartitionGlobalSinkState.window_hash_groups (OnBeginMerge gpart)) /\
      WindowGlobalSourceState_ctor AlignHeapBlocks fuel threads (OnBeginMerge gpart)
      = Fault NullDereference).
Proof.
  intros slots Hne. split; [| split; [| split; [| split]]].
  - split; [apply assign_batch_base_length |].
    intros k slot. apply assign_batch_base_skips.
  - intros Hnot fuel threads. apply construct_unpopulated; assumption.
  - intros fuel threads source Hrun.
    eapply construct_inversion; [exact Hne | exact Hrun].
  - intros Hpop fuel threads Hlen Hthreads Hsched.
    pose proof (prepare_hash_groups_nonempty AlignHeapBlocks gsink Hne) as Hprep.
    edestruct (construct_prepared AlignHeapBlocks fuel threads gsink _ Hprep)
      as (max_block & _ & _ & _ & Hrun); [| | | exact Hthreads | | eauto];
      cbn [WindowPartitionGlobalSinkState.window_hash_groups
           WindowPartitionGlobalSinkState.set_window_hash_groups].
    + intros E. apply (f_equal length) in E.
      rewrite assign_batch_base_length in E.
      fold slots in E. destruct slots; [congruence | discriminate].
    + apply (assign_batch_base_Forall populated); [| exact Hpop].
      intros; apply populated_rebase.
    + unfold idx.size. rewrite assign_batch_base_length. exact Hlen.
    + apply (assign_batch_base_Forall (schedulable fuel threads)); [| exact Hsched].
      intros; apply schedulable_rebase.
  - intros gpart fuel threads Hempty Hbins.
    assert (WindowPartitionGlobalSinkState.window_hash_groups (OnBeginMerge gpart)
            = replicate (length (WindowPartitionGlobalSinkState.hash_groups gpart)) None)
      as Hslots.
    { unfold OnBeginMerge, resize. cbn. rewrite Hempty.
      rewrite take_nil. cbn. rewrite Nat.sub_0_r. reflexivity. }
    rewrite Hslots. split.
    + apply Forall_replicate. reflexivity.
    + apply construct_unpopulated; rewrite Hslots;
        destruct (WindowPartitionGlobalSinkState.hash_groups gpart) as [|bin bins];
        try congruence; cbn [length replicate].
      * discriminate.
      * intros Hall. apply Forall_cons in Hall as [(g & rows & X & _) _].
        discriminate X.
Qed.

End Safety.

(** ** Batch bases and batch indices *)





Section BatchOrder.

Variable AlignHeapBlocks :
  RowDataCollection.t -> RowDataCollection.t ->
  RowDataCollection.t -> RowDataCollection.t -> Aligned.t.



End BatchOrder.

(** ** The construction at work *)

(** Two groups of two and five blocks on two threads: [per_thread] is 3, the
    larger group comes first with two tasks per stage, the smaller one follows
    with one task per stage. *)
Lemma task_list_construction_witness :
  exists source,
    WindowGlobalSourceState_ctor hand_over 5 2 two_groups = Ok source /\
    task_summary <$> WindowGlobalSourceState.tasks source
    = [(SINK, 1, (0, 3)); (SINK, 1, (3, 5));
       (FINALIZE, 1, (0, 3)); (FINALIZE, 1, (3, 5));
       (GETDATA, 1, (0, 3)); (GETDATA, 1, (3, 5));
       (SINK, 0, (0, 2)); (FINALIZE, 0, (0, 2)); (GETDATA, 0, (0, 2))] /\
    (fun slot : option WindowHashGroup.t => WindowHashGroup.tasks_remaining <$> slot)
      <$> WindowPartitionGlobalSinkState.window_hash_groups
            (WindowGlobalSourceState.gsink source)
    = [Some 3; Some 6].
Proof.
  destruct (task_list_construction hand_over 5 2 two_groups
              (WindowPartitionGlobalSinkState.set_window_hash_groups
                 (assign_batch_base 0
                    (WindowPartitionGlobalSinkState.window_hash_groups two_groups))
                 two_groups))
    as (source & partition_blocks & max_block & Hrun & _).
  - reflexivity.
  - discriminate.
  - repeat constructor; eexists _, _; split; reflexivity.
  - repeat constructor; intros g [= <-]; reflexivity.
  - vm_compute. discriminate.
  - reflexivity.
  - repeat constructor; vm_compute; try reflexivity; lia.
  - exists source. split; [exact Hrun |].
    vm_compute in Hrun. injection Hrun as <-. split; reflexivity.
Defined.

(** With the second bin never sorted the construction faults, although the
    [batch_base] loop stepped over the empty slot; with both bins sorted it
    succeeds. *)
Lemma source_construction_needs_populated_groups_witness :
  WindowGlobalSourceState_ctor hand_over 5 2 half_sorted = Fault NullDereference
  /\ assign_batch_base 0
       (WindowPartitionGlobalSinkState.window_hash_groups half_sorted) !! 1%nat
     = Some None
  /\ exists source, WindowGlobalSourceState_ctor hand_over 5 2 two_groups = Ok source.
Proof.
  split; [| split].
  - destruct (source_construction_needs_populated_groups hand_over half_sorted)
      as (_ & Hfault & _); [discriminate |].
    apply Hfault. intros Hall.
    apply Forall_cons in Hall as [_ Hall].
    apply Forall_cons in Hall as [(g & rows & X & _) _]. discriminate X.
  - destruct (source_construction_needs_populated_groups hand_over half_sorted)
      as ((_ & Hskip) & _); [discriminate |].
    apply Hskip; [reflexivity |]. intros (g & rows & X & _). discriminate X.
  - destruct (source_construction_needs_populated_groups hand_over two_groups)
      as (_ & _ & _ & Hsafe & _); [discriminate |].
    apply Hsafe.
    + repeat constructor; eexists _, _; split; reflexivity.
    + vm_compute. discriminate.
    + reflexivity.
    + repeat constructor; vm_compute; try reflexivity; lia.
Defined.


(** * Further properties *)

(** ** The queue of blocked callers *)

Lemma park_all_queue waiters :
  forall s,
    park_all waiters s
    = WindowGlobalSourceState.set_blocked_tasks
        (WindowGlobalSourceState.blocked_tasks s ++ waiters) s.
Proof.
  induction waiters as [|w waiters IH]; intros s.
  - rewrite app_nil_r. destruct s. reflexivity.
  - change (park_all (w :: waiters) s)
      with (park_all waiters (UpdateBlockedTasks true w s).2).
    rewrite IH. cbn. rewrite <- app_assoc. reflexivity.
Qed.

(** X1: callers parked through [UpdateBlockedTasks(true, _)] are woken by
    the next [UpdateBlockedTasks(false, _)] in the order in which they were
    parked, after those that were waiting already.  Parking and waking touch
    nothing but the queue, which is empty afterwards, so a second unblocking
    wakes nobody. *)
Theorem UpdateBlockedTasks_wakes_in_order (s : WindowGlobalSourceState.t)
    (waiters : list InterruptState.t) (w w' : InterruptState.t) :
  let flushed := WindowGlobalSourceState.set_blocked_tasks [] s in
  UpdateBlockedTasks false w (park_all waiters s)
  = (false, WindowGlobalSourceState.blocked_tasks s ++ waiters, flushed)
  /\ UpdateBlockedTasks false w' flushed = (false, [], flushed).
Proof.
  intros flushed. rewrite park_all_queue. split; reflexivity.
Qed.

(** ** Hash groups and their bins *)

Lemma accumulate_from bs :
  forall a,
    fold_left (fun c b => idx.add c (RowDataBlock.count b)) bs (idx.wrap a)
    = idx.wrap (a + total_rows bs).
Proof.
  induction bs as [|b bs IH]; intros a; cbn [fold_left total_rows foldr].
  - rewrite N.add_0_r. reflexivity.
  - rewrite add_wrap_l, IH. f_equal. unfold total_rows. lia.
Qed.

Lemma accumulate_counts_total bs : accumulate_counts bs = idx.wrap (total_rows bs).
Proof.
  unfold accumulate_counts. change 0 with (idx.wrap 0) at 1.
  rewrite accumulate_from. reflexivity.
Qed.

Section HashBins.

Variable AlignHeapBlocks :
  RowDataCollection.t -> RowDataCollection.t ->
  RowDataCollection.t -> RowDataCollection.t -> Aligned.t.

Lemma unpartitioned_flag gpart hash_bin :
  ~ is_unpartitioned gpart hash_bin ->
  bool_decide (is_Some (WindowPartitionGlobalSinkState.rows gpart))
  && (hash_bin =? 0) = false.
Proof.
  intros Hno. apply not_true_is_false. intros Hflag. apply Hno.
  apply andb_true_iff in Hflag as [H1 H2].
  apply bool_decide_eq_true in H1. apply N.eqb_eq in H2. split; assumption.
Qed.

Lemma WindowHashGroup_ctor_empty_bin gpart hash_bin :
  ~ is_unpartitioned gpart hash_bin ->
  mjoin (WindowPartitionGlobalSinkState.hash_groups gpart !! N.to_nat hash_bin) = None ->
  WindowHashGroup_ctor AlignHeapBlocks gpart hash_bin
  = Ok (WindowHashGroup.mk None 0 0 None None None hash_bin 0 0 0 0, gpart).
Proof.
  intros Hno Hbin. unfold WindowHashGroup_ctor.
  rewrite bin_in_range, Hbin, (unpartitioned_flag _ _ Hno). reflexivity.
Qed.

Lemma WindowHashGroup_ctor_hashed gpart hash_bin hg :
  ~ is_unpartitioned gpart hash_bin ->
  WindowPartitionGlobalSinkState.hash_groups gpart !! N.to_nat hash_bin = Some (Some hg) ->
  WindowHashGroup_ctor AlignHeapBlocks gpart hash_bin
  = (g ← MaterializeSortedData
           (WindowHashGroup.mk (Some hg) (PartitionGlobalHashGroup.count hg) 0
              None None
              (Some (GlobalSortState.external (PartitionGlobalHashGroup.global_sort hg)))
              hash_bin 0 0 0 0);
     Ok (WindowHashGroup.mk (WindowHashGroup.hash_group g) (WindowHashGroup.count g)
           (match WindowHashGroup.rows g with
            | Some rows => idx.size (RowDataCollection.blocks rows)
            | None => WindowHashGroup.blocks g
            end)
           (WindowHashGroup.rows g) (WindowHashGroup.heap g)
           (WindowHashGroup.external g) (WindowHashGroup.hash_bin g)
           (WindowHashGroup.sunk g) (WindowHashGroup.finalized g)
           (WindowHashGroup.tasks_remaining g) (WindowHashGroup.batch_base g),
         WindowPartitionGlobalSinkState.set_hash_groups
           (<[N.to_nat hash_bin := None]>
              (WindowPartitionGlobalSinkState.hash_groups gpart)) gpart)).
Proof.
  intros Hno Hbin. unfold WindowHashGroup_ctor.
  rewrite bin_in_range, Hbin, (unpartitioned_flag _ _ Hno).
  assert ((hash_bin <? idx.size (WindowPartitionGlobalSinkState.hash_groups gpart)) = true)
    as ->.
  { apply N.ltb_lt. apply lookup_lt_Some in Hbin. unfold idx.size. lia. }
  cbn [mjoin option_join deref mbind outcome_bind].
  destruct (MaterializeSortedData _); reflexivity.
Qed.

(** X2: building a group from a hash bin takes the bin's sorted data out of
    the partition and leaves the other bins alone; a second group built from
    the same bin is therefore empty: no rows, no blocks, a count of zero, and
    a stage of GETDATA from the start. *)
Theorem WindowHashGroup_ctor_consumes_bin
    (gpart gpart' : WindowPartitionGlobalSinkState.t) (hash_bin : idx_t)
    (hg : PartitionGlobalHashGroup.t) (g : WindowHashGroup.t) :
  ~ is_unpartitioned gpart hash_bin ->
  WindowPartitionGlobalSinkState.hash_groups gpart !! N.to_nat hash_bin = Some (Some hg) ->
  WindowHashGroup_ctor AlignHeapBlocks gpart hash_bin = Ok (g, gpart') ->
  WindowPartitionGlobalSinkState.hash_groups gpart' !! N.to_nat hash_bin = Some None /\
  (forall j, j <> N.to_nat hash_bin ->
     WindowPartitionGlobalSinkState.hash_groups gpart' !! j
     = WindowPartitionGlobalSinkState.hash_groups gpart !! j) /\
  exists g2,
    WindowHashGroup_ctor AlignHeapBlocks gpart' hash_bin = Ok (g2, gpart') /\
    WindowHashGroup.rows g2 = None /\
    WindowHashGroup.blocks g2 = 0 /\
    WindowHashGroup.count g2 = 0 /\
    WindowHashGroup.GetStage g2 = GETDATA.
Proof.
  intros Hno Hbin Hrun.
  rewrite (WindowHashGroup_ctor_hashed _ _ _ Hno Hbin) in Hrun.
  destruct (MaterializeSortedData _) as [g1|]; [| discriminate].
  cbn [mbind outcome_bind] in Hrun. injection Hrun as _ <-.
  cbn [WindowPartitionGlobalSinkState.hash_groups
       WindowPartitionGlobalSinkState.set_hash_groups].
  assert (WindowPartitionGlobalSinkState.hash_groups gpart !! N.to_nat hash_bin
          = Some (Some hg)) as Hlen by exact Hbin.
  apply lookup_lt_Some in Hlen.
  split; [apply list_lookup_insert_eq; exact Hlen |].
  split; [intros j Hj; apply list_lookup_insert_ne; congruence |].
  eexists. split.
  - apply WindowHashGroup_ctor_empty_bin.
    + intros [Hrows Hzero]. apply Hno. split; assumption.
    + cbn [WindowPartitionGlobalSinkState.hash_groups
           WindowPartitionGlobalSinkState.set_hash_groups].
      rewrite list_lookup_insert_eq by exact Hlen. reflexivity.
  - repeat split; reflexivity.
Qed.

(** X3: a group leaves its constructor with nothing sunk, nothing finalized,
    no task to wait for and a batch base of zero, and with [blocks] equal to
    the number of blocks of its rows.  Its stage is SINK only if it has rows
    to sink and blocks to scan: without blocks it is GETDATA at once, and
    with blocks but a count of zero it is FINALIZE. *)
Theorem WindowHashGroup_ctor_stage
    (gpart gpart' : WindowPartitionGlobalSinkState.t) (hash_bin : idx_t)
    (g : WindowHashGroup.t) :
  WindowHashGroup_ctor AlignHeapBlocks gpart hash_bin = Ok (g, gpart') ->
  WindowHashGroup.sunk g = 0 /\
  WindowHashGroup.finalized g = 0 /\
  WindowHashGroup.tasks_remaining g = 0 /\
  WindowHashGroup.batch_base g = 0 /\
  WindowHashGroup.hash_bin g = hash_bin /\
  (forall rows,
      WindowHashGroup.rows g = Some rows ->
      WindowHashGroup.blocks g = idx.size (RowDataCollection.blocks rows)) /\
  (WindowHashGroup.rows g = None -> WindowHashGroup.blocks g = 0) /\
  WindowHashGroup.GetStage g
  = (if WindowHashGroup.blocks g =? 0 then GETDATA
     else if WindowHashGroup.count g =? 0 then FINALIZE else SINK).
Proof.
  intros Hrun.
  destruct (WindowHashGroup_ctor_fresh AlignHeapBlocks _ _ _ _ Hrun)
    as (Htr & Hbb & Hs & Hf & Hblocks).
  assert (WindowHashGroup.hash_bin g = hash_bin
          /\ (WindowHashGroup.rows g = None -> WindowHashGroup.blocks g = 0))
    as [Hbin Hnone].
  { revert Hrun. unfold WindowHashGroup_ctor.
    set (bin := if _ <? _ then _ else None).
    set (unpartitioned := bool_decide _ && _).
    destruct (match bin with
              | Some hg => Some (PartitionGlobalHashGroup.count hg)
              | None =>
                  if unpartitioned
                  then Some (WindowPartitionGlobalSinkState.count gpart)
                  else None
              end) as [count|]; [| intros [= <- <-]; split; reflexivity].
    destruct unpartitioned.
    - destruct (WindowPartitionGlobalSinkState.rows gpart); [| discriminate].
      destruct (WindowPartitionGlobalSinkState.strings gpart); [| discriminate].
      cbn. intros [= <- <-]. split; [reflexivity | discriminate].
    - destruct (_ <? _).
      + destruct bin as [hg|]; [| discriminate].
        cbn [deref mbind outcome_bind].
        unfold MaterializeSortedData.
        cbn [deref mbind outcome_bind WindowHashGroup.hash_group].
        destruct (GlobalSortState.sorted_blocks _) as [|sd ?].
        * cbn. intros [= <- <-]. split; reflexivity.
        * destruct (at_index _ 0); [| discriminate]. cbn [mbind outcome_bind].
          destruct (SortedData.heap_blocks sd); cbn; intros [= <- <-];
            (split; [reflexivity | discriminate]).
      + cbn. intros [= <- <-]. split; reflexivity. }
  repeat split; try assumption.
  unfold WindowHashGroup.GetStage. rewrite Hs, Hf. cbv zeta.
  rewrite (N.eqb_sym 0 (WindowHashGroup.count g)).
  rewrite (N.eqb_sym 0 (WindowHashGroup.blocks g)).
  destruct (WindowHashGroup.blocks g =? 0), (WindowHashGroup.count g =? 0); reflexivity.
Qed.

(** X4: a group built from a sorted hash bin holds the data blocks of the
    bin's first sorted block, in their order; its [rows->count] is the sum of
    their row counts in [idx_t], its [blocks] their number and its [count]
    the bin's count.  The blocks are moved: the group keeps the sorter's
    hash group exactly when the sorted block has no heap blocks, the kept
    hash group has its count, its flag and its other sorted blocks but no
    data block left in the first one, and the heap is then an empty, pinned
    collection; with heap blocks the hash group is dropped and the heap
    holds them. *)
Theorem WindowHashGroup_ctor_sorted_rows
    (gpart gpart' : WindowPartitionGlobalSinkState.t) (hash_bin : idx_t)
    (hg : PartitionGlobalHashGroup.t) (sd : SortedData.t) (rest : list SortedData.t)
    (g : WindowHashGroup.t) :
  ~ is_unpartitioned gpart hash_bin ->
  WindowPartitionGlobalSinkState.hash_groups gpart !! N.to_nat hash_bin = Some (Some hg) ->
  GlobalSortState.sorted_blocks (PartitionGlobalHashGroup.global_sort hg) = sd :: rest ->
  WindowHashGroup_ctor AlignHeapBlocks gpart hash_bin = Ok (g, gpart') ->
  SortedData.data_blocks sd <> [] /\
  WindowHashGroup.rows g
  = Some (RowDataCollection.mk (SortedData.data_blocks sd)
            (idx.wrap (total_rows (SortedData.data_blocks sd))) false) /\
  WindowHashGroup.blocks g = idx.size (SortedData.data_blocks sd) /\
  WindowHashGroup.count g = PartitionGlobalHashGroup.count hg /\
  (SortedData.heap_blocks sd = [] ->
   WindowHashGroup.hash_group g
   = Some (PartitionGlobalHashGroup.mk (PartitionGlobalHashGroup.count hg)
             (GlobalSortState.mk (SortedData.mk [] [] :: rest)
                (GlobalSortState.external (PartitionGlobalHashGroup.global_sort hg)))) /\
   WindowHashGroup.heap g = Some (RowDataCollection.mk [] 0 true)) /\
  (SortedData.heap_blocks sd <> [] ->
   WindowHashGroup.hash_group g = None /\
   WindowHashGroup.heap g
   = Some (RowDataCollection.mk (SortedData.heap_blocks sd)
             (idx.wrap (total_rows (SortedData.heap_blocks sd))) false)).
Proof.
  intros Hno Hbin Hsorted Hrun.
  rewrite (WindowHashGroup_ctor_hashed _ _ _ Hno Hbin) in Hrun.
  unfold MaterializeSortedData in Hrun.
  cbn [WindowHashGroup.hash_group deref mbind outcome_bind] in Hrun.
  rewrite Hsorted in Hrun.
  destruct (SortedData.data_blocks sd) as [|b bs] eqn:Hdata; [discriminate |].
  split; [discriminate |].
  change (at_index (b :: bs) 0) with (Ok b) in Hrun.
  cbn [mbind outcome_bind] in Hrun.
  rewrite <- Hdata in *.
  rewrite !accumulate_counts_total in Hrun.
  destruct (SortedData.heap_blocks sd) as [|h hs] eqn:Hheap;
    cbn in Hrun; injection Hrun as <- _; cbn;
    (repeat split; try reflexivity; try congruence).
  do 2 f_equal.
  change (accumulate_counts (h :: hs) = idx.wrap (total_rows (h :: hs))).
  apply accumulate_counts_total.
Qed.

End HashBins.

(** The bin sorted out of core is taken once; the second group built from it
    is empty. *)
Lemma WindowHashGroup_ctor_consumes_bin_witness :
  WindowPartitionGlobalSinkState.hash_groups (hashed_partition None) !! N.to_nat 0
  = Some None /\
  (forall j, j <> N.to_nat 0 ->
     WindowPartitionGlobalSinkState.hash_groups (hashed_partition None) !! j
     = WindowPartitionGlobalSinkState.hash_groups
         (hashed_partition (Some spilled_bin)) !! j) /\
  exists g2,
    WindowHashGroup_ctor hand_over (hashed_partition None) 0
    = Ok (g2, hashed_partition None) /\
    WindowHashGroup.rows g2 = None /\
    WindowHashGroup.blocks g2 = 0 /\
    WindowHashGroup.count g2 = 0 /\
    WindowHashGroup.GetStage g2 = GETDATA.
Proof.
  apply (WindowHashGroup_ctor_consumes_bin hand_over
           (hashed_partition (Some spilled_bin)) (hashed_partition None) 0
           spilled_bin spilled_group).
  - intros [[rows Hrows] _]. discriminate Hrows.
  - reflexivity.
  - reflexivity.
Defined.

(** The group of a bin that was never sorted has five rows and no block: it
    is GETDATA from the start. *)
Lemma WindowHashGroup_ctor_stage_witness :
  WindowHashGroup.sunk unsunk_blockless_group = 0 /\
  WindowHashGroup.finalized unsunk_blockless_group = 0 /\
  WindowHashGroup.tasks_remaining unsunk_blockless_group = 0 /\
  WindowHashGroup.batch_base unsunk_blockless_group = 0 /\
  WindowHashGroup.hash_bin unsunk_blockless_group = 0 /\
  (forall rows,
      WindowHashGroup.rows unsunk_blockless_group = Some rows ->
      WindowHashGroup.blocks unsunk_blockless_group
      = idx.size (RowDataCollection.blocks rows)) /\
  (WindowHashGroup.rows unsunk_blockless_group = None ->
   WindowHashGroup.blocks unsunk_blockless_group = 0) /\
  WindowHashGroup.GetStage unsunk_blockless_group
  = (if WindowHashGroup.blocks unsunk_blockless_group =? 0 then GETDATA
     else if WindowHashGroup.count unsunk_blockless_group =? 0 then FINALIZE
          else SINK).
Proof.
  apply (WindowHashGroup_ctor_stage hand_over
           (hashed_partition (Some unsorted_bin)) (hashed_partition None) 0
           unsunk_blockless_group).
  reflexivity.
Defined.

(** The rows of the group built from the bin sorted out of core. *)
Lemma WindowHashGroup_ctor_sorted_rows_witness :
  WindowHashGroup.rows spilled_group = Some two_blocks /\
  WindowHashGroup.blocks spilled_group = 2 /\
  WindowHashGroup.count spilled_group = 5 /\
  WindowHashGroup.hash_group spilled_group
  = Some (PartitionGlobalHashGroup.mk 5
            (GlobalSortState.mk [SortedData.mk [] []] true)).
Proof.
  destruct (WindowHashGroup_ctor_sorted_rows hand_over
              (hashed_partition (Some spilled_bin)) (hashed_partition None) 0
              spilled_bin
              (SortedData.mk [RowDataBlock.mk 3; RowDataBlock.mk 2] []) []
              spilled_group)
    as (_ & Hrows & Hblocks & Hcount & Hkept & _).
  - intros [[rows Hrows] _]. discriminate Hrows.
  - reflexivity.
  - reflexivity.
  - reflexivity.
  - split; [exact Hrows |]. split; [exact Hblocks |]. split; [exact Hcount |].
    apply Hkept. reflexivity.
Defined.

(** ** Counting down the tasks of a group *)

Lemma decr_small r : 0 < r -> r < idx.modulus -> idx.decr r = r - 1.
Proof. intros Hr Hsmall. unfold idx.decr. apply sub_small; lia. Qed.

Lemma set_tasks_remaining_id g :
  WindowHashGroup.set_tasks_remaining (WindowHashGroup.tasks_remaining g) g = g.
Proof. destruct g. reflexivity. Qed.

Lemma set_window_hash_groups_id s :
  WindowGlobalSourceState.set_gsink
    (WindowPartitionGlobalSinkState.set_window_hash_groups
       (WindowPartitionGlobalSinkState.window_hash_groups (WindowGlobalSourceState.gsink s))
       (WindowGlobalSourceState.gsink s)) s
  = s.
Proof. destruct s as [[] ? ? ? ? ?]. reflexivity. Qed.

(** The state in which slot [gi] of the groups holds [slot]. *)
Lemma FinishTask_step s t k g :
  WindowGlobalSourceState.tasks s !! N.to_nat t = Some k ->
  WindowPartitionGlobalSinkState.window_hash_groups (WindowGlobalSourceState.gsink s)
    !! N.to_nat (Task.group_idx k) = Some (Some g) ->
  FinishTask (Some t) s
  = Ok (WindowGlobalSourceState.set_gsink
          (WindowPartitionGlobalSinkState.set_window_hash_groups
             (<[N.to_nat (Task.group_idx k) :=
                  if idx.decr (WindowHashGroup.tasks_remaining g) =? 0 then None
                  else Some (WindowHashGroup.set_tasks_remaining
                               (idx.decr (WindowHashGroup.tasks_remaining g)) g)]>
                (WindowPartitionGlobalSinkState.window_hash_groups
                   (WindowGlobalSourceState.gsink s)))
             (WindowGlobalSourceState.gsink s)) s).
Proof.
  intros Hk Hg. unfold FinishTask.
  rewrite (at_index_lookup _ _ _ Hk). cbn [mbind outcome_bind].
  rewrite (at_index_lookup _ _ _ Hg). reflexivity.
Qed.

Lemma FinishTask_released s t k :
  WindowGlobalSourceState.tasks s !! N.to_nat t = Some k ->
  WindowPartitionGlobalSinkState.window_hash_groups (WindowGlobalSourceState.gsink s)
    !! N.to_nat (Task.group_idx k) = Some None ->
  FinishTask (Some t) s = Fault NullDereference.
Proof.
  intros Hk Hg. unfold FinishTask.
  rewrite (at_index_lookup _ _ _ Hk). cbn [mbind outcome_bind].
  rewrite (at_index_lookup _ _ _ Hg). reflexivity.
Qed.

Lemma finish_each_counts ts :
  forall s gi g,
    Forall (fun t => exists k,
                WindowGlobalSourceState.tasks s !! N.to_nat t = Some k
                /\ Task.group_idx k = gi) ts ->
    WindowPartitionGlobalSinkState.window_hash_groups (WindowGlobalSourceState.gsink s)
      !! N.to_nat gi = Some (Some g) ->
    0 < WindowHashGroup.tasks_remaining g ->
    WindowHashGroup.tasks_remaining g < idx.modulus ->
    let r := WindowHashGroup.tasks_remaining g in
    let n := N.of_nat (length ts) in
    let after slot :=
      WindowGlobalSourceState.set_gsink
        (WindowPartitionGlobalSinkState.set_window_hash_groups
           (<[N.to_nat gi := slot]>
              (WindowPartitionGlobalSinkState.window_hash_groups
                 (WindowGlobalSourceState.gsink s)))
           (WindowGlobalSourceState.gsink s)) s in
    finish_each ts s
    = if n <? r then Ok (after (Some (WindowHashGroup.set_tasks_remaining (r - n) g)))
      else if n =? r then Ok (after None)
      else Fault NullDereference.
Proof.
  induction ts as [|t ts IH]; intros s gi g Hall Hg Hpos Hsmall r n after.
  - subst n. cbn [length]. change (N.of_nat 0) with 0.
    assert ((0 <? r) = true) as -> by (apply N.ltb_lt; exact Hpos).
    unfold after. rewrite N.sub_0_r. unfold r. rewrite set_tasks_remaining_id.
    rewrite list_insert_id by exact Hg. rewrite set_window_hash_groups_id. reflexivity.
  - apply Forall_cons in Hall as [(k & Hk & <-) Hall].
    unfold finish_each. cbn [for_each]. fold (finish_each ts).
    rewrite (FinishTask_step s t k g Hk Hg). cbn [mbind outcome_bind].
    rewrite decr_small by assumption. fold r.
    set (groups := WindowPartitionGlobalSinkState.window_hash_groups
                     (WindowGlobalSourceState.gsink s)) in *.
    assert (N.to_nat (Task.group_idx k) < length groups)%nat as Hlen
      by (eapply lookup_lt_Some; exact Hg).
    subst n. cbn [length]. rewrite Nat2N.inj_succ.
    destruct (N.eqb_spec (r - 1) 0) as [Hone | Hmore].
    + (* the group is released by this task *)
      assert (r = 1) as Hr by lia.
      destruct ts as [|t' ts'].
      * cbn. rewrite Hr. reflexivity.
      * apply Forall_cons in Hall as [(k' & Hk' & Hgi) _].
        cbn [finish_each for_each].
        rewrite (FinishTask_released _ t' k').
        -- cbn [mbind outcome_bind length]. rewrite Hr.
           destruct (N.ltb_spec (N.succ (N.of_nat (S (length ts')))) 1); [lia |].
           destruct (N.eqb_spec (N.succ (N.of_nat (S (length ts')))) 1); [lia |].
           reflexivity.
        -- exact Hk'.
        -- cbn. rewrite Hgi. apply list_lookup_insert_eq. exact Hlen.
    + (* one task fewer to wait for *)
      set (g1 := WindowHashGroup.set_tasks_remaining (r - 1) g).
      set (s1 := WindowGlobalSourceState.set_gsink _ s).
      specialize (IH s1 (Task.group_idx k) g1).
      cbv zeta in IH. rewrite IH.
      * change (WindowHashGroup.tasks_remaining g1) with (r - 1).
        unfold s1, after.
        cbn [WindowGlobalSourceState.gsink WindowGlobalSourceState.set_gsink
             WindowPartitionGlobalSinkState.window_hash_groups
             WindowPartitionGlobalSinkState.set_window_hash_groups].
        fold groups. rewrite !list_insert_insert_eq.
        destruct (N.ltb_spec (N.of_nat (length ts)) (r - 1)) as [Hlt | Hge].
        -- assert ((N.succ (N.of_nat (length ts)) <? r) = true) as ->
             by (apply N.ltb_lt; lia).
           replace (r - N.succ (N.of_nat (length ts)))
             with (r - 1 - N.of_nat (length ts)) by lia.
           reflexivity.
        -- assert ((N.succ (N.of_nat (length ts)) <? r) = false) as ->
             by (apply N.ltb_ge; lia).
           destruct (N.eqb_spec (N.of_nat (length ts)) (r - 1)) as [Heq | Hne].
           ++ assert ((N.succ (N.of_nat (length ts)) =? r) = true) as ->
                by (apply N.eqb_eq; lia).
              reflexivity.
           ++ assert ((N.succ (N.of_nat (length ts)) =? r) = false) as ->
                by (apply N.eqb_neq; lia).
              reflexivity.
      * exact Hall.
      * unfold s1. cbn. fold groups. apply list_lookup_insert_eq. exact Hlen.
      * cbn. lia.
      * cbn. lia.
Qed.

(** X5: finishing the tasks of a group counts [tasks_remaining] down one by
    one.  With [r] tasks to wait for, fewer than [r] finished tasks leave the
    group in place with the rest to wait for; the [r]-th releases it; and
    finishing one more task of a released group dereferences the empty slot. *)
Theorem FinishTask_counts_down (s : WindowGlobalSourceState.t) (ts : list idx_t)
    (gi : idx_t) (g : WindowHashGroup.t) :
  Forall (fun t => exists k,
              WindowGlobalSourceState.tasks s !! N.to_nat t = Some k
              /\ Task.group_idx k = gi) ts ->
  WindowPartitionGlobalSinkState.window_hash_groups (WindowGlobalSourceState.gsink s)
    !! N.to_nat gi = Some (Some g) ->
  0 < WindowHashGroup.tasks_remaining g ->
  WindowHashGroup.tasks_remaining g < idx.modulus ->
  let r := WindowHashGroup.tasks_remaining g in
  let n := N.of_nat (length ts) in
  let slot_of s' :=
    WindowPartitionGlobalSinkState.window_hash_groups (WindowGlobalSourceState.gsink s')
      !! N.to_nat gi in
  (n < r ->
   exists s', finish_each ts s = Ok s' /\
     slot_of s' = Some (Some (WindowHashGroup.set_tasks_remaining (r - n) g))) /\
  (n = r -> exists s', finish_each ts s = Ok s' /\ slot_of s' = Some None) /\
  (r < n -> finish_each ts s = Fault NullDereference).
Proof.
  intros Hall Hg Hpos Hsmall r n slot_of.
  pose proof (finish_each_counts ts s gi g Hall Hg Hpos Hsmall) as Hrun.
  cbv zeta in Hrun. fold r n in Hrun.
  assert (N.to_nat gi
          < length (WindowPartitionGlobalSinkState.window_hash_groups
                      (WindowGlobalSourceState.gsink s)))%nat as Hlen
    by (eapply lookup_lt_Some; exact Hg).
  split; [| split].
  - intros Hlt. apply N.ltb_lt in Hlt. rewrite Hlt in Hrun.
    eexists. split; [exact Hrun |]. unfold slot_of. cbn.
    apply list_lookup_insert_eq. exact Hlen.
  - intros Heq.
    assert ((n <? r) = false) as Hlt by (apply N.ltb_ge; lia).
    apply N.eqb_eq in Heq. rewrite Hlt, Heq in Hrun.
    eexists. split; [exact Hrun |]. unfold slot_of. cbn.
    apply list_lookup_insert_eq. exact Hlen.
  - intros Hgt.
    assert ((n <? r) = false) as Hlt by (apply N.ltb_ge; lia).
    assert ((n =? r) = false) as Hne by (apply N.eqb_neq; lia).
    rewrite Hlt, Hne in Hrun. exact Hrun.
Qed.

(** Of the six tasks of a fresh two-block group, three are finished: three
    are left to wait for. *)
Lemma FinishTask_counts_down_witness :
  exists s',
    finish_each [0; 1; 2] (source_at 3 fresh_group) = Ok s' /\
    WindowPartitionGlobalSinkState.window_hash_groups (WindowGlobalSourceState.gsink s')
      !! N.to_nat 0
    = Some (Some (WindowHashGroup.set_tasks_remaining 3 fresh_group)).
Proof.
  destruct (FinishTask_counts_down (source_at 3 fresh_group) [0; 1; 2] 0 fresh_group)
    as (Hfewer & _ & _).
  - repeat constructor; eexists; (split; [reflexivity | reflexivity]).
  - reflexivity.
  - cbn. lia.
  - reflexivity.
  - apply Hfewer. cbn. lia.
Defined.

(** ** The operator's constructor *)

Lemma scan_select_list_order_dependent v :
  forall i order_idx dep max_orders,
    (PhysicalWindow.scan_select_list i v (order_idx, dep, max_orders)).1.2 = true
    <-> dep = true \/ exists w, w ∈ v /\ unordered w.
Proof.
  induction v as [|bw v IH]; intros i oi dep m.
  - cbn. split; [auto |]. intros [H | (w & Hw & _)]; [exact H |].
    apply elem_of_nil in Hw. contradiction.
  - cbn [PhysicalWindow.scan_select_list].
    destruct (m <? idx.size (BoundWindowExpression.orders bw)); rewrite IH;
      unfold unordered;
      (split; intros [Hdep | (w & Hw & Hun)];
       [ destruct (BoundWindowExpression.partitions bw) eqn:Ep,
                  (BoundWindowExpression.orders bw) eqn:Eo; cbn in Hdep;
         try (left; exact Hdep);
         right; exists bw; rewrite Ep, Eo; split; [left | split; reflexivity]
       | right; exists w; split; [right; exact Hw | exact Hun]
       | left; rewrite Hdep; repeat case_match; reflexivity
       | apply elem_of_cons in Hw as [-> | Hw];
         [ left; destruct Hun as [-> ->]; reflexivity
         | right; exists w; split; assumption ] ]).
Qed.

(** X6: the operator keeps the select list it was given, and it is marked
    order dependent exactly when one of its window descriptors has neither a
    partition key nor an order key, wherever in the list it stands and
    whichever descriptor is the canonical one.  Built from an empty list, the
    operator has no descriptor to consult: [SupportsBatchIndex] and
    [SourceOrder] index out of range. *)
Theorem PhysicalWindow_ctor_order_dependent
    (select_list : list BoundWindowExpression.t) :
  let op := PhysicalWindow.ctor select_list in
  PhysicalWindow.select_list op = select_list /\
  (PhysicalWindow.is_order_dependent op = true
   <-> exists w, w ∈ select_list /\ unordered w) /\
  (select_list = [] ->
   PhysicalWindow.order_idx op = 0 /\
   PhysicalWindow.is_order_dependent op = false /\
   PhysicalWindow.SupportsBatchIndex op = Fault OutOfRange /\
   PhysicalWindow.SourceOrder op = Fault OutOfRange).
Proof.
  intros op. subst op. unfold PhysicalWindow.ctor.
  pose proof (scan_select_list_order_dependent select_list 0 0 false 0) as Hdep.
  destruct (PhysicalWindow.scan_select_list 0 select_list (0, false, 0))
    as [[oi dep] m] eqn:Hrun.
  cbn [fst snd] in Hdep.
  cbn [PhysicalWindow.select_list PhysicalWindow.is_order_dependent
       PhysicalWindow.order_idx].
  split; [reflexivity |]. split.
  - rewrite Hdep. split; [intros [X | X]; [discriminate X | exact X] | auto].
  - intros ->. cbn in Hrun. injection Hrun as <- <- <-.
    repeat split; reflexivity.
Qed.

(** ** The executor states of a group *)

Lemma Initialize_append {Executor State : Type} (GetGlobalState : Executor -> State)
    (executors : list Executor) :
  forall gestates,
    foldl (fun gestates wexec => gestates ++ [GetGlobalState wexec]) gestates executors
    = gestates ++ (GetGlobalState <$> executors).
Proof.
  induction executors as [|wexec executors IH]; intros gestates; cbn.
  - rewrite app_nil_r. reflexivity.
  - rewrite IH, <- app_assoc. reflexivity.
Qed.

(** X7: the executor states of a group are built by the first call of
    [Initialize], one per executor and in the order of the executors; every
    later call returns them as they are.  The test that guards the building
    compares the sizes only: on a list of any other length, all the states
    are built and appended again. *)
Theorem Initialize_builds_once {Executor State : Type}
    (GetGlobalState : Executor -> State) (executors : list Executor) :
  (forall n,
      Nat.iter (S n) (Initialize GetGlobalState executors) []
      = GetGlobalState <$> executors) /\
  (forall gestates,
      length gestates = length executors ->
      Initialize GetGlobalState executors gestates = gestates) /\
  (forall gestates,
      length gestates <> length executors ->
      Initialize GetGlobalState executors gestates
      = gestates ++ (GetGlobalState <$> executors)).
Proof.
  assert (forall gestates,
             length gestates = length executors ->
             Initialize GetGlobalState executors gestates = gestates) as Hsame.
  { intros gestates Hlen. unfold Initialize, idx.size.
    rewrite Hlen, N.eqb_refl. reflexivity. }
  assert (Initialize GetGlobalState executors [] = GetGlobalState <$> executors)
    as Hfirst.
  { unfold Initialize.
    destruct (N.eqb_spec (idx.size (@nil State)) (idx.size executors)) as [Heq | Hne].
    - destruct executors; [reflexivity | discriminate Heq].
    - rewrite Initialize_append. reflexivity. }
  split; [| split].
  - induction n as [|n IH].
    + exact Hfirst.
    + change (Nat.iter (S (S n)) (Initialize GetGlobalState executors) [])
        with (Initialize GetGlobalState executors
                (Nat.iter (S n) (Initialize GetGlobalState executors) [])).
      rewrite IH. apply Hsame. apply length_fmap.
  - exact Hsame.
  - intros gestates Hlen. unfold Initialize.
    destruct (N.eqb_spec (idx.size gestates) (idx.size executors)) as [Heq | Hne].
    + unfold idx.size in Heq. lia.
    + apply Initialize_append.
Qed.

(** The states of three executors, asked for twice. *)
Lemma Initialize_builds_once_witness :
  Initialize N.succ [1; 2; 3] (Initialize N.succ [1; 2; 3] []) = [2; 3; 4].
Proof.
  destruct (Initialize_builds_once N.succ [1; 2; 3]) as (Honce & _ & _).
  exact (Honce 1%nat).
Defined.

(** ** The source operator when the worker returns *)

Section SourceReturns.

Context {E : Type}.
Variable lsource_GetData : source_state -> completion E source_state (bool * idx_t).
Variable YieldThread : WindowGlobalSourceState.t -> WindowGlobalSourceState.t.

Lemma yield_until_data_returns st st1 size st' :
  retries lsource_GetData YieldThread st st1 ->
  lsource_GetData st1 = Returns (true, size) st' ->
  exists fuel, forall fuel', (fuel <= fuel')%nat ->
    yield_until_data lsource_GetData YieldThread fuel' st = Ok (Returns size st').
Proof.
  intros Hretry Hdata.
  induction Hretry as [st | st size0 gsource lsource st1 Hstep _ IH].
  - exists 1%nat. intros [|fuel'] Hle; [lia |]. cbn. rewrite Hdata. reflexivity.
  - destruct (IH Hdata) as [fuel Hfuel]. exists (S fuel).
    intros [|fuel'] Hle; [lia |]. cbn. rewrite Hstep. apply Hfuel. lia.
Qed.

Lemma yield_until_data_returned fuel :
  forall st size st',
    yield_until_data lsource_GetData YieldThread fuel st = Ok (Returns size st') ->
    exists st1,
      retries lsource_GetData YieldThread st st1 /\
      lsource_GetData st1 = Returns (true, size) st'.
Proof.
  induction fuel as [|fuel IH]; intros st size st' Hrun; [discriminate |].
  cbn in Hrun.
  destruct (lsource_GetData st) as [[[] size1] [gsource lsource] | e1 st1] eqn:Hstep.
  - injection Hrun as <- <-. exists st. split; [constructor | exact Hstep].
  - destruct (IH _ _ _ Hrun) as (st1 & Hretry & Hdata).
    exists st1. split; [| exact Hdata].
    eapply retries_yield; [exact Hstep | exact Hretry].
  - discriminate.
Qed.

Lemma yield_until_data_spins fuel :
  forall st,
    (forall st', retries lsource_GetData YieldThread st st' ->
       exists size st'', lsource_GetData st' = Returns (false, size) st'') ->
    yield_until_data lsource_GetData YieldThread fuel st = Fault OutOfFuel.
Proof.
  induction fuel as [|fuel IH]; intros st Hblocked; [reflexivity |].
  cbn. destruct (Hblocked st (retries_here _ _ st)) as (size & [gsource lsource] & Hstep).
  rewrite Hstep. apply IH. intros st' Hretry.
  apply Hblocked. eapply retries_yield; [exact Hstep | exact Hretry].
Qed.

(** X8: when the worker's [GetData] produces a chunk, after any number of
    fruitless calls with a yield after each, the operator as compiled adds
    the size of the chunk to [returned] (modulo [2^64]) and answers FINISHED
    for an empty chunk and HAVE_MORE_OUTPUT for any other; it touches neither
    [stopped] nor the queue of blocked callers.  Every normal return arises
    in this way, so the answer is never BLOCKED; and as long as the worker
    keeps answering that it has nothing, the call does not return at all. *)
Theorem GetData_on_return (st st1 : source_state) (size : idx_t)
    (gsource : WindowGlobalSourceState.t) (lsource : WindowLocalSourceState.t) :
  retries lsource_GetData YieldThread st st1 ->
  lsource_GetData st1 = Returns (true, size) (gsource, lsource) ->
  let counted := add_returned size gsource in
  (exists fuel, forall fuel', (fuel <= fuel')%nat ->
      GetData lsource_GetData YieldThread fuel' st
      = Ok (Returns (result_of_chunk size) (counted, lsource))) /\
  (result_of_chunk size = FINISHED <-> size = 0) /\
  (result_of_chunk size = HAVE_MORE_OUTPUT <-> size <> 0) /\
  WindowGlobalSourceState.returned counted
    = idx.wrap (WindowGlobalSourceState.returned gsource + size) /\
  WindowGlobalSourceState.stopped counted = WindowGlobalSourceState.stopped gsource /\
  WindowGlobalSourceState.blocked_tasks counted
    = WindowGlobalSourceState.blocked_tasks gsource /\
  (forall fuel r gsource' lsource',
      GetData lsource_GetData YieldThread fuel st = Ok (Returns r (gsource', lsource')) ->
      r <> BLOCKED /\
      exists st2 size2 gsource2,
        retries lsource_GetData YieldThread st st2 /\
        lsource_GetData st2 = Returns (true, size2) (gsource2, lsource') /\
        gsource' = add_returned size2 gsource2 /\
        r = result_of_chunk size2) /\
  (forall st0,
      (forall st', retries lsource_GetData YieldThread st0 st' ->
         exists size' st'', lsource_GetData st' = Returns (false, size') st'') ->
      forall fuel, GetData lsource_GetData YieldThread fuel st0 = Fault OutOfFuel).
Proof.
  intros Hretry Hdata counted.
  split; [| split; [| split; [| split; [| split; [| split; [| split]]]]]].
  - destruct (yield_until_data_returns _ _ _ _ Hretry Hdata) as [fuel Hfuel].
    exists fuel. intros fuel' Hle. unfold GetData.
    rewrite (Hfuel fuel' Hle). reflexivity.
  - unfold result_of_chunk. destruct (N.eqb_spec size 0); split; congruence.
  - unfold result_of_chunk. destruct (N.eqb_spec size 0); split; congruence.
  - reflexivity.
  - reflexivity.
  - reflexivity.
  - intros fuel r gsource' lsource'. unfold GetData.
    destruct (yield_until_data _ _ fuel st) as [[size2 [g2 l2] | e2 [g2 l2]] |] eqn:Hrun;
      cbn [mbind outcome_bind]; [| discriminate | discriminate].
    intros [= <- <- <-]. split.
    + unfold result_of_chunk. destruct (size2 =? 0); discriminate.
    + destruct (yield_until_data_returned _ _ _ _ Hrun) as (st2 & Hr2 & Hd2).
      exists st2, size2, g2. auto.
  - intros st0 Hblocked fuel. unfold GetData.
    rewrite (yield_until_data_spins fuel st0 Hblocked). reflexivity.
Qed.

End SourceReturns.

(** A worker that has to wait for the other thread once: the second call
    produces three rows, which are counted. *)
Lemma GetData_on_return_witness :
  exists fuel,
    GetData waiting_worker other_thread fuel (source_at 0 fresh_group, idle_thread)
    = Ok (Returns HAVE_MORE_OUTPUT
            (add_returned 3 (other_thread (source_at 0 fresh_group)), idle_thread)).
Proof.
  destruct (GetData_on_return waiting_worker other_thread
              (source_at 0 fresh_group, idle_thread)
              (other_thread (source_at 0 fresh_group), idle_thread) 3
              (other_thread (source_at 0 fresh_group)) idle_thread)
    as ((fuel & Hfuel) & _).
  - eapply retries_yield; [reflexivity | constructor].
  - reflexivity.
  - exists fuel. apply Hfuel. lia.
Defined.

(** ** The size of the task list *)

Lemma max_blocks_upper slots slot :
  slot ∈ slots -> block_count_of slot <= max_blocks slots.
Proof.
  induction slots as [|s0 slots IH]; intros Hin.
  - apply elem_of_nil in Hin. contradiction.
  - cbn [max_blocks foldr]. fold (max_blocks slots).
    apply elem_of_cons in Hin as [-> | Hin]; [lia |].
    specialize (IH Hin). lia.
Qed.

Lemma max_blocks_attained slots :
  slots <> [] -> exists slot, slot ∈ slots /\ block_count_of slot = max_blocks slots.
Proof.
  induction slots as [|s0 slots IH]; intros Hne; [congruence |].
  cbn [max_blocks foldr]. fold (max_blocks slots).
  destruct slots as [|s1 slots].
  - exists s0. split; [left |]. cbn. lia.
  - destruct IH as (slot & Hin & Hmax); [discriminate |].
    destruct (N.max_spec (block_count_of s0) (max_blocks (s1 :: slots)))
      as [[_ ->] | [_ ->]].
    + exists slot. split; [right; exact Hin | exact Hmax].
    + exists s0. split; [left | reflexivity].
Qed.

Lemma max_blocks_front slots (max_block : PartitionBlock) :
  max_block ∈ indexed_blocks 0 slots ->
  (forall b : PartitionBlock, b ∈ indexed_blocks 0 slots -> b.1 <= max_block.1) ->
  max_block.1 = max_blocks slots.
Proof.
  intros Hin Hmax.
  apply elem_of_indexed_blocks in Hin as (k & slot & Hk & ->). cbn [fst] in *.
  apply N.le_antisymm.
  - apply max_blocks_upper. eapply list_elem_of_lookup_2. exact Hk.
  - destruct (max_blocks_attained slots) as (slot' & Hin' & <-).
    { intros ->. rewrite lookup_nil in Hk. discriminate. }
    apply list_elem_of_lookup_1 in Hin' as [k' Hk'].
    apply (Hmax (block_count_of slot', 0 + N.of_nat k')).
    apply elem_of_indexed_blocks. eauto.
Qed.

Lemma length_strides n :
  forall lo p hi, length (strides n lo p hi) = n.
Proof.
  induction n as [|n IH]; intros lo p hi; cbn; [| rewrite IH]; reflexivity.
Qed.

Lemma length_group_tasks per_thread (b : PartitionBlock) :
  length (group_tasks per_thread b) = (3 * task_count per_thread b)%nat.
Proof.
  unfold group_tasks, stride_tasks, task_count.
  rewrite !length_app, !length_fmap, !length_strides. lia.
Qed.

Lemma length_schedule per_thread (pbs : list PartitionBlock) :
  N.of_nat (length (pbs ≫= group_tasks per_thread))
  = 3 * foldr (fun (b : PartitionBlock) n => ceil_div b.1 per_thread + n) 0 pbs.
Proof.
  induction pbs as [|b pbs IH]; [reflexivity |].
  rewrite bind_cons, length_app, length_group_tasks. cbn [foldr].
  rewrite Nat2N.inj_add, IH. unfold task_count. lia.
Qed.

Lemma schedule_size_Permutation per_thread (pbs pbs' : list PartitionBlock) :
  pbs ≡ₚ pbs' ->
  foldr (fun (b : PartitionBlock) n => ceil_div b.1 per_thread + n) 0 pbs
  = foldr (fun (b : PartitionBlock) n => ceil_div b.1 per_thread + n) 0 pbs'.
Proof.
  intros Hperm. induction Hperm as [|b l l' _ IH|b b' l|l l' l'' _ IH1 _ IH2]; cbn.
  - reflexivity.
  - rewrite IH. reflexivity.
  - lia.
  - congruence.
Qed.

Lemma stage_tasks_indexed per_thread slots :
  forall group_idx,
    foldr (fun (b : PartitionBlock) n => ceil_div b.1 per_thread + n) 0
      (indexed_blocks group_idx slots)
    = stage_tasks per_thread slots.
Proof.
  induction slots as [|slot slots IH]; intros group_idx; [reflexivity |].
  cbn [indexed_blocks foldr stage_tasks fst]. fold (stage_tasks per_thread slots).
  rewrite IH. reflexivity.
Qed.

Lemma ceil_div_threads b m threads :
  0 < threads -> b <= m -> ceil_div b (ceil_div m threads) <= threads.
Proof.
  intros Hthreads Hle.
  destruct (N.eq_dec b 0) as [-> | Hb]; [rewrite ceil_div_0_l; lia |].
  assert (0 < ceil_div m threads) as Hp by (apply ceil_div_pos; lia).
  destruct (ceil_div_bounds m threads Hthreads) as [Hm _].
  destruct (ceil_div_bounds b (ceil_div m threads) Hp) as [_ Hq].
  set (p := ceil_div m threads) in *. set (q := ceil_div b p) in *.
  clearbody p q. nia.
Qed.

Lemma ceil_div_1 b : ceil_div b 1 = b.
Proof.
  unfold ceil_div. rewrite N.div_1_r. lia.
Qed.

Lemma stage_tasks_bounds threads slots :
  0 < threads ->
  let per_thread := ceil_div (max_blocks slots) threads in
  stage_tasks per_thread slots <= threads * idx.size slots /\
  stage_tasks per_thread slots <= total_blocks slots /\
  (max_blocks slots <= threads -> stage_tasks per_thread slots = total_blocks slots).
Proof.
  intros Hthreads per_thread.
  assert (forall part,
             (forall slot, slot ∈ part -> block_count_of slot <= max_blocks slots) ->
             stage_tasks per_thread part <= threads * idx.size part /\
             stage_tasks per_thread part <= total_blocks part /\
             (max_blocks slots <= threads ->
              stage_tasks per_thread part = total_blocks part)) as Hpart.
  { induction part as [|slot part IH]; intros Hle.
    - cbn. unfold idx.size. cbn. lia.
    - destruct IH as (IH1 & IH2 & IH3).
      { intros slot' Hin. apply Hle. right. exact Hin. }
      specialize (Hle slot ltac:(left)).
      cbn [stage_tasks foldr total_blocks]. fold (stage_tasks per_thread part).
      pose proof (ceil_div_threads _ _ _ Hthreads Hle) as Hq. fold per_thread in Hq.
      assert (ceil_div (block_count_of slot) per_thread <= block_count_of slot) as Hb.
      { destruct (N.eq_dec (block_count_of slot) 0) as [-> | Hnz];
          [rewrite ceil_div_0_l; lia |].
        apply ceil_div_le. apply ceil_div_pos; lia. }
      unfold idx.size in *. cbn [length]. rewrite Nat2N.inj_succ.
      split; [nia |]. split; [lia |].
      intros Hfew. rewrite (IH3 Hfew). f_equal.
      destruct (N.eq_dec (block_count_of slot) 0) as [-> | Hnz];
        [apply ceil_div_0_l |].
      assert (per_thread = 1) as ->; [| apply ceil_div_1].
      unfold per_thread.
      assert (0 < max_blocks slots) as Hpos by lia.
      destruct (ceil_div_bounds (max_blocks slots) threads Hthreads) as [Hlo Hhi].
      pose proof (ceil_div_pos _ _ Hthreads Hpos).
      set (p := ceil_div (max_blocks slots) threads) in *. clearbody p. nia. }
  apply Hpart. intros slot. apply max_blocks_upper.
Qed.

Lemma tiling_ranges p hi lo ranges :
  0 < p ->
  tiling p hi lo ranges ->
  Forall (fun r : N * N => r.1 < r.2 /\ r.2 <= hi /\ r.2 - r.1 <= p) ranges.
Proof.
  intros Hp Htiling. induction Htiling as [|lo rest Hlt _ IH]; constructor.
  - cbn [fst snd]. lia.
  - exact IH.
Qed.

Lemma stride_tasks_ranges per_thread stage (b : PartitionBlock) k :
  (b.1 <> 0 -> 0 < per_thread) ->
  k ∈ stride_tasks per_thread stage b ->
  Task.stage k = stage /\ Task.group_idx k = b.2 /\ Task.max_idx k = b.1 /\
  Task.begin_idx k < Task.end_idx k /\ Task.end_idx k <= b.1 /\
  Task.end_idx k - Task.begin_idx k <= per_thread.
Proof.
  intros Hp Hin.
  destruct (N.eq_dec b.1 0) as [Hz | Hnz].
  - unfold stride_tasks in Hin. rewrite Hz, ceil_div_0_l in Hin.
    apply elem_of_nil in Hin. contradiction.
  - destruct (stride_tasks_tiling per_thread stage b Hp) as (Htiling & _ & _ & _).
    specialize (Htiling (Hp Hnz)). apply tiling_ranges in Htiling; [| exact (Hp Hnz)].
    rewrite Forall_fmap, Forall_forall in Htiling.
    specialize (Htiling k Hin). cbn in Htiling.
    unfold stride_tasks in Hin. apply list_elem_of_fmap in Hin as (r & -> & _).
    cbn in *. repeat split; try reflexivity; lia.
Qed.

Lemma group_tasks_ranges per_thread (b : PartitionBlock) k :
  (b.1 <> 0 -> 0 < per_thread) ->
  k ∈ group_tasks per_thread b ->
  Task.stage k ∈ states /\ Task.group_idx k = b.2 /\ Task.max_idx k = b.1 /\
  Task.begin_idx k < Task.end_idx k /\ Task.end_idx k <= b.1 /\
  Task.end_idx k - Task.begin_idx k <= per_thread.
Proof.
  intros Hp Hin. unfold group_tasks in Hin.
  apply elem_of_app in Hin as [Hin | Hin]; [| apply elem_of_app in Hin as [Hin | Hin]];
    apply stride_tasks_ranges in Hin as (-> & Hrest); try exact Hp;
    (split; [unfold states; rewrite !elem_of_cons; auto | exact Hrest]).
Qed.

Lemma stage_and_group_stride per_thread stage (b : PartitionBlock) :
  (fun k => (Task.stage k, Task.group_idx k)) <$> stride_tasks per_thread stage b
  = replicate (N.to_nat (ceil_div b.1 per_thread)) (stage, b.2).
Proof.
  unfold stride_tasks. rewrite <- list_fmap_compose.
  generalize (N.to_nat (ceil_div b.1 per_thread)) as n. generalize 0 as lo.
  intros lo n. revert lo. induction n as [|n IH]; intros lo; [reflexivity |].
  cbn [strides fmap list_fmap replicate]. rewrite IH. reflexivity.
Qed.

Lemma filter_eq_replicate_pair (x y : WindowGroupStage * idx_t) n :
  length (filter (eq x) (replicate n y)) = if decide (x = y) then n else 0%nat.
Proof.
  induction n as [|n IH]; cbn [replicate].
  - case_decide; reflexivity.
  - rewrite filter_cons. case_decide; cbn [length]; rewrite IH; reflexivity.
Qed.

Lemma count_stage_of_group per_thread (b : PartitionBlock) stage gi :
  stage ∈ states ->
  length (filter (eq (stage, gi))
            ((fun k => (Task.stage k, Task.group_idx k)) <$> group_tasks per_thread b))
  = if decide (gi = b.2) then N.to_nat (ceil_div b.1 per_thread) else 0%nat.
Proof.
  intros Hstage. unfold group_tasks.
  rewrite !fmap_app, !filter_app, !length_app, !stage_and_group_stride,
    !filter_eq_replicate_pair.
  unfold states in Hstage. rewrite !elem_of_cons in Hstage.
  destruct Hstage as [-> | [-> | [-> | Hnil]]];
    [| | | apply elem_of_nil in Hnil; contradiction];
    repeat case_decide; simplify_eq; lia.
Qed.

Lemma count_stage_schedule per_thread (pbs : list PartitionBlock) stage gi :
  stage ∈ states ->
  NoDup pbs.*2 ->
  length (filter (eq (stage, gi))
            ((fun k => (Task.stage k, Task.group_idx k))
               <$> (pbs ≫= group_tasks per_thread)))
  = foldr (fun (b : PartitionBlock) n =>
             if decide (gi = b.2) then N.to_nat (ceil_div b.1 per_thread) else n)
      0%nat pbs.
Proof.
  intros Hstage. induction pbs as [|b pbs IH]; intros Hnodup; [reflexivity |].
  rewrite fmap_cons in Hnodup. apply NoDup_cons in Hnodup as [Hfresh Hnodup].
  rewrite bind_cons, fmap_app, filter_app, length_app,
    (count_stage_of_group _ _ _ _ Hstage), (IH Hnodup).
  cbn [foldr]. case_decide as Hgi; [| reflexivity].
  assert (foldr (fun (b0 : PartitionBlock) n =>
                   if decide (gi = b0.2) then N.to_nat (ceil_div b0.1 per_thread) else n)
            0%nat pbs = 0%nat) as ->; [| lia].
  clear IH Hnodup. subst gi.
  induction pbs as [|b0 pbs IH]; [reflexivity |].
  rewrite fmap_cons in Hfresh. apply not_elem_of_cons in Hfresh as [Hne Hfresh].
  cbn [foldr]. rewrite decide_False by exact Hne. apply IH. exact Hfresh.
Qed.

Lemma count_stage_of_member per_thread (pbs : list PartitionBlock) (b : PartitionBlock) :
  NoDup pbs.*2 ->
  b ∈ pbs ->
  foldr (fun (b0 : PartitionBlock) n =>
           if decide (b.2 = b0.2) then N.to_nat (ceil_div b0.1 per_thread) else n)
    0%nat pbs
  = N.to_nat (ceil_div b.1 per_thread).
Proof.
  induction pbs as [|b0 pbs IH]; intros Hnodup Hin.
  - apply elem_of_nil in Hin. contradiction.
  - rewrite fmap_cons in Hnodup. apply NoDup_cons in Hnodup as [Hfresh Hnodup].
    cbn [foldr]. apply elem_of_cons in Hin as [-> | Hin].
    + rewrite decide_True by reflexivity. reflexivity.
    + rewrite decide_False; [apply IH; assumption |].
      intros Heq. apply Hfresh. rewrite <- Heq.
      apply list_elem_of_fmap. exists b. auto.
Qed.

Lemma filter_stage_and_group stage gi (ks : list Task.t) :
  length (filter (fun k => Task.stage k = stage /\ Task.group_idx k = gi) ks)
  = length (filter (eq (stage, gi))
              ((fun k => (Task.stage k, Task.group_idx k)) <$> ks)).
Proof.
  induction ks as [|k ks IH]; [reflexivity |].
  rewrite fmap_cons, !filter_cons.
  destruct (decide (Task.stage k = stage /\ Task.group_idx k = gi)) as [[E1 E2] | E],
           (decide ((stage, gi) = (Task.stage k, Task.group_idx k))) as [F | F];
    cbn [length]; try congruence.
  exfalso. apply E. injection F as -> ->. auto.
Qed.

Section TaskListSize.

Variable AlignHeapBlocks :
  RowDataCollection.t -> RowDataCollection.t ->
  RowDataCollection.t -> RowDataCollection.t -> Aligned.t.

(** X9: the source offers as many threads as it has tasks: three times the
    sum over the groups of the group's block count divided by [per_thread] and
    rounded up, where [per_thread] is the largest block count divided by the
    number of threads and rounded up.  Each stage of each group is cut into
    exactly the group's block count divided by [per_thread] and rounded up
    tasks, which is no more than there are threads and no more than the
    group has blocks; with no more blocks in the largest group than threads
    there is one task per block and stage.  Every task spans a non-empty
    range of at most [per_thread] blocks inside the blocks of a group that
    is in place and has rows. *)
Theorem MaxThreads_of_construction (fuel : nat) (threads : idx_t)
    (gsink gpart : WindowPartitionGlobalSinkState.t) :
  prepare_hash_groups AlignHeapBlocks gsink = Ok gpart ->
  let groups := WindowPartitionGlobalSinkState.window_hash_groups gpart in
  groups <> [] ->
  Forall populated groups ->
  idx.size groups <= idx.modulus ->
  0 < threads ->
  Forall (schedulable fuel threads) groups ->
  let per_thread := ceil_div (max_blocks groups) threads in
  exists source,
    WindowGlobalSourceState_ctor AlignHeapBlocks fuel threads gsink = Ok source /\
    WindowGlobalSourceState.MaxThreads source = 3 * stage_tasks per_thread groups /\
    stage_tasks per_thread groups <= threads * idx.size groups /\
    stage_tasks per_thread groups <= total_blocks groups /\
    (max_blocks groups <= threads ->
     WindowGlobalSourceState.MaxThreads source = 3 * total_blocks groups) /\
    Forall (well_formed_task per_thread
              (WindowPartitionGlobalSinkState.window_hash_groups
                 (WindowGlobalSourceState.gsink source)))
      (WindowGlobalSourceState.tasks source) /\
    (forall stage gi slot,
        stage ∈ states ->
        groups !! N.to_nat gi = Some slot ->
        let n :=
          N.of_nat
            (length (filter (fun k => Task.stage k = stage /\ Task.group_idx k = gi)
                       (WindowGlobalSourceState.tasks source))) in
        n = ceil_div (block_count_of slot) per_thread /\
        n <= threads /\
        n <= block_count_of slot).
Proof.
  intros Hprep groups Hne Hpop Hlen Hthreads Hsched per_thread.
  destruct (construct_prepared AlignHeapBlocks fuel threads gsink gpart
              Hprep Hne Hpop Hlen Hthreads Hsched)
    as (max_block & Hfront & Hin & Hmax & Hctor).
  fold groups in Hfront, Hin, Hmax, Hctor.
  rewrite (max_blocks_front groups max_block Hin Hmax) in Hctor.
  cbv zeta in Hctor. fold per_thread in Hctor.
  set (sorted := std_sort_greater (indexed_blocks 0 groups)) in *.
  assert (sorted ≡ₚ indexed_blocks 0 groups) as Hperm
    by apply merge_sort_Permutation.
  destruct (stage_tasks_bounds threads groups Hthreads) as (Hb1 & Hb2 & Hb3).
  fold per_thread in Hb1, Hb2, Hb3.
  assert (WindowGlobalSourceState.MaxThreads
            (WindowGlobalSourceState.mk
               (WindowPartitionGlobalSinkState.set_window_hash_groups
                  (bump_all per_thread sorted groups) gpart)
               (sorted ≫= group_tasks per_thread) 0 false 0 [])
          = 3 * stage_tasks per_thread groups) as Hsize.
  { unfold WindowGlobalSourceState.MaxThreads, idx.size.
    cbn [WindowGlobalSourceState.tasks].
    rewrite length_schedule, (schedule_size_Permutation _ _ _ Hperm).
    rewrite stage_tasks_indexed. reflexivity. }
  eexists. split; [exact Hctor |].
  split; [exact Hsize |]. split; [exact Hb1 |]. split; [exact Hb2 |].
  split; [intros Hfew; rewrite Hsize, (Hb3 Hfew); reflexivity |].
  cbn [WindowGlobalSourceState.tasks WindowGlobalSourceState.gsink
       WindowPartitionGlobalSinkState.window_hash_groups
       WindowPartitionGlobalSinkState.set_window_hash_groups].
  split; [apply Forall_forall; intros k Hk |].
  2: { intros stage gi slot Hstage Hslot. cbv zeta.
       set (n := N.of_nat (length _)).
       assert ((block_count_of slot, gi) ∈ sorted) as Hb.
       { rewrite Hperm. apply elem_of_indexed_blocks. exists (N.to_nat gi), slot.
         split; [exact Hslot |]. f_equal. lia. }
       assert (NoDup sorted.*2) as Hnodup
         by (rewrite Hperm; apply indexed_blocks_NoDup).
       assert (block_count_of slot <= max_blocks groups) as Hle
         by (apply max_blocks_upper; eapply list_elem_of_lookup_2; exact Hslot).
       assert (n = ceil_div (block_count_of slot) per_thread) as Hn.
       { unfold n. rewrite filter_stage_and_group.
         rewrite (count_stage_schedule _ _ _ _ Hstage Hnodup).
         pose proof (count_stage_of_member per_thread sorted
                       (block_count_of slot, gi) Hnodup Hb) as Hmember.
         cbn [fst snd] in Hmember. rewrite Hmember. lia. }
       split; [exact Hn |]. rewrite Hn. split.
       - apply ceil_div_threads; [exact Hthreads | exact Hle].
       - destruct (N.eq_dec (block_count_of slot) 0) as [-> | Hnz];
           [rewrite ceil_div_0_l; lia |].
         apply ceil_div_le. apply ceil_div_pos; [exact Hthreads | lia]. }
  apply list_elem_of_bind in Hk as (b & Hk & Hb).
  assert (b ∈ indexed_blocks 0 groups) as Hb' by (rewrite <- Hperm; exact Hb).
  assert (b.1 <= max_blocks groups) as Hle.
  { apply elem_of_indexed_blocks in Hb' as (i & slot & Hi & ->).
    apply max_blocks_upper. eapply list_elem_of_lookup_2. exact Hi. }
  apply group_tasks_ranges in Hk as (Hstage & Hgi & Hmaxidx & Hlt & Hhi & Hstride).
  2: { intros Hnz. apply ceil_div_pos; lia. }
  unfold well_formed_task. rewrite Hgi, Hmaxidx.
  split; [exact Hstage |]. split; [exact Hlt |]. split; [exact Hhi |].
  split; [exact Hstride |].
  pose proof Hb' as Hslot.
  apply elem_of_indexed_blocks in Hslot as (i & slot & Hi & Eb).
  rewrite Forall_forall in Hpop.
  destruct (Hpop slot (list_elem_of_lookup_2 _ _ _ Hi)) as (g & rows & -> & Hrows).
  assert (groups !! N.to_nat b.2 = Some (Some g)) as Hg.
  { rewrite Eb. cbn [snd]. rewrite <- Hi. f_equal. lia. }
  exists (add_tasks_remaining (3 * task_count per_thread b) g), rows.
  split; [| split].
  - apply bump_all_lookup; [| exact Hb | exact Hg].
    rewrite Hperm. apply indexed_blocks_NoDup.
  - exact Hrows.
  - rewrite Eb. cbn [fst block_count_of]. rewrite Hrows. reflexivity.
Qed.

End TaskListSize.

(** Two groups of two and five blocks on two threads: strides of three
    blocks, three tasks per stage, nine tasks in all. *)
Lemma MaxThreads_of_construction_witness :
  exists source,
    WindowGlobalSourceState_ctor hand_over 5 2 two_groups = Ok source /\
    WindowGlobalSourceState.MaxThreads source = 9.
Proof.
  destruct (MaxThreads_of_construction hand_over 5 2 two_groups
              (WindowPartitionGlobalSinkState.set_window_hash_groups
                 (assign_batch_base 0
                    (WindowPartitionGlobalSinkState.window_hash_groups two_groups))
                 two_groups))
    as (source & Hrun & Hsize & _).
  - reflexivity.
  - discriminate.
  - repeat constructor; eexists _, _; split; reflexivity.
  - vm_compute. discriminate.
  - reflexivity.
  - repeat constructor; vm_compute; try reflexivity; lia.
  - exists source. split; [exact Hrun |]. rewrite Hsize. reflexivity.
Defined.

(** ** The dispenser and its callers *)

Lemma remaining_lookup s i :
  remaining s !! i
  = (fun slot : option WindowHashGroup.t => WindowHashGroup.tasks_remaining <$> slot)
      <$> WindowPartitionGlobalSinkState.window_hash_groups
            (WindowGlobalSourceState.gsink s) !! i.
Proof. unfold remaining. apply list_lookup_fmap. Qed.

Lemma group_indices_lookup s t k :
  WindowGlobalSourceState.tasks s !! t = Some k ->
  group_indices s !! t = Some (Task.group_idx k).
Proof. intros Hk. unfold group_indices. rewrite list_lookup_fmap, Hk. reflexivity. Qed.

Lemma filter_eq_cons (gi gk : idx_t) l :
  length (filter (eq gi) (gk :: l))
  = ((if decide (gi = gk) then 1 else 0) + length (filter (eq gi) l))%nat.
Proof. rewrite filter_cons. case_decide; reflexivity. Qed.

Lemma accounted_live s out gi :
  accounted s out ->
  (0 < unfinished gi s out)%nat ->
  exists g,
    WindowPartitionGlobalSinkState.window_hash_groups (WindowGlobalSourceState.gsink s)
      !! N.to_nat gi = Some (Some g) /\
    WindowHashGroup.tasks_remaining g = N.of_nat (unfinished gi s out) /\
    WindowHashGroup.tasks_remaining g < idx.modulus.
Proof.
  intros (_ & _ & Hbooks) Hpos. specialize (Hbooks gi).
  rewrite remaining_lookup in Hbooks.
  destruct (WindowPartitionGlobalSinkState.window_hash_groups
              (WindowGlobalSourceState.gsink s) !! N.to_nat gi) as [[g|]|];
    cbn in Hbooks; [| lia | lia].
  exists g. destruct Hbooks as (Hr & Hsmall & _). auto.
Qed.

Lemma unfinished_cursor s out k :
  WindowGlobalSourceState.tasks s !! N.to_nat (WindowGlobalSourceState.next_task s)
    = Some k ->
  (0 < unfinished (Task.group_idx k) s out)%nat.
Proof.
  intros Hk. apply group_indices_lookup in Hk. unfold unfinished.
  rewrite (drop_S _ _ _ Hk), filter_eq_cons.
  rewrite decide_True by reflexivity. lia.
Qed.

Lemma unfinished_held s l1 t l2 k :
  WindowGlobalSourceState.tasks s !! N.to_nat t = Some k ->
  forall gi,
    unfinished gi s (l1 ++ t :: l2)
    = ((if decide (gi = Task.group_idx k) then 1 else 0)
       + unfinished gi s (l1 ++ l2))%nat.
Proof.
  intros Hk gi. apply group_indices_lookup in Hk. unfold unfinished.
  rewrite !omap_app. cbn [omap list_omap]. rewrite Hk.
  rewrite !filter_app, !length_app, filter_eq_cons. lia.
Qed.

Lemma unfinished_work s s1 out gi :
  work s s1 -> unfinished gi s1 out = unfinished gi s out.
Proof.
  intros (Hgroups & Hnext & _). unfold unfinished. rewrite Hgroups, Hnext. reflexivity.
Qed.

Lemma accounted_work s s1 out :
  work s s1 -> accounted s out -> accounted s1 out.
Proof.
  intros Hwork (Hsize & Hout & Hbooks).
  pose proof Hwork as (Hgroups & Hnext & Hremaining).
  assert (idx.size (WindowGlobalSourceState.tasks s1)
          = idx.size (WindowGlobalSourceState.tasks s)) as Hlen.
  { apply (f_equal length) in Hgroups. unfold group_indices in Hgroups.
    rewrite !length_fmap in Hgroups. unfold idx.size. rewrite Hgroups. reflexivity. }
  split; [rewrite Hlen; exact Hsize |].
  split; [rewrite Hlen; exact Hout |].
  intros gi. specialize (Hbooks gi).
  rewrite Hremaining, Hgroups, (unfinished_work s s1 out gi Hwork). exact Hbooks.
Qed.

Lemma TryNextTask_accounted s out :
  accounted s out ->
  exists task flag s1,
    TryNextTask s = Ok (task, flag, s1) /\
    accounted s1 (option_list task ++ out).
Proof.
  intros Hacc. unfold TryNextTask.
  destruct (idx.size (WindowGlobalSourceState.tasks s)
            <=? WindowGlobalSourceState.next_task s) eqn:Hend;
    [exists None, true, s; split; [reflexivity | exact Hacc] |].
  destruct (WindowGlobalSourceState.stopped s);
    [exists None, true, s; split; [reflexivity | exact Hacc] |].
  cbn [orb]. apply N.leb_gt in Hend.
  destruct (lookup_lt_is_Some_2 (WindowGlobalSourceState.tasks s)
              (N.to_nat (WindowGlobalSourceState.next_task s))) as [k Hk];
    [unfold idx.size in Hend; lia |].
  rewrite (at_index_lookup _ _ _ Hk). cbn [mbind outcome_bind].
  destruct (accounted_live s out (Task.group_idx k) Hacc (unfinished_cursor s out k Hk))
    as (g & Hg & _).
  rewrite (at_index_lookup _ _ _ Hg). cbn [mbind outcome_bind deref].
  case_decide; [| exists None, false, s; split; [reflexivity | exact Hacc]].
  eexists _, _, _. split; [reflexivity |].
  destruct Hacc as (Hsize & Hout & Hbooks).
  assert (idx.incr (WindowGlobalSourceState.next_task s)
          = WindowGlobalSourceState.next_task s + 1) as Hincr
    by (apply incr_small; lia).
  split; [exact Hsize |]. split.
  - cbn [option_list app WindowGlobalSourceState.tasks
         WindowGlobalSourceState.set_next_task].
    constructor; [exact Hend | exact Hout].
  - intros gi. specialize (Hbooks gi).
    assert (unfinished gi
              (WindowGlobalSourceState.set_next_task
                 (idx.incr (WindowGlobalSourceState.next_task s)) s)
              (option_list (Some (WindowGlobalSourceState.next_task s)) ++ out)
            = unfinished gi s out) as ->.
    { pose proof (group_indices_lookup _ _ _ Hk) as Hgk.
      unfold unfinished.
      change (group_indices (WindowGlobalSourceState.set_next_task _ s))
        with (group_indices s).
      change (WindowGlobalSourceState.next_task
                (WindowGlobalSourceState.set_next_task
                   (idx.incr (WindowGlobalSourceState.next_task s)) s))
        with (idx.incr (WindowGlobalSourceState.next_task s)).
      change (option_list (Some (WindowGlobalSourceState.next_task s)) ++ out)
        with (WindowGlobalSourceState.next_task s :: out).
      cbn [omap list_omap]. rewrite Hgk, Hincr, (drop_S _ _ _ Hgk), !filter_eq_cons.
      replace (N.to_nat (WindowGlobalSourceState.next_task s + 1))
        with (S (N.to_nat (WindowGlobalSourceState.next_task s))) by lia.
      lia. }
    exact Hbooks.
Qed.

Lemma FinishTask_accounted s l1 t l2 :
  accounted s (l1 ++ t :: l2) ->
  exists s1,
    FinishTask (Some t) s = Ok s1 /\
    accounted s1 (l1 ++ l2) /\
    WindowGlobalSourceState.tasks s1 = WindowGlobalSourceState.tasks s /\
    WindowGlobalSourceState.next_task s1 = WindowGlobalSourceState.next_task s.
Proof.
  intros Hacc. pose proof Hacc as (Hsize & Hout & Hbooks).
  assert (t < idx.size (WindowGlobalSourceState.tasks s)) as Ht.
  { rewrite Forall_app, Forall_cons in Hout. tauto. }
  destruct (lookup_lt_is_Some_2 (WindowGlobalSourceState.tasks s) (N.to_nat t))
    as [k Hk]; [unfold idx.size in Ht; lia |].
  pose proof (unfinished_held s l1 t l2 k Hk) as Hheld.
  assert (0 < unfinished (Task.group_idx k) s (l1 ++ t :: l2))%nat as Hpos.
  { rewrite Hheld, decide_True by reflexivity. lia. }
  destruct (accounted_live s _ _ Hacc Hpos) as (g & Hg & Hr & Hsmall).
  unfold FinishTask.
  rewrite (at_index_lookup _ _ _ Hk). cbn [mbind outcome_bind].
  rewrite (at_index_lookup _ _ _ Hg). cbn [mbind outcome_bind deref].
  eexists. split; [reflexivity |].
  split; [| split; reflexivity].
  assert (idx.decr (WindowHashGroup.tasks_remaining g)
          = WindowHashGroup.tasks_remaining g - 1) as Hdecr
    by (apply decr_small; lia).
  assert (N.to_nat (Task.group_idx k)
          < length (WindowPartitionGlobalSinkState.window_hash_groups
                      (WindowGlobalSourceState.gsink s)))%nat as Hlen
    by (eapply lookup_lt_Some; exact Hg).
  split; [exact Hsize |]. split.
  - cbn [WindowGlobalSourceState.tasks WindowGlobalSourceState.set_gsink].
    rewrite Forall_app, Forall_cons in Hout. rewrite Forall_app. tauto.
  - intros gi.
    match goal with
    | |- context [unfinished gi ?s1 _] =>
        assert (unfinished gi s1 (l1 ++ l2) = unfinished gi s (l1 ++ l2)) as ->
          by reflexivity
    end.
    rewrite remaining_lookup.
    cbn [WindowGlobalSourceState.gsink WindowGlobalSourceState.set_gsink
         WindowPartitionGlobalSinkState.window_hash_groups
         WindowPartitionGlobalSinkState.set_window_hash_groups].
    specialize (Hbooks gi). rewrite remaining_lookup, (Hheld gi) in Hbooks.
    destruct (decide (gi = Task.group_idx k)) as [-> | Hne].
    + rewrite list_lookup_insert_eq by exact Hlen.
      rewrite Hheld, decide_True in Hr by reflexivity.
      rewrite Hdecr.
      destruct (N.eqb_spec (WindowHashGroup.tasks_remaining g - 1) 0) as [Hz | Hnz];
        cbn [fmap option_fmap option_map]; [lia |].
      unfold WindowHashGroup.set_tasks_remaining.
      cbn [WindowHashGroup.tasks_remaining].
      split; [lia |]. split; [lia |]. intros Hnone. lia.
    + rewrite list_lookup_insert_ne
        by (intros Heq; apply Hne; apply N2Nat.inj; symmetry; exact Heq).
      exact Hbooks.
Qed.

(** X10: the dispenser and its callers keep the books in order.  Start from
    a state in which every group that is in place waits for exactly its
    unfinished tasks, and let the workers call [TryNextTask] and [FinishTask]
    in any interleaving and do their work in between, finishing only tasks
    that they were handed and each of them once.  Then neither call ever
    dereferences an empty slot or leaves the task list; a group stays in
    place as long as one of its tasks is unfinished and waits for exactly
    those; and its slot is emptied when the last of them is finished. *)
Theorem dispenser_protocol_safe (s s' : WindowGlobalSourceState.t)
    (out out' : list idx_t) :
  accounted s out ->
  protocol s out s' out' ->
  accounted s' out' /\
  (exists task flag s'', TryNextTask s' = Ok (task, flag, s'')) /\
  (forall t, t ∈ out' -> exists s'', FinishTask (Some t) s' = Ok s'') /\
  (forall gi,
      (0 < unfinished gi s' out')%nat ->
      exists g,
        WindowPartitionGlobalSinkState.window_hash_groups
          (WindowGlobalSourceState.gsink s') !! N.to_nat gi = Some (Some g) /\
        WindowHashGroup.tasks_remaining g = N.of_nat (unfinished gi s' out')) /\
  (forall gi k,
      k ∈ WindowGlobalSourceState.tasks s' ->
      Task.group_idx k = gi ->
      unfinished gi s' out' = 0%nat ->
      WindowPartitionGlobalSinkState.window_hash_groups
        (WindowGlobalSourceState.gsink s') !! N.to_nat gi = Some None).
Proof.
  intros Hacc Hrun.
  assert (accounted s' out') as Hacc'.
  { induction Hrun as [s out | s out task flag s1 s' out' Hstep _ IH
                       | s l1 t l2 s1 s' out' Hstep _ IH
                       | s out s1 s' out' Hwork _ IH].
    - exact Hacc.
    - apply IH. destruct (TryNextTask_accounted s out Hacc) as (? & ? & ? & Hrun' & Hacc').
      rewrite Hstep in Hrun'. injection Hrun' as <- <- <-. exact Hacc'.
    - apply IH. destruct (FinishTask_accounted s l1 t l2 Hacc) as (? & Hrun' & Hacc' & _).
      rewrite Hstep in Hrun'. injection Hrun' as <-. exact Hacc'.
    - apply IH. exact (accounted_work s s1 out Hwork Hacc). }
  split; [exact Hacc' |]. split; [| split; [| split]].
  - destruct (TryNextTask_accounted s' out' Hacc') as (task & flag & s'' & Hstep & _).
    eauto.
  - intros t Ht. apply list_elem_of_split in Ht as (l1 & l2 & ->).
    destruct (FinishTask_accounted s' l1 t l2 Hacc') as (s'' & Hstep & _). eauto.
  - intros gi Hpos. destruct (accounted_live s' out' gi Hacc' Hpos) as (g & Hg & Hr & _).
    eauto.
  - intros gi k Hk Hgi Hzero. destruct Hacc' as (_ & _ & Hbooks).
    specialize (Hbooks gi). rewrite remaining_lookup in Hbooks.
    assert (gi ∈ filter (eq gi) (group_indices s')) as Hin.
    { apply list_elem_of_filter. split; [reflexivity |].
      unfold group_indices. apply list_elem_of_fmap. exists k. auto. }
    destruct (WindowPartitionGlobalSinkState.window_hash_groups
                (WindowGlobalSourceState.gsink s') !! N.to_nat gi) as [[g|]|] eqn:Hslot;
      cbn in Hbooks.
    + destruct Hbooks as (_ & _ & Hnone). rewrite (Hnone Hzero) in Hin.
      apply elem_of_nil in Hin. contradiction.
    + reflexivity.
    + destruct Hbooks as [_ Hnone]. rewrite Hnone in Hin.
      apply elem_of_nil in Hin. contradiction.
Qed.

(** Two tasks are handed out and the first of them is finished: the group
    waits for the five others. *)
Lemma dispenser_protocol_safe_witness :
  exists s' g,
    protocol (source_at 0 fresh_group) [] s' [1] /\
    WindowPartitionGlobalSinkState.window_hash_groups (WindowGlobalSourceState.gsink s')
      !! N.to_nat 0 = Some (Some g) /\
    WindowHashGroup.tasks_remaining g = 5.
Proof.
  assert (accounted (source_at 0 fresh_group) []) as Hacc.
  { split; [reflexivity |]. split; [constructor |].
    intros [|p].
    - vm_compute. repeat split; try reflexivity. discriminate.
    - destruct (Pos2Nat.is_succ p) as [n Hn].
      change (N.to_nat (N.pos p)) with (Pos.to_nat p). rewrite Hn.
      split; reflexivity. }
  assert (exists s',
             protocol (source_at 0 fresh_group) [] s' [1] /\
             unfinished 0 s' [1] = 5%nat) as (s' & Hrun & Hleft).
  { eexists. split.
    - eapply protocol_next; [reflexivity |].
      eapply protocol_next; [reflexivity |].
      eapply (protocol_finish _ [1] 0 []); [reflexivity |].
      apply protocol_here.
    - reflexivity. }
  destruct (dispenser_protocol_safe _ _ _ _ Hacc Hrun) as (_ & _ & _ & Hlive & _).
  destruct (Hlive 0) as (g & Hg & Hr); [rewrite Hleft; lia |].
  exists s', g. split; [exact Hrun |]. split; [exact Hg |].
  rewrite Hr, Hleft. reflexivity.
Defined.

(** ** The constructor opens the books *)

Lemma group_indices_stride per_thread stage (b : PartitionBlock) :
  Task.group_idx <$> stride_tasks per_thread stage b
  = replicate (task_count per_thread b) b.2.
Proof.
  unfold stride_tasks, task_count. rewrite <- list_fmap_compose.
  generalize (N.to_nat (ceil_div b.1 per_thread)) as n. generalize 0 as lo.
  intros lo n. revert lo. induction n as [|n IH]; intros lo; [reflexivity |].
  cbn [strides fmap list_fmap replicate]. rewrite IH. reflexivity.
Qed.

Lemma group_indices_group per_thread (b : PartitionBlock) :
  Task.group_idx <$> group_tasks per_thread b
  = replicate (3 * task_count per_thread b) b.2.
Proof.
  unfold group_tasks. rewrite !fmap_app, !group_indices_stride, <- !replicate_add.
  f_equal. lia.
Qed.

Lemma filter_eq_replicate (gi gj : idx_t) n :
  filter (eq gi) (replicate n gj) = if decide (gi = gj) then replicate n gj else [].
Proof.
  induction n as [|n IH]; cbn [replicate].
  - case_decide; reflexivity.
  - rewrite filter_cons, IH. repeat case_decide; congruence.
Qed.

Lemma count_schedule_other per_thread (pbs : list PartitionBlock) gi :
  gi ∉ pbs.*2 ->
  filter (eq gi) (Task.group_idx <$> (pbs ≫= group_tasks per_thread)) = [].
Proof.
  induction pbs as [|b pbs IH]; intros Hnot; [reflexivity |].
  rewrite fmap_cons in Hnot. apply not_elem_of_cons in Hnot as [Hne Hnot].
  rewrite bind_cons, fmap_app, filter_app, group_indices_group, filter_eq_replicate.
  rewrite decide_False by exact Hne. rewrite IH by exact Hnot. reflexivity.
Qed.

Lemma count_schedule per_thread (pbs : list PartitionBlock) (b : PartitionBlock) :
  NoDup pbs.*2 ->
  b ∈ pbs ->
  length (filter (eq b.2) (Task.group_idx <$> (pbs ≫= group_tasks per_thread)))
  = (3 * task_count per_thread b)%nat.
Proof.
  induction pbs as [|b0 pbs IH]; intros Hnodup Hin.
  - apply elem_of_nil in Hin. contradiction.
  - rewrite fmap_cons in Hnodup. apply NoDup_cons in Hnodup as [Hfresh Hnodup].
    rewrite bind_cons, fmap_app, filter_app, length_app, group_indices_group,
      filter_eq_replicate.
    apply elem_of_cons in Hin as [-> | Hin].
    + rewrite decide_True by reflexivity.
      rewrite count_schedule_other by exact Hfresh.
      rewrite length_replicate. cbn [length]. lia.
    + rewrite decide_False.
      * rewrite IH by assumption. reflexivity.
      * intros Heq. apply Hfresh. rewrite <- Heq.
        apply list_elem_of_fmap. exists b. auto.
Qed.

Lemma filter_group_indices gi s :
  length (filter (eq gi) (group_indices s))
  = length (filter (fun k => Task.group_idx k = gi) (WindowGlobalSourceState.tasks s)).
Proof.
  unfold group_indices.
  induction (WindowGlobalSourceState.tasks s) as [|k ks IH]; [reflexivity |].
  rewrite fmap_cons, !filter_cons.
  destruct (decide (gi = Task.group_idx k)), (decide (Task.group_idx k = gi));
    cbn [length]; congruence.
Qed.

Lemma bump_all_length per_thread pbs :
  forall groups, length (bump_all per_thread pbs groups) = length groups.
Proof.
  induction pbs as [|b pbs IH]; intros groups; [reflexivity |].
  rewrite bump_all_cons, IH. unfold bump. apply length_alter.
Qed.

Section OpeningTheBooks.

Variable AlignHeapBlocks :
  RowDataCollection.t -> RowDataCollection.t ->
  RowDataCollection.t -> RowDataCollection.t -> Aligned.t.

Lemma construction_books (fuel : nat) (threads : idx_t)
    (gsink gpart : WindowPartitionGlobalSinkState.t) :
  prepare_hash_groups AlignHeapBlocks gsink = Ok gpart ->
  let groups := WindowPartitionGlobalSinkState.window_hash_groups gpart in
  groups <> [] ->
  Forall populated groups ->
  Forall (fun slot => forall g, slot = Some g -> WindowHashGroup.tasks_remaining g = 0)
    groups ->
  idx.size groups <= idx.modulus ->
  0 < threads ->
  Forall (schedulable fuel threads) groups ->
  3 * total_blocks groups < idx.modulus ->
  exists source,
    WindowGlobalSourceState_ctor AlignHeapBlocks fuel threads gsink = Ok source /\
    accounted source [] /\
    (forall gi g,
        WindowPartitionGlobalSinkState.window_hash_groups
          (WindowGlobalSourceState.gsink source) !! N.to_nat gi = Some (Some g) ->
        WindowHashGroup.tasks_remaining g
        = N.of_nat (length (filter (fun k => Task.group_idx k = gi)
                              (WindowGlobalSourceState.tasks source)))) /\
    let per_thread := ceil_div (max_blocks groups) threads in
    let sorted := std_sort_greater (indexed_blocks 0 groups) in
    WindowGlobalSourceState.tasks source = sorted ≫= group_tasks per_thread /\
    WindowPartitionGlobalSinkState.window_hash_groups
      (WindowGlobalSourceState.gsink source)
    = bump_all per_thread sorted groups.
Proof.
  intros Hprep groups Hne Hpop Hfresh Hlen Hthreads Hsched Htotal.
  destruct (construct_prepared AlignHeapBlocks fuel threads gsink gpart
              Hprep Hne Hpop Hlen Hthreads Hsched)
    as (max_block & Hfront & Hin & Hmax & Hctor).
  fold groups in Hfront, Hin, Hmax, Hctor.
  rewrite (max_blocks_front groups max_block Hin Hmax) in Hctor.
  cbv zeta in Hctor.
  set (per_thread := ceil_div (max_blocks groups) threads) in *.
  set (sorted := std_sort_greater (indexed_blocks 0 groups)) in *.
  assert (sorted ≡ₚ indexed_blocks 0 groups) as Hperm
    by apply merge_sort_Permutation.
  assert (NoDup sorted.*2) as Hnodup by (rewrite Hperm; apply indexed_blocks_NoDup).
  destruct (stage_tasks_bounds threads groups Hthreads) as (_ & Hbound & _).
  fold per_thread in Hbound.
  set (source := WindowGlobalSourceState.mk
                   (WindowPartitionGlobalSinkState.set_window_hash_groups
                      (bump_all per_thread sorted groups) gpart)
                   (sorted ≫= group_tasks per_thread) 0 false 0 []) in *.
  assert (forall gi, unfinished gi source []
                     = length (filter (eq gi) (group_indices source))) as Hall.
  { intros gi. unfold unfinished.
    change (N.to_nat (WindowGlobalSourceState.next_task source)) with 0%nat.
    rewrite drop_0. cbn [omap list_omap]. rewrite filter_nil. cbn [length]. lia. }
  assert (forall i slot,
             groups !! i = Some slot ->
             exists g,
               slot = Some g /\
               (block_count_of slot, N.of_nat i) ∈ sorted /\
               bump_all per_thread sorted groups !! i
               = Some (Some (WindowHashGroup.set_tasks_remaining
                               (N.of_nat (3 * task_count per_thread
                                                (block_count_of slot, N.of_nat i))) g)))
    as Hslots.
  { intros i slot Hi.
    assert (slot ∈ groups) as Hslot by (eapply list_elem_of_lookup_2; exact Hi).
    rewrite Forall_forall in Hpop, Hfresh, Hsched.
    destruct (Hpop _ Hslot) as (g & rows & -> & Hrows).
    pose proof (Hfresh _ Hslot g eq_refl) as Hzero.
    destruct (Hsched _ Hslot) as (_ & Hsmall & _).
    assert ((block_count_of (Some g), N.of_nat i) ∈ sorted) as Hb.
    { rewrite Hperm. apply elem_of_indexed_blocks. exists i, (Some g). auto. }
    exists g. split; [reflexivity |]. split; [exact Hb |].
    pose proof (bump_all_lookup per_thread sorted groups
                  (block_count_of (Some g), N.of_nat i) g Hnodup Hb) as Hlookup.
    cbn [snd] in Hlookup. rewrite Nat2N.id in Hlookup. rewrite (Hlookup Hi).
    do 2 f_equal. unfold add_tasks_remaining. f_equal. rewrite Hzero.
    assert (ceil_div (block_count_of (Some g)) per_thread <= block_count_of (Some g)).
    { destruct (N.eq_dec (block_count_of (Some g)) 0) as [-> | Hnz];
        [rewrite ceil_div_0_l; lia |].
      apply ceil_div_le. apply ceil_div_pos; [exact Hthreads |].
      pose proof (max_blocks_upper groups (Some g) Hslot). lia. }
    rewrite iter_incr_small; unfold task_count; cbn [fst]; lia. }
  assert (accounted source []) as Hacc.
  { split; [| split; [constructor |]].
    - change (WindowGlobalSourceState.MaxThreads source < idx.modulus).
      unfold WindowGlobalSourceState.MaxThreads, idx.size.
      cbn [source WindowGlobalSourceState.tasks].
      rewrite length_schedule, (schedule_size_Permutation _ _ _ Hperm),
        stage_tasks_indexed. lia.
    - intros gi. rewrite remaining_lookup, Hall.
      cbn [source WindowGlobalSourceState.gsink
           WindowPartitionGlobalSinkState.window_hash_groups
           WindowPartitionGlobalSinkState.set_window_hash_groups].
      unfold group_indices. cbn [source WindowGlobalSourceState.tasks].
      destruct (groups !! N.to_nat gi) as [slot|] eqn:Hi.
      + destruct (Hslots _ _ Hi) as (g & -> & Hb & ->).
        rewrite N2Nat.id in *.
        cbn [fmap option_fmap option_map WindowHashGroup.tasks_remaining
             WindowHashGroup.set_tasks_remaining].
        pose proof (count_schedule per_thread sorted _ Hnodup Hb) as Hcount.
        cbn [snd] in Hcount. rewrite Hcount.
        split; [reflexivity |]. split.
        * rewrite Forall_forall in Hsched.
          destruct (Hsched _ (list_elem_of_lookup_2 _ _ _ Hi)) as (_ & Hsmall & _).
          assert (ceil_div (block_count_of (Some g)) per_thread
                  <= block_count_of (Some g)).
          { destruct (N.eq_dec (block_count_of (Some g)) 0) as [-> | Hnz];
              [rewrite ceil_div_0_l; lia |].
            apply ceil_div_le. apply ceil_div_pos; [exact Hthreads |].
            pose proof (max_blocks_upper groups (Some g)
                          (list_elem_of_lookup_2 _ _ _ Hi)). lia. }
          unfold task_count. cbn [fst]. lia.
        * intros Hzero. apply nil_length_inv. rewrite Hcount. exact Hzero.
      + assert (bump_all per_thread sorted groups !! N.to_nat gi = None) as ->.
        { apply lookup_ge_None. rewrite bump_all_length.
          apply lookup_ge_None. exact Hi. }
        cbn [fmap option_fmap option_map].
        assert (filter (eq gi)
                  (Task.group_idx <$> (sorted ≫= group_tasks per_thread)) = []) as ->.
        { apply count_schedule_other. intros Hgi.
          apply list_elem_of_fmap in Hgi as (b & -> & Hb).
          rewrite Hperm in Hb.
          apply elem_of_indexed_blocks in Hb as (i & slot & Hslot & ->).
          cbn [snd] in Hi. replace (N.to_nat (0 + N.of_nat i)) with i in Hi by lia.
          congruence. }
        split; reflexivity. }
  exists source. split; [exact Hctor |]. split; [exact Hacc |].
  split; [| split; reflexivity].
  clearbody source. intros gi g Hg.
  destruct Hacc as (_ & _ & Hbooks). specialize (Hbooks gi).
  rewrite remaining_lookup, Hg, Hall in Hbooks. cbn in Hbooks.
  destruct Hbooks as (-> & _). f_equal. apply filter_group_indices.
Qed.

(** X11: the constructor opens the books of the dispenser.  Built over
    groups that wait for no task yet, the source has no task in a worker's
    hands, every task names a group that is in place, and every group waits
    for exactly the tasks of the list that name it. *)
Theorem construction_accounted (fuel : nat) (threads : idx_t)
    (gsink gpart : WindowPartitionGlobalSinkState.t) :
  prepare_hash_groups AlignHeapBlocks gsink = Ok gpart ->
  let groups := WindowPartitionGlobalSinkState.window_hash_groups gpart in
  groups <> [] ->
  Forall populated groups ->
  Forall (fun slot => forall g, slot = Some g -> WindowHashGroup.tasks_remaining g = 0)
    groups ->
  idx.size groups <= idx.modulus ->
  0 < threads ->
  Forall (schedulable fuel threads) groups ->
  3 * total_blocks groups < idx.modulus ->
  exists source,
    WindowGlobalSourceState_ctor AlignHeapBlocks fuel threads gsink = Ok source /\
    accounted source [] /\
    (forall gi g,
        WindowPartitionGlobalSinkState.window_hash_groups
          (WindowGlobalSourceState.gsink source) !! N.to_nat gi = Some (Some g) ->
        WindowHashGroup.tasks_remaining g
        = N.of_nat (length (filter (fun k => Task.group_idx k = gi)
                              (WindowGlobalSourceState.tasks source)))).
Proof.
  intros Hprep groups Hne Hpop Hfresh Hlen Hthreads Hsched Htotal.
  destruct (construction_books fuel threads gsink gpart
              Hprep Hne Hpop Hfresh Hlen Hthreads Hsched Htotal)
    as (source & Hctor & Hacc & Hbooks & _).
  exists source. auto.
Qed.

End OpeningTheBooks.

(** Two groups of two and five blocks on two threads: the books are open,
    with three and six tasks to wait for. *)
Lemma construction_accounted_witness :
  exists source,
    WindowGlobalSourceState_ctor hand_over 5 2 two_groups = Ok source /\
    accounted source [].
Proof.
  destruct (construction_accounted hand_over 5 2 two_groups
              (WindowPartitionGlobalSinkState.set_window_hash_groups
                 (assign_batch_base 0
                    (WindowPartitionGlobalSinkState.window_hash_groups two_groups))
                 two_groups))
    as (source & Hrun & Hacc & _).
  - reflexivity.
  - discriminate.
  - repeat constructor; eexists _, _; split; reflexivity.
  - repeat constructor; intros g [= <-]; reflexivity.
  - vm_compute. discriminate.
  - reflexivity.
  - repeat constructor; vm_compute; try reflexivity; lia.
  - reflexivity.
  - exists source. split; [exact Hrun | exact Hacc].
Defined.

(** ** The barrier between FINALIZE and GETDATA *)

Lemma span_Permutation ks ks' : ks ≡ₚ ks' -> span ks = span ks'.
Proof.
  intros Hperm. induction Hperm as [|k l l' _ IH|k k' l|l l' l'' _ IH1 _ IH2]; cbn.
  - reflexivity.
  - fold (span l) (span l'). rewrite IH. reflexivity.
  - fold (span l). lia.
  - congruence.
Qed.

Lemma span_app ks ks' : span (ks ++ ks') = span ks + span ks'.
Proof.
  induction ks as [|k ks IH]; [reflexivity |].
  cbn [app span foldr]. fold (span (ks ++ ks')) (span ks). rewrite IH. lia.
Qed.

Lemma tiling_span p hi lo ranges :
  0 < p ->
  tiling p hi lo ranges ->
  foldr (fun (r : N * N) n => (r.2 - r.1) + n) 0 ranges = hi - lo.
Proof.
  intros Hp Htiling. induction Htiling as [|lo rest Hlt Hrest IH].
  - cbn. lia.
  - cbn [foldr fst snd]. rewrite IH.
    destruct (tiling_covering _ _ _ _ Hp Hrest) as [Hle _]. lia.
Qed.

Lemma span_stride_tasks per_thread stage (b : PartitionBlock) :
  (b.1 <> 0 -> 0 < per_thread) ->
  span (stride_tasks per_thread stage b) = b.1.
Proof.
  intros Hp. destruct (N.eq_dec b.1 0) as [Hz | Hnz].
  - unfold stride_tasks. rewrite Hz, ceil_div_0_l. reflexivity.
  - destruct (stride_tasks_tiling per_thread stage b Hp) as (Htiling & _).
    specialize (Htiling (Hp Hnz)).
    apply tiling_span in Htiling; [| exact (Hp Hnz)].
    rewrite N.sub_0_r in Htiling. etransitivity; [| exact Htiling].
    unfold span.
    generalize (stride_tasks per_thread stage b) as ks.
    induction ks as [|k ks IH]; [reflexivity |].
    cbn [fmap list_fmap foldr fst snd]. rewrite IH. reflexivity.
Qed.

Lemma finalize_all_finalized ks :
  forall g,
    Forall (fun k => Task.begin_idx k <= Task.end_idx k /\ Task.end_idx k < idx.modulus)
      ks ->
    WindowHashGroup.finalized g + span ks < idx.modulus ->
    finalize_all ks g
    = WindowHashGroup.set_finalized (WindowHashGroup.finalized g + span ks) g.
Proof.
  induction ks as [|k ks IH]; intros g Hall Hsmall.
  - cbn. rewrite N.add_0_r. destruct g. reflexivity.
  - apply Forall_cons in Hall as [[Hle Hend] Hall].
    cbn [span foldr] in Hsmall. fold (span ks) in Hsmall.
    change (finalize_all (k :: ks) g) with (finalize_all ks (finalize_range k g)).
    assert (finalize_range k g
            = WindowHashGroup.set_finalized
                (WindowHashGroup.finalized g + (Task.end_idx k - Task.begin_idx k)) g)
      as ->.
    { unfold finalize_range. rewrite sub_small by lia. rewrite add_small by lia.
      reflexivity. }
    rewrite IH; [| exact Hall | cbn; lia].
    cbn [span foldr]. fold (span ks). destruct g.
    unfold WindowHashGroup.set_finalized. cbn. f_equal. lia.
Qed.

Lemma span_zero ks :
  Forall (fun k => Task.begin_idx k < Task.end_idx k) ks -> span ks = 0 -> ks = [].
Proof.
  intros Hall Hzero. destruct ks as [|k ks]; [reflexivity |].
  apply Forall_cons in Hall as [Hlt _]. cbn [span foldr] in Hzero. lia.
Qed.

(** X12: a group leaves FINALIZE when the last of its FINALIZE tasks has
    been finalized and not before.  Whichever of the tasks have been
    finalized, and in whatever order, [finalized] is the number of blocks
    their ranges span, the ranges of the others span what is missing to
    [blocks], and the stage is GETDATA exactly when no task is left.
    [Finalize] also closes the range of its task, so finalizing the same task
    once more adds nothing. *)
Theorem LocalFinalize_barrier (per_thread : N) (b : PartitionBlock)
    (g : WindowHashGroup.t) (finalized rest : list Task.t) :
  (b.1 <> 0 -> 0 < per_thread) ->
  b.1 < idx.modulus ->
  WindowHashGroup.blocks g = b.1 ->
  WindowHashGroup.finalized g = 0 ->
  finalized ++ rest ≡ₚ stride_tasks per_thread FINALIZE b ->
  let g' := finalize_all finalized g in
  WindowHashGroup.finalized g' = span finalized /\
  WindowHashGroup.finalized g' + span rest = WindowHashGroup.blocks g' /\
  (WindowHashGroup.GetStage g' = GETDATA <-> rest = []) /\
  (forall k, k ∈ finalized ->
     Task.begin_idx (LocalFinalize k g').1 = Task.end_idx (LocalFinalize k g').1 /\
     (LocalFinalize (LocalFinalize k g').1 g').2 = g').
Proof.
  intros Hp Hsmall Hblocks Hzero Hperm g'.
  assert (Forall (fun k => Task.begin_idx k < Task.end_idx k /\ Task.end_idx k <= b.1)
            (finalized ++ rest)) as Hranges.
  { rewrite Hperm. apply Forall_forall. intros k Hk.
    apply stride_tasks_ranges in Hk; [| exact Hp]. tauto. }
  apply Forall_app in Hranges as [Hdone Hrest].
  assert (span finalized + span rest = b.1) as Hspan.
  { rewrite <- span_app, (span_Permutation _ _ Hperm). apply span_stride_tasks.
    exact Hp. }
  assert (g' = WindowHashGroup.set_finalized (span finalized) g) as Hg'.
  { unfold g'. rewrite finalize_all_finalized.
    - rewrite Hzero. reflexivity.
    - eapply Forall_impl; [exact Hdone |]. cbn. intros k. lia.
    - rewrite Hzero. lia. }
  rewrite Hg'.
  cbn [WindowHashGroup.finalized WindowHashGroup.blocks WindowHashGroup.set_finalized].
  split; [reflexivity |]. split; [lia |]. split.
  - unfold WindowHashGroup.GetStage.
    cbn [WindowHashGroup.finalized WindowHashGroup.blocks WindowHashGroup.sunk
         WindowHashGroup.count WindowHashGroup.set_finalized].
    rewrite Hblocks. split.
    + intros Hstage. apply span_zero.
      * eapply Forall_impl; [exact Hrest |]. cbn. intros k. lia.
      * destruct (N.eqb_spec (span finalized) b.1) as [Heq | Hne]; [lia |].
        destruct (WindowHashGroup.sunk g =? WindowHashGroup.count g); discriminate.
    + intros ->. cbn in Hspan. rewrite N.add_0_r in Hspan.
      rewrite Hspan, N.eqb_refl. reflexivity.
  - intros k Hk. split; [reflexivity |].
    rewrite Forall_forall in Hdone. destruct (Hdone k Hk) as [Hlt Hle].
    unfold LocalFinalize, finalize_range.
    cbn [fst snd Task.begin_idx Task.end_idx Task.set_begin_idx
         WindowHashGroup.finalized WindowHashGroup.set_finalized].
    rewrite sub_small by lia. rewrite N.sub_diag, add_small by lia.
    rewrite N.add_0_r. reflexivity.
Qed.

(** The two FINALIZE tasks of a two-block group on two threads: after the
    second of them alone the group is still in FINALIZE with one block
    missing. *)
Lemma LocalFinalize_barrier_witness :
  WindowHashGroup.finalized (finalize_all [Task.mk FINALIZE 0 2 1 2] fresh_group) = 1 /\
  WindowHashGroup.GetStage (finalize_all [Task.mk FINALIZE 0 2 1 2] fresh_group)
  <> GETDATA.
Proof.
  destruct (LocalFinalize_barrier 1 (2, 0) fresh_group
              [Task.mk FINALIZE 0 2 1 2] [Task.mk FINALIZE 0 2 0 1])
    as (Hcount & _ & Hstage & _).
  - intros _. reflexivity.
  - reflexivity.
  - reflexivity.
  - reflexivity.
  - vm_compute. apply perm_swap.
  - split; [exact Hcount |]. intros Hget. apply Hstage in Hget. discriminate Hget.
Defined.

(** ** Handing out tasks in a row *)

Lemma ready_set_next_task s n t :
  ready (WindowGlobalSourceState.set_next_task n s) t <-> ready s t.
Proof. reflexivity. Qed.

Lemma dispense_ready m :
  forall s n,
    WindowGlobalSourceState.stopped s = false ->
    WindowGlobalSourceState.next_task s + N.of_nat m < idx.modulus ->
    (forall i, (i < m)%nat -> ready s (WindowGlobalSourceState.next_task s + N.of_nat i)) ->
    idx.size (WindowGlobalSourceState.tasks s)
      <= WindowGlobalSourceState.next_task s + N.of_nat m
    \/ held_back s (WindowGlobalSourceState.next_task s + N.of_nat m) ->
    (m < n)%nat ->
    dispense n s
    = Ok (block_range (WindowGlobalSourceState.next_task s) m,
          WindowGlobalSourceState.set_next_task
            (WindowGlobalSourceState.next_task s + N.of_nat m) s).
Proof.
  induction m as [|m IH]; intros s n Hgo Hsmall Hready Hstop Hn;
    (destruct n as [|n]; [lia |]); cbn [dispense].
  - rewrite N.add_0_r in *. unfold TryNextTask. rewrite Hgo, orb_false_r.
    assert (WindowGlobalSourceState.set_next_task (WindowGlobalSourceState.next_task s) s
            = s) as -> by (destruct s; reflexivity).
    destruct Hstop as [Hend | (k & g & Hk & Hg & Hstage)].
    + apply N.leb_le in Hend. rewrite Hend. reflexivity.
    + assert ((idx.size (WindowGlobalSourceState.tasks s)
               <=? WindowGlobalSourceState.next_task s) = false) as ->.
      { apply N.leb_gt. apply lookup_lt_Some in Hk. unfold idx.size. lia. }
      rewrite (at_index_lookup _ _ _ Hk). cbn [mbind outcome_bind].
      rewrite (at_index_lookup _ _ _ Hg). cbn [mbind outcome_bind deref].
      rewrite decide_False by exact Hstage. reflexivity.
  - destruct (Hready 0%nat ltac:(lia)) as (k & g & Hk & Hg & Hstage).
    rewrite N.add_0_r in Hk.
    unfold TryNextTask. rewrite Hgo, orb_false_r.
    assert ((idx.size (WindowGlobalSourceState.tasks s)
             <=? WindowGlobalSourceState.next_task s) = false) as ->.
    { apply N.leb_gt. apply lookup_lt_Some in Hk. unfold idx.size. lia. }
    rewrite (at_index_lookup _ _ _ Hk). cbn [mbind outcome_bind].
    rewrite (at_index_lookup _ _ _ Hg). cbn [mbind outcome_bind deref].
    rewrite decide_True by exact Hstage. cbn [mbind outcome_bind].
    rewrite incr_small by lia.
    set (s1 := WindowGlobalSourceState.set_next_task
                 (WindowGlobalSourceState.next_task s + 1) s).
    assert (WindowGlobalSourceState.next_task s1 + N.of_nat m
            = WindowGlobalSourceState.next_task s + N.of_nat (S m)) as Hnext
      by (cbn; lia).
    rewrite (IH s1 n).
    + cbn [mbind outcome_bind]. rewrite block_range_cons, Hnext.
      destruct s; reflexivity.
    + exact Hgo.
    + lia.
    + intros i Hi. apply ready_set_next_task.
      replace (WindowGlobalSourceState.next_task s1 + N.of_nat i)
        with (WindowGlobalSourceState.next_task s + N.of_nat (S i)) by (cbn; lia).
      apply Hready. lia.
    + rewrite Hnext. exact Hstop.
    + lia.
Qed.

(** X13: tasks are handed out in the order of the task list and nothing
    overtakes a task that is held back.  When the [m] tasks from the cursor
    on are ready and the one after them is held back, or the list ends there,
    then any number of calls of [TryNextTask] beyond [m] hands out exactly
    these [m] tasks, in order, and leaves the cursor behind them, whether or
    not tasks further down the list are ready; and the next call answers
    that the caller is blocked, or that there is nothing left. *)
Theorem TryNextTask_hands_out_in_order (s : WindowGlobalSourceState.t) (m n : nat) :
  WindowGlobalSourceState.stopped s = false ->
  WindowGlobalSourceState.next_task s + N.of_nat m < idx.modulus ->
  (forall i, (i < m)%nat -> ready s (WindowGlobalSourceState.next_task s + N.of_nat i)) ->
  idx.size (WindowGlobalSourceState.tasks s)
    <= WindowGlobalSourceState.next_task s + N.of_nat m
  \/ held_back s (WindowGlobalSourceState.next_task s + N.of_nat m) ->
  (m < n)%nat ->
  let s' :=
    WindowGlobalSourceState.set_next_task
      (WindowGlobalSourceState.next_task s + N.of_nat m) s in
  dispense n s = Ok (block_range (WindowGlobalSourceState.next_task s) m, s') /\
  (held_back s (WindowGlobalSourceState.next_task s + N.of_nat m) ->
   TryNextTask s' = Ok (None, false, s')) /\
  (idx.size (WindowGlobalSourceState.tasks s)
     <= WindowGlobalSourceState.next_task s + N.of_nat m ->
   TryNextTask s' = Ok (None, true, s')).
Proof.
  intros Hgo Hsmall Hready Hstop Hn s'.
  split; [apply dispense_ready; assumption |]. split.
  - intros (k & g & Hk & Hg & Hstage). unfold TryNextTask.
    cbn [s' WindowGlobalSourceState.tasks WindowGlobalSourceState.next_task
         WindowGlobalSourceState.stopped WindowGlobalSourceState.gsink
         WindowGlobalSourceState.set_next_task].
    rewrite Hgo, orb_false_r.
    assert ((idx.size (WindowGlobalSourceState.tasks s)
             <=? WindowGlobalSourceState.next_task s + N.of_nat m) = false) as ->.
    { apply N.leb_gt. apply lookup_lt_Some in Hk. unfold idx.size. lia. }
    rewrite (at_index_lookup _ _ _ Hk). cbn [mbind outcome_bind].
    rewrite (at_index_lookup _ _ _ Hg). cbn [mbind outcome_bind deref].
    rewrite decide_False by exact Hstage. reflexivity.
  - intros Hend. unfold TryNextTask.
    cbn [s' WindowGlobalSourceState.tasks WindowGlobalSourceState.next_task
         WindowGlobalSourceState.set_next_task].
    apply N.leb_le in Hend. rewrite Hend. reflexivity.
Qed.

(** The six tasks of a fresh two-block group: the two SINK tasks are handed
    out, the first FINALIZE task is held back until the rows are sunk. *)
Lemma TryNextTask_hands_out_in_order_witness :
  dispense 6 (source_at 0 fresh_group) = Ok ([0; 1], source_at 2 fresh_group) /\
  TryNextTask (source_at 2 fresh_group) = Ok (None, false, source_at 2 fresh_group).
Proof.
  destruct (TryNextTask_hands_out_in_order (source_at 0 fresh_group) 2 6)
    as (Hrun & Hblocked & _).
  - reflexivity.
  - reflexivity.
  - intros [|[|i]] Hi; [| | lia];
      eexists _, _; (split; [reflexivity |]); split; reflexivity.
  - right. eexists _, _. split; [reflexivity |]. split; [reflexivity | discriminate].
  - lia.
  - split; [exact Hrun |]. apply Hblocked.
    eexists _, _. split; [reflexivity |]. split; [reflexivity | discriminate].
Defined.

(** ** A source without groups *)

Section WithoutGroups.

Variable AlignHeapBlocks :
  RowDataCollection.t -> RowDataCollection.t ->
  RowDataCollection.t -> RowDataCollection.t -> Aligned.t.

(** X14: over a partition without hash groups and without blocks of
    unpartitioned rows the constructor builds a source without tasks.  It
    does so whatever the number of threads, which it never divides by; the
    source offers no thread, its books are in order, and the dispenser
    answers at once that there is nothing left, without blocking. *)
Theorem WindowGlobalSourceState_ctor_without_groups (fuel : nat) (threads : idx_t)
    (gsink : WindowPartitionGlobalSinkState.t) :
  WindowPartitionGlobalSinkState.window_hash_groups gsink = [] ->
  (forall rows,
      WindowPartitionGlobalSinkState.rows gsink = Some rows ->
      RowDataCollection.blocks rows = []) ->
  let source := WindowGlobalSourceState.mk gsink [] 0 false 0 [] in
  WindowGlobalSourceState_ctor AlignHeapBlocks fuel threads gsink = Ok source /\
  WindowGlobalSourceState.MaxThreads source = 0 /\
  TryNextTask source = Ok (None, true, source) /\
  accounted source [].
Proof.
  intros Hempty Hrows source.
  assert (prepare_hash_groups AlignHeapBlocks gsink = Ok gsink) as Hprep.
  { unfold prepare_hash_groups. rewrite Hempty.
    destruct (WindowPartitionGlobalSinkState.rows gsink) as [rows|]; [| reflexivity].
    rewrite (Hrows rows eq_refl). reflexivity. }
  split; [| split; [reflexivity | split; [reflexivity |]]].
  - unfold WindowGlobalSourceState_ctor. rewrite Hprep. cbn [mbind outcome_bind].
    rewrite Hempty. reflexivity.
  - split; [reflexivity |]. split; [constructor |].
    intros gi. unfold remaining.
    cbn [source WindowGlobalSourceState.gsink]. rewrite Hempty.
    split; reflexivity.
Qed.

End WithoutGroups.

(** The source over a partition that sank no row, built for no thread. *)
Lemma WindowGlobalSourceState_ctor_without_groups_witness :
  WindowGlobalSourceState_ctor hand_over 0 0 empty_partition
  = Ok (WindowGlobalSourceState.mk empty_partition [] 0 false 0 []).
Proof.
  destruct (WindowGlobalSourceState_ctor_without_groups hand_over 0 0 empty_partition)
    as (Hrun & _).
  - reflexivity.
  - intros rows Hrows. discriminate Hrows.
  - exact Hrun.
Defined.

(** * The worker *)

(** ** What the worker's writes leave alone *)

Lemma set_task_work s task k k' :
  WindowGlobalSourceState.tasks s !! N.to_nat task = Some k ->
  Task.group_idx k' = Task.group_idx k ->
  work s (set_task task k' s).
Proof.
  intros Hk Hgroup. split; [| split; reflexivity].
  unfold group_indices, set_task. cbn [WindowGlobalSourceState.tasks].
  rewrite list_fmap_insert, Hgroup. apply list_insert_id.
  rewrite list_lookup_fmap, Hk. reflexivity.
Qed.

Lemma set_group_work s group_idx g g' :
  WindowPartitionGlobalSinkState.window_hash_groups (WindowGlobalSourceState.gsink s)
    !! N.to_nat group_idx = Some (Some g) ->
  WindowHashGroup.tasks_remaining g' = WindowHashGroup.tasks_remaining g ->
  work s (set_group group_idx g' s).
Proof.
  intros Hg Hr. split; [reflexivity |]. split; [reflexivity |].
  unfold remaining, set_group.
  cbn [WindowGlobalSourceState.gsink WindowGlobalSourceState.set_gsink
       WindowPartitionGlobalSinkState.window_hash_groups
       WindowPartitionGlobalSinkState.set_window_hash_groups].
  rewrite list_fmap_insert. cbn [fmap option_fmap option_map]. rewrite Hr.
  apply list_insert_id. rewrite list_lookup_fmap, Hg. reflexivity.
Qed.

Lemma work_refl s : work s s.
Proof. repeat split. Qed.

Lemma work_trans s1 s2 s3 : work s1 s2 -> work s2 s3 -> work s1 s3.
Proof.
  intros (H1 & H2 & H3) (H1' & H2' & H3'). repeat split; congruence.
Qed.

Lemma source_ok_set_task s out task k k' :
  source_ok s out ->
  WindowGlobalSourceState.tasks s !! N.to_nat task = Some k ->
  Task.group_idx k' = Task.group_idx k ->
  Task.stage k' = Task.stage k ->
  Task.end_idx k' = Task.end_idx k ->
  Task.begin_idx k' <= Task.end_idx k' ->
  source_ok (set_task task k' s) out.
Proof.
  intros (Hacc & Htasks & Hgroups) Hk Hgroup Hstage Hend Hrange.
  split; [| split].
  - eapply accounted_work; [| exact Hacc]. eapply set_task_work; eassumption.
  - unfold set_task. cbn [WindowGlobalSourceState.tasks].
    apply Forall_insert; [exact Htasks |].
    rewrite Forall_forall in Htasks.
    specialize (Htasks k (list_elem_of_lookup_2 _ _ _ Hk)).
    rewrite Hstage. split; [tauto |]. split; [exact Hrange |].
    rewrite Hend. tauto.
  - exact Hgroups.
Qed.

Lemma source_ok_set_group s out group_idx g g' :
  source_ok s out ->
  WindowPartitionGlobalSinkState.window_hash_groups (WindowGlobalSourceState.gsink s)
    !! N.to_nat group_idx = Some (Some g) ->
  WindowHashGroup.tasks_remaining g' = WindowHashGroup.tasks_remaining g ->
  WindowHashGroup.rows g' = WindowHashGroup.rows g ->
  WindowHashGroup.heap g' = WindowHashGroup.heap g ->
  source_ok (set_group group_idx g' s) out.
Proof.
  intros (Hacc & Htasks & Hgroups) Hg Hr Hrows Hheap.
  split; [| split].
  - eapply accounted_work; [| exact Hacc]. eapply set_group_work; eassumption.
  - exact Htasks.
  - unfold set_group.
    cbn [WindowGlobalSourceState.gsink WindowGlobalSourceState.set_gsink
         WindowPartitionGlobalSinkState.window_hash_groups
         WindowPartitionGlobalSinkState.set_window_hash_groups].
    apply Forall_insert; [exact Hgroups |].
    rewrite Forall_forall in Hgroups.
    specialize (Hgroups _ (list_elem_of_lookup_2 _ _ _ Hg) g eq_refl).
    intros g0 [= <-]. rewrite Hrows, Hheap. exact Hgroups.
Qed.

Lemma source_ok_live s out task k :
  source_ok s out ->
  task ∈ out ->
  WindowGlobalSourceState.tasks s !! N.to_nat task = Some k ->
  exists g rows heap,
    WindowPartitionGlobalSinkState.window_hash_groups (WindowGlobalSourceState.gsink s)
      !! N.to_nat (Task.group_idx k) = Some (Some g) /\
    WindowHashGroup.rows g = Some rows /\
    WindowHashGroup.heap g = Some heap.
Proof.
  intros (Hacc & _ & Hgroups) Hin Hk.
  apply list_elem_of_split in Hin as (l1 & l2 & ->).
  assert (0 < unfinished (Task.group_idx k) s (l1 ++ task :: l2))%nat as Hpos.
  { rewrite (unfinished_held s l1 task l2 k Hk), decide_True by reflexivity. lia. }
  destruct (accounted_live s _ _ Hacc Hpos) as (g & Hg & _).
  rewrite Forall_forall in Hgroups.
  destruct (Hgroups _ (list_elem_of_lookup_2 _ _ _ Hg) g eq_refl)
    as [[rows Hrows] [heap Hheap]].
  exists g, rows, heap. auto.
Qed.

Lemma FinishTask_equipped s task s1 :
  FinishTask task s = Ok s1 ->
  Forall equipped
    (WindowPartitionGlobalSinkState.window_hash_groups (WindowGlobalSourceState.gsink s)) ->
  Forall equipped
    (WindowPartitionGlobalSinkState.window_hash_groups (WindowGlobalSourceState.gsink s1)).
Proof.
  intros Hrun Hgroups. destruct task as [task|]; [| injection Hrun as <-; exact Hgroups].
  unfold FinishTask in Hrun.
  destruct (at_index (WindowGlobalSourceState.tasks s) task) as [k|]; [| discriminate].
  cbn [mbind outcome_bind] in Hrun.
  destruct (at_index _ (Task.group_idx k)) as [slot|] eqn:Hslot; [| discriminate].
  cbn [mbind outcome_bind] in Hrun.
  destruct slot as [g|]; [| discriminate]. cbn [deref mbind outcome_bind] in Hrun.
  injection Hrun as <-.
  cbn [WindowGlobalSourceState.gsink WindowGlobalSourceState.set_gsink
       WindowPartitionGlobalSinkState.window_hash_groups
       WindowPartitionGlobalSinkState.set_window_hash_groups].
  apply Forall_insert; [exact Hgroups |].
  unfold at_index in Hslot.
  destruct (_ !! N.to_nat (Task.group_idx k)) as [slot|] eqn:Hg; [| discriminate].
  injection Hslot as ->.
  rewrite Forall_forall in Hgroups.
  specialize (Hgroups _ (list_elem_of_lookup_2 _ _ _ Hg) g eq_refl).
  destruct (_ =? 0); intros g0 [= <-]. exact Hgroups.
Qed.

Lemma FinishTask_source_ok s l1 task l2 :
  source_ok s (l1 ++ task :: l2) ->
  exists s1,
    FinishTask (Some task) s = Ok s1 /\
    source_ok s1 (l1 ++ l2) /\
    WindowGlobalSourceState.tasks s1 = WindowGlobalSourceState.tasks s /\
    WindowGlobalSourceState.next_task s1 = WindowGlobalSourceState.next_task s.
Proof.
  intros (Hacc & Htasks & Hgroups).
  destruct (FinishTask_accounted s l1 task l2 Hacc) as (s1 & Hrun & Hacc1 & Ht & Hn).
  exists s1. split; [exact Hrun |]. split; [| split; assumption].
  split; [exact Hacc1 |]. split; [rewrite Ht; exact Htasks |].
  eapply FinishTask_equipped; eassumption.
Qed.

Lemma set_task_id s task k :
  WindowGlobalSourceState.tasks s !! N.to_nat task = Some k ->
  set_task task k s = s.
Proof.
  intros Hk. unfold set_task. rewrite list_insert_id by exact Hk.
  destruct s. reflexivity.
Qed.

Lemma set_group_id s group_idx g :
  WindowPartitionGlobalSinkState.window_hash_groups (WindowGlobalSourceState.gsink s)
    !! N.to_nat group_idx = Some (Some g) ->
  set_group group_idx g s = s.
Proof.
  intros Hg. unfold set_group. rewrite list_insert_id by exact Hg.
  apply set_window_hash_groups_id.
Qed.

Lemma set_task_set_task s task k k' :
  set_task task k' (set_task task k s) = set_task task k' s.
Proof.
  unfold set_task. cbn. rewrite list_insert_insert_eq. reflexivity.
Qed.

Lemma set_group_set_group s group_idx g g' :
  set_group group_idx g' (set_group group_idx g s) = set_group group_idx g' s.
Proof.
  unfold set_group. cbn. rewrite list_insert_insert_eq. reflexivity.
Qed.

Lemma set_group_set_task s group_idx g task k :
  set_group group_idx g (set_task task k s) = set_task task k (set_group group_idx g s).
Proof. reflexivity. Qed.

Lemma set_task_lookup s task k k' :
  WindowGlobalSourceState.tasks s !! N.to_nat task = Some k ->
  WindowGlobalSourceState.tasks (set_task task k' s) !! N.to_nat task = Some k'.
Proof.
  intros Hk. unfold set_task. cbn [WindowGlobalSourceState.tasks].
  apply list_lookup_insert_eq. eapply lookup_lt_Some. exact Hk.
Qed.

Lemma set_group_lookup s group_idx g g' :
  WindowPartitionGlobalSinkState.window_hash_groups (WindowGlobalSourceState.gsink s)
    !! N.to_nat group_idx = Some (Some g) ->
  WindowPartitionGlobalSinkState.window_hash_groups
    (WindowGlobalSourceState.gsink (set_group group_idx g' s)) !! N.to_nat group_idx
  = Some (Some g').
Proof.
  intros Hg. unfold set_group. cbn.
  apply list_lookup_insert_eq. eapply lookup_lt_Some. exact Hg.
Qed.

Lemma sunk_after_rows Count n :
  forall block_idx sunk,
    sunk < idx.modulus ->
    sunk_after Count block_idx n sunk = idx.wrap (sunk + rows_in Count block_idx n).
Proof.
  induction n as [|n IH]; intros block_idx sunk Hsmall; cbn [sunk_after rows_in].
  - rewrite N.add_0_r, wrap_small by exact Hsmall. reflexivity.
  - unfold drained. destruct (N.eqb_spec (Count block_idx) 0) as [-> | Hne].
    + rewrite IH by exact Hsmall. reflexivity.
    + rewrite IH.
      * unfold idx.add. fold (idx.add (idx.wrap (sunk + Count block_idx))
                                (rows_in Count (block_idx + 1) n)).
        rewrite add_wrap_l. f_equal. lia.
      * apply N.mod_upper_bound. discriminate.
Qed.

(** ** The steps of the worker and the protocol *)

Lemma GetBuildScanner_rows g rows heap block_idx :
  WindowHashGroup.rows g = Some rows ->
  WindowHashGroup.heap g = Some heap ->
  GetBuildScanner g block_idx = Ok (Some (RowDataCollectionScanner.mk block_idx false)).
Proof. intros Hrows Hheap. unfold GetBuildScanner. rewrite Hrows, Hheap. reflexivity. Qed.

Lemma group_of_lookup s group_idx g :
  WindowPartitionGlobalSinkState.window_hash_groups (WindowGlobalSourceState.gsink s)
    !! N.to_nat group_idx = Some (Some g) ->
  group_of s (Some group_idx) = Ok g.
Proof.
  intros Hg. unfold group_of. cbn [deref mbind outcome_bind].
  rewrite (at_index_lookup _ _ _ Hg). reflexivity.
Qed.


Lemma protocol_trans s1 out1 s2 out2 s3 out3 :
  protocol s1 out1 s2 out2 -> protocol s2 out2 s3 out3 -> protocol s1 out1 s3 out3.
Proof.
  intros H12 H23.
  induction H12 as [s out | s out task flag s1 s' out' Hstep _ IH
                    | s l1 t l2 s1 s' out' Hstep _ IH
                    | s out s1 s' out' Hwork _ IH].
  - exact H23.
  - eapply protocol_next; [exact Hstep | exact (IH H23)].
  - eapply protocol_finish; [exact Hstep | exact (IH H23)].
  - eapply protocol_work; [exact Hwork | exact (IH H23)].
Qed.

Lemma protocol_work_step s out s1 : work s s1 -> protocol s out s1 out.
Proof. intros Hwork. eapply protocol_work; [exact Hwork | apply protocol_here]. Qed.

Lemma TryNextTask_source_ok s out :
  source_ok s out ->
  (exists flag, TryNextTask s = Ok (None, flag, s)) \/
  (exists k,
      WindowGlobalSourceState.tasks s !! N.to_nat (WindowGlobalSourceState.next_task s)
        = Some k /\
      TryNextTask s
      = Ok (Some (WindowGlobalSourceState.next_task s), true,
            WindowGlobalSourceState.set_next_task
              (WindowGlobalSourceState.next_task s + 1) s) /\
      source_ok
        (WindowGlobalSourceState.set_next_task
           (WindowGlobalSourceState.next_task s + 1) s)
        (WindowGlobalSourceState.next_task s :: out)).
Proof.
  intros (Hacc & Htasks & Hgroups).
  destruct (TryNextTask_accounted s out Hacc) as (task & flag & s1 & Hrun & Hacc1).
  pose proof Hacc as (Hsize & _).
  revert Hrun. unfold TryNextTask.
  destruct (idx.size (WindowGlobalSourceState.tasks s)
            <=? WindowGlobalSourceState.next_task s) eqn:Hend;
    [intros _; left; eexists; reflexivity |].
  destruct (WindowGlobalSourceState.stopped s);
    [intros _; left; eexists; reflexivity |].
  cbn [orb]. apply N.leb_gt in Hend.
  destruct (at_index (WindowGlobalSourceState.tasks s)
              (WindowGlobalSourceState.next_task s)) as [k|] eqn:Hk; [| discriminate].
  cbn [mbind outcome_bind].
  destruct (at_index _ (Task.group_idx k)) as [[g|]|]; cbn [mbind outcome_bind deref];
    [| discriminate | discriminate].
  case_decide; [| intros _; left; eexists; reflexivity].
  rewrite incr_small by lia. intros [= <- <- <-]. right.
  unfold at_index in Hk.
  destruct (_ !! N.to_nat (WindowGlobalSourceState.next_task s)) as [k'|] eqn:Hk';
    [| discriminate].
  injection Hk as ->. exists k. split; [reflexivity |]. split; [reflexivity |].
  split; [exact Hacc1 |]. split; [exact Htasks | exact Hgroups].
Qed.

Lemma FinishHashGroup_ok s w out prev_task :
  source_ok s out ->
  (forall p, prev_task = Some p -> p ∈ out) ->
  exists s1 out1,
    FinishHashGroup prev_task (s, w) = Ok (s1, Worker.reset_scanner w) /\
    source_ok s1 out1 /\
    protocol s out s1 out1 /\
    WindowGlobalSourceState.tasks s1 = WindowGlobalSourceState.tasks s /\
    WindowGlobalSourceState.next_task s1 = WindowGlobalSourceState.next_task s /\
    (forall t, t ∈ out -> prev_task <> Some t -> t ∈ out1).
Proof.
  intros Hs Hprev. unfold FinishHashGroup. cbn [fst snd].
  destruct prev_task as [p|].
  - destruct (list_elem_of_split _ _ (Hprev p eq_refl)) as (l1 & l2 & ->).
    destruct (FinishTask_source_ok s l1 p l2 Hs) as (s1 & Hrun & Hs1 & Ht & Hn).
    exists s1, (l1 ++ l2). rewrite Hrun. split; [reflexivity |].
    split; [exact Hs1 |]. split.
    + eapply protocol_finish; [exact Hrun | apply protocol_here].
    + split; [exact Ht |]. split; [exact Hn |].
      intros t Hin Hne. rewrite elem_of_app, elem_of_cons in Hin.
      rewrite elem_of_app. destruct Hin as [Hin | [-> | Hin]]; [auto | congruence | auto].
  - exists s, out. split; [reflexivity |]. split; [exact Hs |].
    split; [apply protocol_here |]. auto.
Qed.

Lemma BeginHashGroup_ok s w out task k :
  source_ok s out ->
  Worker.task w = Some task ->
  task ∈ out ->
  WindowGlobalSourceState.tasks s !! N.to_nat task = Some k ->
  BeginHashGroup (s, w)
  = Ok (s, Worker.set_window_hash_group (Some (Task.group_idx k)) w).
Proof.
  intros Hs Htask Hin Hk. unfold BeginHashGroup. cbn [fst snd]. rewrite Htask.
  rewrite (at_index_lookup _ _ _ Hk). cbn [mbind outcome_bind].
  destruct (source_ok_live s out task k Hs Hin Hk) as (g & _ & _ & Hg & _).
  rewrite (at_index_lookup _ _ _ Hg). reflexivity.
Qed.

Lemma Finalize_runs s w task k group_idx g :
  Worker.task w = Some task ->
  Worker.window_hash_group w = Some group_idx ->
  WindowGlobalSourceState.tasks s !! N.to_nat task = Some k ->
  WindowPartitionGlobalSinkState.window_hash_groups (WindowGlobalSourceState.gsink s)
    !! N.to_nat group_idx = Some (Some g) ->
  WindowLocalSourceState_Finalize (s, w)
  = Ok (set_task task (Task.set_begin_idx (Task.end_idx k) k)
          (set_group group_idx (finalize_range k g) s), w).
Proof.
  intros Htask Hgroup Hk Hg. unfold WindowLocalSourceState_Finalize. cbn [fst snd].
  rewrite Hgroup. cbn [deref mbind outcome_bind].
  rewrite (group_of_lookup _ _ _ Hg). cbn [mbind outcome_bind].
  rewrite Htask. cbn [deref mbind outcome_bind].
  rewrite (at_index_lookup _ _ _ Hk). reflexivity.
Qed.

(** The state after the worker has gone through the range of its task and
    moved a counter of the group. *)
Lemma worked_ok s w out task k group_idx g g' :
  source_ok s out ->
  worker_ok s w out ->
  Worker.task w = Some task ->
  Worker.scanner w = None ->
  WindowGlobalSourceState.tasks s !! N.to_nat task = Some k ->
  WindowPartitionGlobalSinkState.window_hash_groups (WindowGlobalSourceState.gsink s)
    !! N.to_nat group_idx = Some (Some g) ->
  WindowHashGroup.tasks_remaining g' = WindowHashGroup.tasks_remaining g ->
  WindowHashGroup.rows g' = WindowHashGroup.rows g ->
  WindowHashGroup.heap g' = WindowHashGroup.heap g ->
  let s' := set_task task (Task.set_begin_idx (Task.end_idx k) k)
              (set_group group_idx g' s) in
  source_ok s' out /\
  (forall w', Worker.task w' = Worker.task w ->
              Worker.window_hash_group w' = Worker.window_hash_group w ->
              Worker.scanner w' = None ->
              worker_ok s' w' out) /\
  protocol s out s' out /\
  WindowGlobalSourceState.next_task s' = WindowGlobalSourceState.next_task s /\
  length (WindowGlobalSourceState.tasks s') = length (WindowGlobalSourceState.tasks s) /\
  work s s'.
Proof.
  intros Hs Hw Htask Hscanner Hk Hg Hr Hrows Hheap s'.
  assert (source_ok (set_group group_idx g' s) out) as Hs1
    by (eapply source_ok_set_group; eassumption).
  assert (source_ok s' out) as Hs'.
  { eapply source_ok_set_task; [exact Hs1 | exact Hk | | | |];
      try reflexivity; cbn; lia. }
  split; [exact Hs' |]. split; [| split; [| split; [| split]]].
  - intros w' Htask' Hgroup' Hscanner'. split.
    + intros t Ht. rewrite Htask' in Ht. destruct Hw as [Ha _].
      destruct (Ha t Ht) as (Hin & k0 & Hk0 & Hgroup0).
      split; [exact Hin |]. rewrite Htask in Ht. injection Ht as <-.
      rewrite Hk in Hk0. injection Hk0 as <-.
      exists (Task.set_begin_idx (Task.end_idx k) k).
      split; [apply (set_task_lookup _ _ k); exact Hk |].
      rewrite Hgroup'. exact Hgroup0.
    + intros scanner Hsc. rewrite Hscanner' in Hsc. discriminate.
  - eapply protocol_trans; apply protocol_work_step.
    + eapply set_group_work; eassumption.
    + eapply (set_task_work _ _ k); [exact Hk | reflexivity].
  - reflexivity.
  - unfold s', set_task. cbn [WindowGlobalSourceState.tasks].
    apply length_insert.
  - eapply work_trans.
    + eapply set_group_work; eassumption.
    + eapply (set_task_work _ _ k); [exact Hk | reflexivity].
Qed.

(** ** Sinking the blocks of a task *)

Section WorkerRuns.

Variable Count : RowDataCollection.t -> idx_t -> idx_t.
Variable Scan : idx_t -> idx_t.

(** What the worker takes for granted of the scanner: a block has no more
    rows than [idx_t] counts, and a scan delivers some of the rows that are
    left, and not none as long as there is one. *)
Hypothesis Count_fits : forall rows block_idx, Count rows block_idx < idx.modulus.
Hypothesis Scan_some : forall remaining,
  Scan remaining <= remaining /\ (0 < remaining -> 0 < Scan remaining).

Lemma sink_block_runs fuel :
  forall remaining g,
    remaining < idx.modulus ->
    (N.to_nat remaining < fuel)%nat ->
    sink_block Scan fuel remaining g
    = Ok (WindowHashGroup.set_sunk (drained remaining (WindowHashGroup.sunk g)) g).
Proof.
  induction fuel as [|fuel IH]; intros r g Hsmall Hfuel; [lia |].
  cbn [sink_block]. destruct (Scan_some r) as [Hle Hpos].
  destruct (N.eqb_spec (Scan r) 0) as [Hnone | Hsome].
  - assert (r = 0) as -> by lia. destruct g. reflexivity.
  - rewrite sub_small by lia. rewrite IH by lia.
    unfold sink_chunk, drained.
    cbn [WindowHashGroup.sunk WindowHashGroup.set_sunk].
    assert ((r =? 0) = false) as -> by (apply N.eqb_neq; lia).
    destruct (N.eqb_spec (r - Scan r) 0) as [Hdone | Hmore].
    + replace (Scan r) with r by lia. destruct g. reflexivity.
    + unfold idx.add at 1. fold (idx.wrap (WindowHashGroup.sunk g + Scan r)).
      unfold idx.add at 1.
      change (idx.wrap (idx.wrap (WindowHashGroup.sunk g + Scan r) + (r - Scan r)))
        with (idx.add (idx.wrap (WindowHashGroup.sunk g + Scan r)) (r - Scan r)).
      rewrite add_wrap_l.
      replace (WindowHashGroup.sunk g + Scan r + (r - Scan r))
        with (WindowHashGroup.sunk g + r) by lia.
      destruct g. reflexivity.
Qed.

Lemma Sink_runs n :
  forall s w task k group_idx g rows heap,
    Worker.task w = Some task ->
    Worker.window_hash_group w = Some group_idx ->
    WindowGlobalSourceState.tasks s !! N.to_nat task = Some k ->
    WindowPartitionGlobalSinkState.window_hash_groups (WindowGlobalSourceState.gsink s)
      !! N.to_nat group_idx = Some (Some g) ->
    WindowHashGroup.rows g = Some rows ->
    WindowHashGroup.heap g = Some heap ->
    Task.begin_idx k + N.of_nat n = Task.end_idx k ->
    Task.end_idx k < idx.modulus ->
    exists F, forall fuel, (F <= fuel)%nat ->
      WindowLocalSourceState_Sink Count Scan fuel (s, w)
      = Ok (set_task task (Task.set_begin_idx (Task.end_idx k) k)
              (set_group group_idx
                 (WindowHashGroup.set_sunk
                    (sunk_after (Count rows) (Task.begin_idx k) n
                       (WindowHashGroup.sunk g)) g)
                 s),
            match n with O => w | S _ => Worker.reset_scanner w end).
Proof.
  induction n as [|n IH];
    intros s w task k group_idx g rows heap Htask Hgroup Hk Hg Hrows Hheap Hrange Hend.
  - exists 0%nat. intros fuel _.
    assert (WindowLocalSourceState_Sink Count Scan fuel (s, w) = Ok (s, w)) as ->.
    { destruct fuel; cbn [WindowLocalSourceState_Sink fst snd];
        rewrite Htask; cbn [deref mbind outcome_bind];
        rewrite (at_index_lookup _ _ _ Hk); cbn [mbind outcome_bind];
        (assert ((Task.begin_idx k <? Task.end_idx k) = false) as ->
           by (apply N.ltb_ge; lia)); reflexivity. }
    cbn [sunk_after].
    assert (WindowHashGroup.set_sunk (WindowHashGroup.sunk g) g = g) as ->
      by (destruct g; reflexivity).
    assert (Task.set_begin_idx (Task.end_idx k) k = k) as ->.
    { destruct k. cbn in *. unfold Task.set_begin_idx. cbn. f_equal. lia. }
    rewrite (set_group_id _ _ _ Hg), (set_task_id _ _ _ Hk). reflexivity.
  - set (b := Task.begin_idx k) in *.
    set (g1 := WindowHashGroup.set_sunk
                 (drained (Count rows b) (WindowHashGroup.sunk g)) g).
    set (k1 := Task.set_begin_idx (b + 1) k).
    set (s1 := set_task task k1 (set_group group_idx g1 s)).
    destruct (IH s1 (Worker.reset_scanner w) task k1 group_idx g1 rows heap)
      as [F HF].
    + exact Htask.
    + exact Hgroup.
    + apply (set_task_lookup _ _ k). exact Hk.
    + unfold s1. rewrite <- set_group_set_task. apply (set_group_lookup _ _ g).
      exact Hg.
    + exact Hrows.
    + exact Hheap.
    + cbn. fold b. lia.
    + exact Hend.
    + exists (S (Nat.max F (S (N.to_nat (Count rows b))))).
      intros [|fuel] Hfuel; [lia |].
      cbn [WindowLocalSourceState_Sink fst snd].
      rewrite Htask. cbn [deref mbind outcome_bind].
      rewrite (at_index_lookup _ _ _ Hk). cbn [mbind outcome_bind]. fold b.
      assert ((b <? Task.end_idx k) = true) as -> by (apply N.ltb_lt; lia).
      rewrite Hgroup. cbn [deref mbind outcome_bind].
      rewrite (group_of_lookup _ _ _ Hg). cbn [mbind outcome_bind].
      rewrite (GetBuildScanner_rows g rows heap b Hrows Hheap).
      cbn [mbind outcome_bind]. rewrite Hrows.
      rewrite sink_block_runs by (try apply Count_fits; lia).
      cbn [mbind outcome_bind]. fold g1.
      rewrite incr_small by lia. fold k1 s1.
      rewrite HF by lia. f_equal. f_equal.
      * unfold s1. rewrite set_group_set_task, set_task_set_task, set_group_set_group.
        clear. subst k1 g1 b. destruct k, g. reflexivity.
      * destruct n; reflexivity.
Qed.

(** X15: [Sink] sinks the rows of the blocks of its task and of no other.
    Over a group with rows it scans the blocks of the range one after the
    other to the end, adds the rows of each to [sunk] (modulo [2^64]), and
    leaves the task with its range used up and the worker without a scanner;
    nothing else changes.  Over a group without rows it stops at the first
    block: the counter and the range of the task stay as they are. *)
Theorem Sink_sinks_its_range (s : WindowGlobalSourceState.t) (w : Worker.t)
    (task : idx_t) (k : Task.t) (group_idx : idx_t) (g : WindowHashGroup.t) :
  Worker.task w = Some task ->
  Worker.window_hash_group w = Some group_idx ->
  WindowGlobalSourceState.tasks s !! N.to_nat task = Some k ->
  WindowPartitionGlobalSinkState.window_hash_groups (WindowGlobalSourceState.gsink s)
    !! N.to_nat group_idx = Some (Some g) ->
  Task.begin_idx k <= Task.end_idx k ->
  Task.end_idx k < idx.modulus ->
  WindowHashGroup.sunk g < idx.modulus ->
  let n := N.to_nat (Task.end_idx k - Task.begin_idx k) in
  (forall rows heap,
      WindowHashGroup.rows g = Some rows ->
      WindowHashGroup.heap g = Some heap ->
      exists fuel, forall fuel', (fuel <= fuel')%nat ->
        WindowLocalSourceState_Sink Count Scan fuel' (s, w)
        = Ok (set_task task (Task.set_begin_idx (Task.end_idx k) k)
                (set_group group_idx
                   (WindowHashGroup.set_sunk
                      (idx.wrap (WindowHashGroup.sunk g
                                 + rows_in (Count rows) (Task.begin_idx k) n)) g)
                   s),
              if decide (n = 0%nat) then w else Worker.reset_scanner w)) /\
  (WindowHashGroup.rows g = None ->
   Task.begin_idx k < Task.end_idx k ->
   forall fuel,
     WindowLocalSourceState_Sink Count Scan (S fuel) (s, w)
     = Ok (s, Worker.reset_scanner w)).
Proof.
  intros Htask Hgroup Hk Hg Hrange Hend Hsunk n. split.
  - intros rows heap Hrows Hheap.
    destruct (Sink_runs n s w task k group_idx g rows heap
                Htask Hgroup Hk Hg Hrows Hheap) as [F HF]; [unfold n; lia | exact Hend |].
    exists F. intros fuel' Hfuel. rewrite (HF fuel' Hfuel).
    rewrite sunk_after_rows by exact Hsunk. destruct n; reflexivity.
  - intros Hrows Hlt fuel. cbn [WindowLocalSourceState_Sink fst snd].
    rewrite Htask. cbn [deref mbind outcome_bind].
    rewrite (at_index_lookup _ _ _ Hk). cbn [mbind outcome_bind].
    apply N.ltb_lt in Hlt. rewrite Hlt, Hgroup. cbn [deref mbind outcome_bind].
    rewrite (group_of_lookup _ _ _ Hg). cbn [mbind outcome_bind].
    unfold GetBuildScanner. rewrite Hrows. reflexivity.
Qed.

(** ** The barrier between SINK and FINALIZE *)

Lemma rows_in_app (count_of : idx_t -> idx_t) n m :
  forall lo,
    rows_in count_of lo (n + m)
    = rows_in count_of lo n + rows_in count_of (lo + N.of_nat n) m.
Proof.
  induction n as [|n IH]; intros lo.
  - cbn [rows_in Nat.add N.of_nat]. rewrite N.add_0_r. reflexivity.
  - cbn [rows_in Nat.add]. rewrite IH.
    replace (lo + 1 + N.of_nat n) with (lo + N.of_nat (S n)) by lia. lia.
Qed.

Lemma rows_in_pos (count_of : idx_t -> idx_t) n lo :
  (0 < n)%nat -> 0 < count_of lo -> 0 < rows_in count_of lo n.
Proof. intros Hn Hlo. destruct n; [lia |]. cbn [rows_in]. lia. Qed.

Lemma tiling_rows (count_of : idx_t -> idx_t) p hi lo ranges :
  0 < p ->
  tiling p hi lo ranges ->
  foldr (fun (r : N * N) n => rows_in count_of r.1 (N.to_nat (r.2 - r.1)) + n) 0 ranges
  = rows_in count_of lo (N.to_nat (hi - lo)).
Proof.
  intros Hp Htiling. induction Htiling as [|lo rest Hlt Hrest IH].
  - rewrite N.sub_diag. reflexivity.
  - cbn [foldr fst snd]. rewrite IH.
    destruct (tiling_covering _ _ _ _ Hp Hrest) as [Hle _].
    set (m := N.min (lo + p) hi) in *.
    replace (N.to_nat (hi - lo)) with (N.to_nat (m - lo) + N.to_nat (hi - m))%nat
      by lia.
    rewrite rows_in_app. replace (lo + N.of_nat (N.to_nat (m - lo))) with m by lia.
    reflexivity.
Qed.

Lemma rows_of_stride_tasks (count_of : idx_t -> idx_t) per_thread stage
    (b : PartitionBlock) :
  0 < per_thread ->
  rows_of count_of (stride_tasks per_thread stage b)
  = rows_in count_of 0 (N.to_nat b.1).
Proof.
  intros Hp.
  destruct (stride_tasks_tiling per_thread stage b (fun _ => Hp)) as (Htiling & _).
  specialize (Htiling Hp). apply (tiling_rows count_of) in Htiling; [| exact Hp].
  rewrite N.sub_0_r in Htiling. etransitivity; [| exact Htiling].
  unfold rows_of.
  generalize (stride_tasks per_thread stage b) as ks.
  induction ks as [|k ks IH]; [reflexivity |].
  cbn [fmap list_fmap foldr fst snd]. rewrite IH. reflexivity.
Qed.

Lemma rows_of_Permutation (count_of : idx_t -> idx_t) ks ks' :
  ks ≡ₚ ks' -> rows_of count_of ks = rows_of count_of ks'.
Proof.
  intros Hperm. induction Hperm as [|k l l' _ IH|k k' l|l l' l'' _ IH1 _ IH2]; cbn.
  - reflexivity.
  - fold (rows_of count_of l) (rows_of count_of l'). rewrite IH. reflexivity.
  - fold (rows_of count_of l). lia.
  - congruence.
Qed.

Lemma rows_of_app (count_of : idx_t -> idx_t) ks ks' :
  rows_of count_of (ks ++ ks') = rows_of count_of ks + rows_of count_of ks'.
Proof.
  induction ks as [|k ks IH]; [reflexivity |].
  cbn [app rows_of foldr]. fold (rows_of count_of (ks ++ ks')) (rows_of count_of ks).
  rewrite IH. lia.
Qed.

Lemma Forall2_lookup_ext {A B} (f f' : A -> option B) ts ks :
  Forall2 (fun t k => f t = Some k) ts ks ->
  (forall t, t ∈ ts -> f' t = f t) ->
  Forall2 (fun t k => f' t = Some k) ts ks.
Proof.
  intros Hall. induction Hall as [|t k ts ks Hk _ IH]; intros Hext; constructor.
  - rewrite Hext; [exact Hk | left].
  - apply IH. intros t' Ht'. apply Hext. right. exact Ht'.
Qed.

(** ** The loop that looks for a task *)

Lemma looking_scanner s w out :
  worker_ok s w out ->
  (exists p k,
      Worker.task w = Some p /\
      WindowGlobalSourceState.tasks s !! N.to_nat p = Some k /\
      task_exhausted k = false /\
      looking_for_task (s, w) = Ok false) \/
  (looking_for_task (s, w) = Ok true /\ Worker.scanner w = None).
Proof.
  intros [Ha Hb]. unfold looking_for_task. cbn [fst snd].
  destruct (Worker.task w) as [p|] eqn:Hp.
  - destruct (Ha p eq_refl) as (_ & k & Hk & _).
    rewrite (at_index_lookup _ _ _ Hk). cbn [mbind outcome_bind].
    destruct (task_exhausted k) eqn:Hex.
    + right. split; [reflexivity |].
      destruct (Worker.scanner w) as [sc|] eqn:Hsc; [| reflexivity].
      destruct (Hb sc eq_refl) as (p' & k' & _ & [= <-] & Hk' & Hstage & Hlt & _).
      rewrite Hk in Hk'. injection Hk' as <-.
      unfold task_exhausted in Hex. rewrite Hstage in Hex.
      apply N.leb_gt in Hlt. rewrite Hlt in Hex.
      rewrite bool_decide_eq_true_2 in Hex by reflexivity. discriminate Hex.
    + left. exists p, k. auto.
  - right. split; [reflexivity |].
    destruct (Worker.scanner w) as [sc|] eqn:Hsc; [| reflexivity].
    destruct (Hb sc eq_refl) as (p' & k' & _ & Hp' & _). discriminate Hp'.
Qed.

Lemma enter_group_ok s w out prev_task task k :
  source_ok s (task :: out) ->
  (forall p, prev_task = Some p ->
     p ∈ out /\
     exists kp,
       WindowGlobalSourceState.tasks s !! N.to_nat p = Some kp /\
       Worker.window_hash_group w = Some (Task.group_idx kp)) ->
  Worker.task w = Some task ->
  Worker.scanner w = None ->
  WindowGlobalSourceState.tasks s !! N.to_nat task = Some k ->
  exists s2 w2 out2,
    enter_group prev_task (Some task) (s, w) = Ok (s2, w2) /\
    source_ok s2 out2 /\
    worker_ok s2 w2 out2 /\
    protocol s (task :: out) s2 out2 /\
    Worker.task w2 = Some task /\
    Worker.scanner w2 = None /\
    WindowGlobalSourceState.tasks s2 = WindowGlobalSourceState.tasks s /\
    WindowGlobalSourceState.next_task s2 = WindowGlobalSourceState.next_task s /\
    ((forall p kp,
         prev_task = Some p ->
         WindowGlobalSourceState.tasks s !! N.to_nat p = Some kp ->
         Task.group_idx kp = Task.group_idx k) ->
     s2 = s).
Proof.
  intros Hs Hprev Htask Hscanner Hk. unfold enter_group, is_new_group. cbn [fst snd].
  assert (forall s2 out2,
             source_ok s2 out2 ->
             task ∈ out2 ->
             WindowGlobalSourceState.tasks s2 = WindowGlobalSourceState.tasks s ->
             let w2 := Worker.set_window_hash_group (Some (Task.group_idx k))
                         (Worker.reset_scanner w) in
             BeginHashGroup (s2, Worker.reset_scanner w) = Ok (s2, w2) /\
             worker_ok s2 w2 out2) as Hbegin.
  { intros s2 out2 Hs2 Hin Htasks w2.
    assert (WindowGlobalSourceState.tasks s2 !! N.to_nat task = Some k) as Hk2
      by (rewrite Htasks; exact Hk).
    split.
    - apply (BeginHashGroup_ok s2 _ out2 task k Hs2); [exact Htask | exact Hin | exact Hk2].
    - split.
      + intros t Ht. cbn in Ht. rewrite Htask in Ht. injection Ht as <-.
        split; [exact Hin |]. exists k. split; [exact Hk2 | reflexivity].
      + intros sc Hsc. discriminate Hsc. }
  destruct prev_task as [p|].
  - destruct (Hprev p eq_refl) as (Hp & kp & Hkp & Hgroup).
    rewrite (at_index_lookup _ _ _ Hk). cbn [mbind outcome_bind].
    rewrite (at_index_lookup _ _ _ Hkp). cbn [mbind outcome_bind].
    destruct (N.eqb_spec (Task.group_idx k) (Task.group_idx kp)) as [Hsame | Hother];
      cbn [negb].
    + (* the same group: the previous task is let go of *)
      exists s, w, (task :: out). split; [reflexivity |]. split; [exact Hs |].
      split; [| split; [apply protocol_here | auto]].
      split.
      * intros t Ht. rewrite Htask in Ht. injection Ht as <-.
        split; [left |]. exists k. split; [exact Hk |]. rewrite Hsame. exact Hgroup.
      * intros sc Hsc. rewrite Hscanner in Hsc. discriminate Hsc.
    + (* another group: finish the previous task and begin *)
      destruct (FinishHashGroup_ok s w (task :: out) (Some p) Hs)
        as (s2 & out2 & Hfin & Hs2 & Hproto & Htasks & Hnext & Hkeep).
      { intros p' [= <-]. right. exact Hp. }
      assert (task ∈ out2) as Hin.
      { apply Hkeep; [left |]. intros [= ->]. apply Hother.
        rewrite Hk in Hkp. injection Hkp as ->. reflexivity. }
      destruct (Hbegin s2 out2 Hs2 Hin Htasks) as [Hrun Hw2].
      rewrite Hfin. cbn [mbind outcome_bind]. rewrite Hrun.
      eexists _, _, out2. split; [reflexivity |]. split; [exact Hs2 |].
      split; [exact Hw2 |]. split; [exact Hproto |].
      do 4 (split; [auto |]).
      intros Hsame. exfalso. apply Hother. symmetry. exact (Hsame p kp eq_refl Hkp).
  - destruct (FinishHashGroup_ok s w (task :: out) None Hs)
      as (s2 & out2 & Hfin & Hs2 & Hproto & Htasks & Hnext & Hkeep).
    { intros p' Hp'. discriminate Hp'. }
    assert (task ∈ out2) as Hin by (apply Hkeep; [left | discriminate]).
    destruct (Hbegin s2 out2 Hs2 Hin Htasks) as [Hrun Hw2].
    assert (s2 = s) as Hsame
      by (unfold FinishHashGroup in Hfin; cbn in Hfin; congruence).
    cbn [mbind outcome_bind]. rewrite Hfin. cbn [mbind outcome_bind]. rewrite Hrun.
    eexists _, _, out2. split; [reflexivity |]. split; [exact Hs2 |].
    split; [exact Hw2 |]. split; [exact Hproto |]. auto 10.
Qed.

Lemma single_group_lookup s gi task k :
  Forall (eq gi) (group_indices s) ->
  WindowGlobalSourceState.tasks s !! N.to_nat task = Some k ->
  Task.group_idx k = gi.
Proof.
  intros Hall Hk. rewrite Forall_forall in Hall. symmetry. apply Hall.
  unfold group_indices. apply list_elem_of_fmap. exists k.
  split; [reflexivity |]. eapply list_elem_of_lookup_2. exact Hk.
Qed.

Lemma next_task_loop_runs m :
  forall s w out,
    (length (WindowGlobalSourceState.tasks s)
     - N.to_nat (WindowGlobalSourceState.next_task s) <= m)%nat ->
    source_ok s out ->
    worker_ok s w out ->
    exists F answer s' w' out',
      (forall fuel, (F <= fuel)%nat ->
         next_task_loop Count Scan fuel (s, w) = Ok (Returns answer (s', w'))) /\
      loop_leaves s out answer s' w' out'.
Proof.
  induction m as [m IH] using lt_wf_ind. intros s w out Hleft Hs Hw.
  destruct (looking_scanner s w out Hw)
    as [(p & k & Hp & Hk & Hex & Hlook) | [Hlook Hscanner]].
  - exists 0%nat, None, s, w, out. split.
    + intros fuel _. destruct fuel; cbn [next_task_loop]; rewrite Hlook; reflexivity.
    + split; [exact Hs |]. split; [exact Hw |]. split; [apply protocol_here |].
      split; [exists p, k; auto | reflexivity].
  - assert (forall p, Worker.task w = Some p ->
              p ∈ out /\
              exists kp,
                WindowGlobalSourceState.tasks s !! N.to_nat p = Some kp /\
                Worker.window_hash_group w = Some (Task.group_idx kp)) as Hprev
      by (destruct Hw as [Ha _]; exact Ha).
    destruct (TryNextTask_source_ok s out Hs) as [[flag Hrun] | (k & Hk & Hrun & Hs1)].
    + (* no task is handed out *)
      destruct (FinishHashGroup_ok s (Worker.set_task None w) out (Worker.task w) Hs)
        as (s1 & out1 & Hfin & Hs1 & Hproto & _).
      { intros p Hp. apply (Hprev p Hp). }
      exists 1%nat, (Some flag), s1,
        (Worker.reset_scanner (Worker.set_task None w)), out1.
      split.
      * intros [|fuel] Hfuel; [lia |]. cbn [next_task_loop]. rewrite Hlook.
        cbn [mbind outcome_bind fst snd]. rewrite Hrun. cbn [mbind outcome_bind].
        destruct flag.
        -- unfold enter_group, is_new_group. cbn [mbind outcome_bind fst snd].
           rewrite Hfin. reflexivity.
        -- rewrite Hfin. reflexivity.
      * split; [exact Hs1 |]. split; [| split; [exact Hproto | split; reflexivity]].
        split; [intros t Ht; discriminate Ht | intros sc Hsc; discriminate Hsc].
    + (* a task is handed out *)
      set (task := WindowGlobalSourceState.next_task s) in *.
      set (s1 := WindowGlobalSourceState.set_next_task (task + 1) s) in *.
      destruct (enter_group_ok s1 (Worker.set_task (Some task) w) out
                  (Worker.task w) task k Hs1)
        as (s2 & w2 & out2 & Henter & Hs2 & Hw2 & Hproto & Htask2 & Hscanner2
            & Htasks2 & Hnext2 & Hsame2).
      { intros p Hp. apply (Hprev p Hp). }
      { reflexivity. }
      { exact Hscanner. }
      { exact Hk. }
      assert (WindowGlobalSourceState.tasks s2 !! N.to_nat task = Some k) as Hk2
        by (rewrite Htasks2; exact Hk).
      assert (N.to_nat task < length (WindowGlobalSourceState.tasks s))%nat as Hlt
        by (eapply lookup_lt_Some; exact Hk).
      assert (protocol s out s2 out2) as Hproto2.
      { eapply protocol_next; [exact Hrun | exact Hproto]. }
      assert (forall s3 w3 out3,
                 source_ok s3 out3 -> worker_ok s3 w3 out3 ->
                 protocol s2 out2 s3 out3 ->
                 work s2 s3 ->
                 length (WindowGlobalSourceState.tasks s3)
                   = length (WindowGlobalSourceState.tasks s2) ->
                 exists F answer s' w' out',
                   (forall fuel, (F <= fuel)%nat ->
                      next_task_loop Count Scan fuel (s3, w3)
                      = Ok (Returns answer (s', w'))) /\
                   loop_leaves s out answer s' w' out') as Hrest.
      { intros s3 w3 out3 Hs3 Hw3 Hproto3 (Hgroups3 & Hnext3 & Hremaining3) Hlen3.
        destruct (IH (length (WindowGlobalSourceState.tasks s3)
                      - N.to_nat (WindowGlobalSourceState.next_task s3))%nat)
          with (s := s3) (w := w3) (out := out3)
          as (F & answer & s' & w' & out' & HF & Hs' & Hw' & Hproto' & Hanswer).
        - rewrite Hnext3, Hlen3, Hnext2, Htasks2. cbn. lia.
        - lia.
        - exact Hs3.
        - exact Hw3.
        - exists F, answer, s', w', out'. split; [exact HF |].
          split; [exact Hs' |]. split; [exact Hw' |]. split.
          + eapply protocol_trans; [exact Hproto2 |].
            eapply protocol_trans; [exact Hproto3 | exact Hproto'].
          + destruct answer as [answer|]; [exact Hanswer |].
            destruct Hanswer as [Hscan Hsingle]. split; [exact Hscan |].
            intros gi Hall.
            assert (group_indices s2 = group_indices s) as Hgroups2
              by (unfold group_indices; rewrite Htasks2; reflexivity).
            rewrite (Hsingle gi) by (rewrite Hgroups3, Hgroups2; exact Hall).
            rewrite Hremaining3, Hsame2; [reflexivity |].
            intros p kp Hp Hkp.
            rewrite (single_group_lookup s gi p kp Hall Hkp).
            rewrite (single_group_lookup s gi task k Hall Hk). reflexivity. }
      destruct Hw2 as [Ha2 Hb2]. pose proof (conj Ha2 Hb2) as Hw2.
      destruct (Ha2 task Htask2) as (Hin2 & k0 & Hk0 & Hgroup2).
      rewrite Hk2 in Hk0. injection Hk0 as <-.
      destruct (source_ok_live s2 out2 task k Hs2 Hin2 Hk2)
        as (g & rows & heap & Hg & Hrows & Hheap).
      pose proof Hs2 as (_ & Hstages & _).
      rewrite Forall_forall in Hstages.
      destruct (Hstages k (list_elem_of_lookup_2 _ _ _ Hk2)) as (Hstage & Hrange & Hend).
      assert (forall F0 st3,
                 (exists F answer s' w' out',
                     (forall fuel, (F <= fuel)%nat ->
                        next_task_loop Count Scan fuel st3
                        = Ok (Returns answer (s', w'))) /\
                     loop_leaves s out answer s' w' out') ->
                 (forall fuel, (F0 <= fuel)%nat ->
                    (k ← at_index (WindowGlobalSourceState.tasks s2) task;
                     match Task.stage k with
                     | SINK =>
                         st ← WindowLocalSourceState_Sink Count Scan fuel (s2, w2);
                         next_task_loop Count Scan fuel st
                     | FINALIZE =>
                         st ← WindowLocalSourceState_Finalize (s2, w2);
                         next_task_loop Count Scan fuel st
                     | GETDATA => next_task_loop Count Scan fuel (s2, w2)
                     | DONE => Ok (Throws "Invalid window source state." (s2, w2))
                     end)
                    = next_task_loop Count Scan fuel st3) ->
                 exists F answer s' w' out',
                   (forall fuel, (F <= fuel)%nat ->
                      next_task_loop Count Scan fuel (s, w)
                      = Ok (Returns answer (s', w'))) /\
                   loop_leaves s out answer s' w' out') as Hloop.
      { intros F0 st3 (F & answer & s' & w' & out' & HF & Hrest') Hbody.
        exists (S (Nat.max F0 F)), answer, s', w', out'. split; [| exact Hrest'].
        intros [|fuel] Hfuel; [lia |]. cbn [next_task_loop]. rewrite Hlook.
        cbn [mbind outcome_bind fst snd]. rewrite Hrun. cbn [mbind outcome_bind].
        fold s1. rewrite Henter. cbn [mbind outcome_bind fst snd].
        rewrite Hbody by lia. apply HF. lia. }
      destruct (Task.stage k) eqn:Hstagek.
      * (* SINK *)
        destruct (Sink_runs (N.to_nat (Task.end_idx k - Task.begin_idx k))
                    s2 w2 task k (Task.group_idx k) g rows heap
                    Htask2 Hgroup2 Hk2 Hg Hrows Hheap)
          as [Fs HFs]; [lia | exact Hend |].
        match type of HFs with
        | forall fuel, _ -> _ = Ok (?s3, ?w3) =>
            destruct (worked_ok s2 w2 out2 task k (Task.group_idx k) g
                        (WindowHashGroup.set_sunk
                           (sunk_after (Count rows) (Task.begin_idx k)
                              (N.to_nat (Task.end_idx k - Task.begin_idx k))
                              (WindowHashGroup.sunk g)) g)
                        Hs2 Hw2 Htask2 Hscanner2 Hk2 Hg eq_refl eq_refl eq_refl)
              as (Hs3 & Hw3 & Hproto3 & Hnext3 & Hlen3 & Hwork3);
            apply (Hloop Fs (s3, w3))
        end.
        -- apply (Hrest _ _ out2); [exact Hs3 | | exact Hproto3 | exact Hwork3 | exact Hlen3].
           apply Hw3; destruct (N.to_nat (Task.end_idx k - Task.begin_idx k));
             try reflexivity; exact Hscanner2.
        -- intros fuel Hfuel. rewrite (at_index_lookup _ _ _ Hk2).
           cbn [mbind outcome_bind]. rewrite Hstagek, (HFs fuel Hfuel). reflexivity.
      * (* FINALIZE *)
        pose proof (Finalize_runs s2 w2 task k (Task.group_idx k) g
                      Htask2 Hgroup2 Hk2 Hg) as Hfinal.
        destruct (worked_ok s2 w2 out2 task k (Task.group_idx k) g (finalize_range k g)
                    Hs2 Hw2 Htask2 Hscanner2 Hk2 Hg eq_refl eq_refl eq_refl)
          as (Hs3 & Hw3 & Hproto3 & Hnext3 & Hlen3 & Hwork3).
        match type of Hfinal with _ = Ok ?st3 => apply (Hloop 0%nat st3) end.
        -- apply (Hrest _ _ out2); [exact Hs3 | | exact Hproto3 | exact Hwork3 | exact Hlen3].
           apply Hw3; [reflexivity | reflexivity | exact Hscanner2].
        -- intros fuel _. rewrite (at_index_lookup _ _ _ Hk2).
           cbn [mbind outcome_bind]. rewrite Hstagek, Hfinal. reflexivity.
      * (* GETDATA *)
        apply (Hloop 0%nat (s2, w2)).
        -- apply (Hrest s2 w2 out2 Hs2 Hw2);
             [apply protocol_here | apply work_refl | reflexivity].
        -- intros fuel _. rewrite (at_index_lookup _ _ _ Hk2).
           cbn [mbind outcome_bind]. rewrite Hstagek. reflexivity.
      * (* no task is DONE *)
        exfalso. unfold states in Hstage. rewrite !elem_of_cons in Hstage.
        destruct Hstage as [X | [X | [X | X]]]; try discriminate X.
        apply elem_of_nil in X. exact X.
Qed.

(** ** One call of the worker *)

Lemma done_with_scanner_ok s w out :
  source_ok s out ->
  worker_ok s w out ->
  exists s1 w1,
    done_with_scanner (s, w) = Ok (s1, w1) /\
    source_ok s1 out /\
    worker_ok s1 w1 out /\
    protocol s out s1 out /\
    work s s1.
Proof.
  intros Hs Hw. unfold done_with_scanner. cbn [fst snd].
  destruct (Worker.scanner w) as [sc|] eqn:Hsc;
    [| exists s, w; split; [reflexivity |]; split; [exact Hs |];
       split; [exact Hw |]; split; [apply protocol_here | apply work_refl]].
  destruct (Worker.Remaining w =? 0);
    [| exists s, w; split; [reflexivity |]; split; [exact Hs |];
       split; [exact Hw |]; split; [apply protocol_here | apply work_refl]].
  destruct Hw as [Ha Hb].
  destruct (Hb sc Hsc) as (task & k & g & Htask & Hk & Hstage & Hlt & _).
  destruct (Ha task Htask) as (Hin & k0 & Hk0 & Hgroup).
  rewrite Hk in Hk0. injection Hk0 as <-.
  pose proof Hs as (_ & Htasks & _). rewrite Forall_forall in Htasks.
  destruct (Htasks k (list_elem_of_lookup_2 _ _ _ Hk)) as (_ & _ & Hend).
  rewrite Htask. cbn [deref mbind outcome_bind].
  rewrite (at_index_lookup _ _ _ Hk). cbn [mbind outcome_bind].
  unfold next_block. eexists _, _. split; [reflexivity |].
  assert (idx.incr (Task.begin_idx k) = Task.begin_idx k + 1) as Hincr
    by (apply incr_small; lia).
  assert (work s (set_task task (Task.set_begin_idx (idx.incr (Task.begin_idx k)) k) s))
    as Hwork by (eapply (set_task_work _ _ k); [exact Hk | reflexivity]).
  split; [| split; [| split; [| exact Hwork]]].
  - eapply source_ok_set_task; [exact Hs | exact Hk | | | |]; try reflexivity.
    cbn. rewrite Hincr. lia.
  - split.
    + intros t Ht. change (Worker.task w = Some t) in Ht.
      rewrite Htask in Ht. injection Ht as <-. split; [exact Hin |].
      eexists. split; [apply (set_task_lookup _ _ k); exact Hk | exact Hgroup].
    + intros sc' Hsc'. discriminate Hsc'.
  - apply protocol_work_step. exact Hwork.
Qed.

Lemma scan_chunk_ok s w out task k :
  source_ok s out ->
  worker_ok s w out ->
  Worker.task w = Some task ->
  WindowGlobalSourceState.tasks s !! N.to_nat task = Some k ->
  task_exhausted k = false ->
  exists size w',
    scan_chunk Count Scan (s, w) = Ok (size, (s, w')) /\
    worker_ok s w' out /\
    Worker.task w' = Some task /\
    is_Some (Worker.scanner w').
Proof.
  intros Hs Hw Htask Hk Hex. pose proof Hw as [Ha Hb].
  destruct (Ha task Htask) as (Hin & k0 & Hk0 & Hgroup).
  rewrite Hk in Hk0. injection Hk0 as <-.
  destruct (source_ok_live s out task k Hs Hin Hk)
    as (g & rows & heap & Hg & Hrows & Hheap).
  unfold task_exhausted in Hex. apply orb_false_iff in Hex as [Hlt Hstage].
  apply N.leb_gt in Hlt. apply negb_false_iff, bool_decide_eq_true in Hstage.
  unfold scan_chunk, task_of. cbn [fst snd].
  rewrite Hgroup, (group_of_lookup _ _ _ Hg). cbn [mbind outcome_bind].
  rewrite Htask. cbn [deref mbind outcome_bind].
  rewrite (at_index_lookup _ _ _ Hk). cbn [mbind outcome_bind].
  unfold open_block.
  change (WindowLocalSourceState.scanner (Worker.lsource w)) with (Worker.scanner w).
  destruct (Worker.scanner w) as [sc|] eqn:Hsc.
  - cbn [mbind outcome_bind]. eexists _, _. split; [reflexivity |].
    split; [| split; [exact Htask | exists sc; exact Hsc]].
    split; [exact Ha |].
    intros sc' Hsc'. apply Hb. change (Worker.scanner w = Some sc') in Hsc'.
    rewrite <- Hsc. exact Hsc'.
  - unfold GetEvaluateScanner. rewrite Hrows, Hheap. cbn [deref mbind outcome_bind].
    eexists _, _. split; [reflexivity |].
    split; [| split; [exact Htask | eexists; reflexivity]].
    split.
    + intros t Ht. change (Worker.task w = Some t) in Ht.
      rewrite Htask in Ht. injection Ht as <-. split; [exact Hin |].
      exists k. split; [exact Hk | exact Hgroup].
    + intros sc' [= <-]. exists task, k, g.
      split; [exact Htask |]. split; [exact Hk |]. split; [exact Hstage |].
      split; [exact Hlt |]. split; [exact Hg |]. split; reflexivity.
Qed.


Lemma sink_each_runs gi rows heap ts :
  forall s w ks g,
    Worker.window_hash_group w = Some gi ->
    WindowPartitionGlobalSinkState.window_hash_groups (WindowGlobalSourceState.gsink s)
      !! N.to_nat gi = Some (Some g) ->
    WindowHashGroup.rows g = Some rows ->
    WindowHashGroup.heap g = Some heap ->
    NoDup ts ->
    Forall2 (fun t k => WindowGlobalSourceState.tasks s !! N.to_nat t = Some k) ts ks ->
    Forall (fun k => Task.begin_idx k <= Task.end_idx k /\ Task.end_idx k < idx.modulus)
      ks ->
    WindowHashGroup.sunk g < idx.modulus ->
    exists F s' w',
      (forall fuel, (F <= fuel)%nat ->
         sink_each Count Scan fuel ts (s, w) = Ok (s', w')) /\
      WindowPartitionGlobalSinkState.window_hash_groups (WindowGlobalSourceState.gsink s')
        !! N.to_nat gi
      = Some (Some (WindowHashGroup.set_sunk
                      (idx.wrap (WindowHashGroup.sunk g + rows_of (Count rows) ks)) g)).
Proof.
  induction ts as [|t ts IH]; intros s w ks g Hw Hg Hrows Hheap Hnodup Hks Hranges Hsunk.
  - apply Forall2_nil_inv_l in Hks as ->. exists 0%nat, s, w. split; [reflexivity |].
    cbn [rows_of foldr]. rewrite N.add_0_r, wrap_small by exact Hsunk.
    rewrite Hg. do 2 f_equal. destruct g. reflexivity.
  - apply Forall2_cons_inv_l in Hks as (k & ks' & Hk & Hks & ->).
    apply Forall_cons in Hranges as [[Hle Hend] Hranges].
    apply NoDup_cons in Hnodup as [Hfresh Hnodup].
    destruct (Sink_runs (N.to_nat (Task.end_idx k - Task.begin_idx k))
                s (Worker.set_task (Some t) w) t k gi g rows heap)
      as [F1 HF1];
      [reflexivity | exact Hw | exact Hk | exact Hg | exact Hrows | exact Hheap
       | lia | exact Hend |].
    rewrite sunk_after_rows in HF1 by exact Hsunk.
    match type of HF1 with
    | forall fuel, _ -> _ = Ok (?s1', ?w1') => set (s1 := s1') in *; set (w1 := w1') in *
    end.
    destruct (IH s1 w1 ks'
                (WindowHashGroup.set_sunk
                   (idx.wrap (WindowHashGroup.sunk g
                              + rows_in (Count rows) (Task.begin_idx k)
                                  (N.to_nat (Task.end_idx k - Task.begin_idx k)))) g))
      as (F & s' & w' & HF & Hg').
    + unfold w1.
      destruct (N.to_nat (Task.end_idx k - Task.begin_idx k)); exact Hw.
    + unfold s1. rewrite <- set_group_set_task. apply set_group_lookup with (g := g).
      exact Hg.
    + exact Hrows.
    + exact Hheap.
    + exact Hnodup.
    + apply Forall2_lookup_ext
        with (f := fun t0 => WindowGlobalSourceState.tasks s !! N.to_nat t0);
        [exact Hks |].
      intros t' Ht'. unfold s1, set_task, set_group.
      cbn [WindowGlobalSourceState.tasks WindowGlobalSourceState.set_gsink].
      apply list_lookup_insert_ne. intros E. apply N2Nat.inj in E. subst t'.
      contradiction.
    + exact Hranges.
    + apply N.mod_upper_bound. discriminate.
    + exists (Nat.max F1 F), s', w'. split.
      * intros fuel Hfuel. cbn [sink_each fst snd]. rewrite HF1 by lia.
        cbn [mbind outcome_bind]. apply HF. lia.
      * rewrite Hg'. do 2 f_equal. unfold WindowHashGroup.set_sunk.
        cbn [WindowHashGroup.hash_group WindowHashGroup.count WindowHashGroup.blocks
             WindowHashGroup.rows WindowHashGroup.heap WindowHashGroup.external
             WindowHashGroup.hash_bin WindowHashGroup.sunk WindowHashGroup.finalized
             WindowHashGroup.tasks_remaining WindowHashGroup.batch_base].
        f_equal. cbn [rows_of foldr]. fold (rows_of (Count rows) ks').
        unfold idx.wrap. rewrite N.Div0.add_mod_idemp_l. f_equal. lia.
Qed.

(** X20: a group leaves SINK when the last of its SINK tasks has been sunk
    and not before.  For a group that holds as many rows as its blocks have,
    none of them empty, whichever of its SINK tasks have been sunk, and in
    whatever order, [sunk] is the number of rows in the blocks of their
    ranges, the blocks of the others hold what is missing to [count], and
    the stage is SINK as long as a task is left and FINALIZE when none
    is. *)
Theorem Sink_barrier (s : WindowGlobalSourceState.t) (w : Worker.t)
    (gi : idx_t) (g : WindowHashGroup.t) (rows heap : RowDataCollection.t)
    (per_thread : N) (b : PartitionBlock)
    (ts : list idx_t) (sunk_tasks rest : list Task.t) :
  Worker.window_hash_group w = Some gi ->
  WindowPartitionGlobalSinkState.window_hash_groups (WindowGlobalSourceState.gsink s)
    !! N.to_nat gi = Some (Some g) ->
  WindowHashGroup.rows g = Some rows ->
  WindowHashGroup.heap g = Some heap ->
  WindowHashGroup.sunk g = 0 ->
  WindowHashGroup.finalized g = 0 ->
  WindowHashGroup.blocks g = b.1 ->
  0 < b.1 < idx.modulus ->
  0 < per_thread ->
  WindowHashGroup.count g = rows_in (Count rows) 0 (N.to_nat b.1) ->
  WindowHashGroup.count g < idx.modulus ->
  (forall block_idx, block_idx < b.1 -> 0 < Count rows block_idx) ->
  NoDup ts ->
  Forall2 (fun t k => WindowGlobalSourceState.tasks s !! N.to_nat t = Some k)
    ts sunk_tasks ->
  sunk_tasks ++ rest ≡ₚ stride_tasks per_thread SINK b ->
  exists fuel s' w' g',
    (forall fuel', (fuel <= fuel')%nat ->
       sink_each Count Scan fuel' ts (s, w) = Ok (s', w')) /\
    WindowPartitionGlobalSinkState.window_hash_groups (WindowGlobalSourceState.gsink s')
      !! N.to_nat gi = Some (Some g') /\
    WindowHashGroup.sunk g' = rows_of (Count rows) sunk_tasks /\
    WindowHashGroup.sunk g' + rows_of (Count rows) rest = WindowHashGroup.count g' /\
    (WindowHashGroup.GetStage g' = SINK <-> rest <> []) /\
    (WindowHashGroup.GetStage g' = FINALIZE <-> rest = []).
Proof.
  intros Hw Hg Hrows Hheap Hzero Hfinalized Hblocks Hb Hp Hcount Hsmall Hfull
    Hnodup Hts Hperm.
  assert (Forall (fun k => Task.begin_idx k < Task.end_idx k /\ Task.end_idx k <= b.1)
            (sunk_tasks ++ rest)) as Hranges.
  { rewrite Hperm. apply Forall_forall. intros k Hk.
    apply stride_tasks_ranges in Hk; [tauto | intros _; exact Hp]. }
  apply Forall_app in Hranges as [Hdone Hrest].
  assert (rows_of (Count rows) sunk_tasks + rows_of (Count rows) rest
          = WindowHashGroup.count g) as Htotal.
  { rewrite <- rows_of_app, (rows_of_Permutation _ _ _ Hperm), Hcount.
    apply rows_of_stride_tasks. exact Hp. }
  assert (rest <> [] -> 0 < rows_of (Count rows) rest) as Hleft.
  { destruct rest as [|k rest]; [congruence |]. intros _.
    apply Forall_cons in Hrest as [[Hlt Hle] _]. cbn [rows_of foldr].
    assert (0 < rows_in (Count rows) (Task.begin_idx k)
                  (N.to_nat (Task.end_idx k - Task.begin_idx k)))
      by (apply rows_in_pos; [lia | apply Hfull; lia]).
    lia. }
  destruct (sink_each_runs gi rows heap ts s w sunk_tasks g
              Hw Hg Hrows Hheap Hnodup Hts) as (F & s' & w' & HF & Hg').
  { eapply Forall_impl; [exact Hdone |]. cbn. intros k. lia. }
  { rewrite Hzero. reflexivity. }
  rewrite Hzero, N.add_0_l, wrap_small in Hg' by lia.
  exists F, s', w'. eexists. split; [exact HF |]. split; [exact Hg' |].
  cbn [WindowHashGroup.sunk WindowHashGroup.count WindowHashGroup.set_sunk].
  split; [reflexivity |]. split; [exact Htotal |].
  unfold WindowHashGroup.GetStage.
  cbn [WindowHashGroup.sunk WindowHashGroup.count WindowHashGroup.finalized
       WindowHashGroup.blocks WindowHashGroup.set_sunk].
  rewrite Hfinalized, Hblocks.
  destruct (N.eqb_spec 0 b.1) as [E | _]; [lia |].
  destruct (N.eqb_spec (rows_of (Count rows) sunk_tasks) (WindowHashGroup.count g))
    as [E | E].
  - assert (rest = []) as ->.
    { destruct rest as [|k rest]; [reflexivity |].
      assert (0 < rows_of (Count rows) (k :: rest)) by (apply Hleft; discriminate).
      lia. }
    split; split; congruence.
  - assert (rest <> []) as Hne.
    { intros ->. cbn [rows_of foldr] in Htotal. lia. }
    split; split; congruence.
Qed.

(** X17: within a group the worker finishes no task.  On a source all of
    whose tasks belong to one group, as it is without PARTITION BY, a call
    of [GetData] that leaves the worker with a task has answered true and
    has called [FinishTask] for none: the groups are in place as before,
    each waiting for as many tasks as before, however many tasks the call
    went through. *)
Theorem GetData_finishes_no_task_within_a_group (chunk : idx_t)
    (s : WindowGlobalSourceState.t) (w : Worker.t) (out : list idx_t)
    (gi : idx_t) :
  source_ok s out ->
  worker_ok s w out ->
  Forall (eq gi) (group_indices s) ->
  exists fuel answer size s' w',
    (forall fuel', (fuel <= fuel')%nat ->
       WindowLocalSourceState_GetData Count Scan fuel' chunk (s, w)
       = Ok (Returns (answer, size) (s', w'))) /\
    (is_Some (Worker.task w') -> answer = true /\ remaining s' = remaining s).
Proof.
  intros Hs Hw Hall.
  destruct (done_with_scanner_ok s w out Hs Hw)
    as (s1 & w1 & Hdone & Hs1 & Hw1 & _ & (Hgroups1 & _ & Hremaining1)).
  destruct (next_task_loop_runs
              (length (WindowGlobalSourceState.tasks s1)
               - N.to_nat (WindowGlobalSourceState.next_task s1))
              s1 w1 out (Nat.le_refl _) Hs1 Hw1)
    as (F & answer & s2 & w2 & out2 & HF & Hs2 & Hw2 & Hproto2 & Hanswer).
  destruct answer as [answer|].
  - destruct Hanswer as [Htask _].
    exists F, answer, chunk, s2, w2. split.
    + intros fuel' Hfuel. unfold WindowLocalSourceState_GetData.
      rewrite Hdone. cbn [mbind outcome_bind]. rewrite (HF fuel' Hfuel). reflexivity.
    + intros [t Ht]. rewrite Htask in Ht. discriminate Ht.
  - destruct Hanswer as [(task & k & Htask & Hk & Hex) Hsingle].
    destruct (scan_chunk_ok s2 w2 out2 task k Hs2 Hw2 Htask Hk Hex)
      as (size & w3 & Hscan & _).
    exists F, true, size, s2, w3. split.
    + intros fuel' Hfuel. unfold WindowLocalSourceState_GetData.
      rewrite Hdone. cbn [mbind outcome_bind]. rewrite (HF fuel' Hfuel).
      cbn [mbind outcome_bind]. rewrite Hscan. reflexivity.
    + intros _. split; [reflexivity |].
      rewrite (Hsingle gi) by (rewrite Hgroups1; exact Hall).
      exact Hremaining1.
Qed.

End WorkerRuns.

(** ** From the constructor to the workers *)

Lemma bump_all_equipped per_thread pbs :
  forall groups,
    Forall equipped groups -> Forall equipped (bump_all per_thread pbs groups).
Proof.
  induction pbs as [|b pbs IH]; intros groups Hall; [exact Hall |].
  rewrite bump_all_cons. apply IH. unfold bump. apply Forall_alter; [exact Hall |].
  intros slot _ Hslot g Hg. destruct slot as [g0|]; [| discriminate Hg].
  cbn in Hg. injection Hg as <-. exact (Hslot g0 eq_refl).
Qed.

Section ReadyForTheWorkers.

Variable AlignHeapBlocks :
  RowDataCollection.t -> RowDataCollection.t ->
  RowDataCollection.t -> RowDataCollection.t -> Aligned.t.

(** X18: the constructor leaves the source as the workers need it.  Built
    over groups that have their rows and heap and wait for no task yet, the
    source has its books in order with no task handed out, every task has
    the stage SINK, FINALIZE or GETDATA and a range that is not empty and
    ends within the blocks of its group, and every group still has its rows
    and heap: the state in which a worker's [GetData] can be called. *)
Theorem construction_source_ok (fuel : nat) (threads : idx_t)
    (gsink gpart : WindowPartitionGlobalSinkState.t) :
  prepare_hash_groups AlignHeapBlocks gsink = Ok gpart ->
  let groups := WindowPartitionGlobalSinkState.window_hash_groups gpart in
  groups <> [] ->
  Forall populated groups ->
  Forall equipped groups ->
  Forall (fun slot => forall g, slot = Some g -> WindowHashGroup.tasks_remaining g = 0)
    groups ->
  idx.size groups <= idx.modulus ->
  0 < threads ->
  Forall (schedulable fuel threads) groups ->
  3 * total_blocks groups < idx.modulus ->
  exists source,
    WindowGlobalSourceState_ctor AlignHeapBlocks fuel threads gsink = Ok source /\
    source_ok source [] /\
    Forall (fun k =>
              exists slot,
                groups !! N.to_nat (Task.group_idx k) = Some slot /\
                Task.begin_idx k < Task.end_idx k <= block_count_of slot)
      (WindowGlobalSourceState.tasks source).
Proof.
  intros Hprep groups Hne Hpop Hequipped Hfresh Hlen Hthreads Hsched Htotal.
  destruct (construction_books AlignHeapBlocks fuel threads gsink gpart
              Hprep Hne Hpop Hfresh Hlen Hthreads Hsched Htotal)
    as (source & Hctor & Hacc & _ & Htasks & Hgroups).
  fold groups in Htasks, Hgroups. cbv zeta in Htasks, Hgroups.
  assert (forall k,
             k ∈ WindowGlobalSourceState.tasks source ->
             exists slot,
               groups !! N.to_nat (Task.group_idx k) = Some slot /\
               Task.stage k ∈ states /\
               Task.begin_idx k < Task.end_idx k <= block_count_of slot /\
               block_count_of slot < idx.modulus) as Hranges.
  { intros k Hk. rewrite Htasks in Hk.
    apply list_elem_of_bind in Hk as (b & Hk & Hb).
    assert (std_sort_greater (indexed_blocks 0 groups) ≡ₚ indexed_blocks 0 groups)
      as Hperm by apply merge_sort_Permutation.
    rewrite Hperm in Hb.
    apply elem_of_indexed_blocks in Hb as (i & slot & Hslot & ->).
    assert (slot ∈ groups) as Hin by (eapply list_elem_of_lookup_2; exact Hslot).
    apply group_tasks_ranges in Hk as (Hstage & Hgroup & _ & Hlt & Hle & _);
      cycle 1.
    { cbn [fst]. intros Hnz. apply ceil_div_pos; [exact Hthreads |].
      pose proof (max_blocks_upper groups slot Hin). lia. }
    cbn [fst snd] in Hgroup, Hle. exists slot.
    rewrite Hgroup. replace (N.to_nat (0 + N.of_nat i)) with i by lia.
    split; [exact Hslot |]. split; [exact Hstage |]. split; [lia |].
    rewrite Forall_forall in Hsched. destruct (Hsched _ Hin) as (Hsmall & _). lia. }
  exists source. split; [exact Hctor |]. split; [split; [exact Hacc | split] |].
  - apply Forall_forall. intros k Hk.
    destruct (Hranges k Hk) as (slot & _ & Hstage & Hrange & Hsmall).
    split; [exact Hstage | lia].
  - rewrite Hgroups. apply bump_all_equipped. exact Hequipped.
  - apply Forall_forall. intros k Hk.
    destruct (Hranges k Hk) as (slot & Hslot & _ & Hrange & _).
    exists slot. split; [exact Hslot | exact Hrange].
Qed.

End ReadyForTheWorkers.

(** ** The sample scanner at work *)

(** ** From the merge to the constructor *)

Section MergeCallbacks.

Variable AlignHeapBlocks :
  RowDataCollection.t -> RowDataCollection.t ->
  RowDataCollection.t -> RowDataCollection.t -> Aligned.t.

Lemma OnSortedPartition_sorted gpart group_idx bin :
  WindowPartitionGlobalSinkState.rows gpart = None ->
  WindowPartitionGlobalSinkState.hash_groups gpart !! N.to_nat group_idx = Some bin ->
  sorted_bin bin ->
  (N.to_nat group_idx
   < length (WindowPartitionGlobalSinkState.window_hash_groups gpart))%nat ->
  exists g,
    OnSortedPartition AlignHeapBlocks group_idx gpart
    = Ok (WindowPartitionGlobalSinkState.set_window_hash_groups
            (<[N.to_nat group_idx := Some g]>
               (WindowPartitionGlobalSinkState.window_hash_groups gpart))
            (WindowPartitionGlobalSinkState.set_hash_groups
               (<[N.to_nat group_idx := None]>
                  (WindowPartitionGlobalSinkState.hash_groups gpart)) gpart)) /\
    is_Some (WindowHashGroup.rows g) /\
    is_Some (WindowHashGroup.heap g) /\
    WindowHashGroup.tasks_remaining g = 0.
Proof.
  intros Hrows Hbin (hg & sd & rest & -> & Hsorted & Hdata) Hlt.
  destruct (lookup_lt_is_Some_2 _ _ Hlt) as [slot Hslot].
  unfold OnSortedPartition.
  rewrite (WindowHashGroup_ctor_hashed AlignHeapBlocks gpart group_idx hg);
    [| intros [[rows Hsome] _]; congruence | exact Hbin].
  unfold MaterializeSortedData.
  cbn [WindowHashGroup.hash_group deref mbind outcome_bind]. rewrite Hsorted.
  destruct (SortedData.data_blocks sd) as [|b bs] eqn:Hblocks; [congruence |].
  change (at_index (b :: bs) 0) with (Ok b). cbn [mbind outcome_bind].
  destruct (SortedData.heap_blocks sd) as [|h hs];
    cbn [mbind outcome_bind WindowPartitionGlobalSinkState.window_hash_groups
         WindowPartitionGlobalSinkState.set_hash_groups];
    rewrite (at_index_lookup _ _ _ Hslot); cbn [mbind outcome_bind];
    (eexists; split; [reflexivity |]);
    (split; [eexists; reflexivity |]); (split; [eexists; reflexivity |]);
    reflexivity.
Qed.

Lemma sort_partitions_runs bins :
  forall gpart,
    WindowPartitionGlobalSinkState.rows gpart = None ->
    NoDup bins ->
    (forall i, i ∈ bins ->
       (N.to_nat i
        < length (WindowPartitionGlobalSinkState.window_hash_groups gpart))%nat /\
       exists bin,
         WindowPartitionGlobalSinkState.hash_groups gpart !! N.to_nat i = Some bin /\
         sorted_bin bin) ->
    exists gpart',
      sort_partitions AlignHeapBlocks bins gpart = Ok gpart' /\
      length (WindowPartitionGlobalSinkState.window_hash_groups gpart')
      = length (WindowPartitionGlobalSinkState.window_hash_groups gpart) /\
      length (WindowPartitionGlobalSinkState.hash_groups gpart')
      = length (WindowPartitionGlobalSinkState.hash_groups gpart) /\
      (forall i, i ∈ bins ->
         WindowPartitionGlobalSinkState.hash_groups gpart' !! N.to_nat i = Some None /\
         exists g,
           WindowPartitionGlobalSinkState.window_hash_groups gpart' !! N.to_nat i
           = Some (Some g) /\
           is_Some (WindowHashGroup.rows g) /\
           is_Some (WindowHashGroup.heap g) /\
           WindowHashGroup.tasks_remaining g = 0) /\
      (forall j, (forall i, i ∈ bins -> N.to_nat i <> j) ->
         WindowPartitionGlobalSinkState.window_hash_groups gpart' !! j
         = WindowPartitionGlobalSinkState.window_hash_groups gpart !! j /\
         WindowPartitionGlobalSinkState.hash_groups gpart' !! j
         = WindowPartitionGlobalSinkState.hash_groups gpart !! j).
Proof.
  induction bins as [|i bins IH]; intros gpart Hrows Hnodup Hbins.
  - exists gpart. split; [reflexivity |]. split; [reflexivity |].
    split; [reflexivity |]. split; [| auto].
    intros i Hi. apply elem_of_nil in Hi. contradiction.
  - apply NoDup_cons in Hnodup as [Hfresh Hnodup].
    destruct (Hbins i) as (Hlt & bin & Hbin & Hsorted); [left |].
    destruct (OnSortedPartition_sorted gpart i bin Hrows Hbin Hsorted Hlt)
      as (g & Hrun & Hg).
    match type of Hrun with _ = Ok ?gp => set (gpart1 := gp) in * end.
    assert (forall j, j <> N.to_nat i ->
              WindowPartitionGlobalSinkState.window_hash_groups gpart1 !! j
              = WindowPartitionGlobalSinkState.window_hash_groups gpart !! j /\
              WindowPartitionGlobalSinkState.hash_groups gpart1 !! j
              = WindowPartitionGlobalSinkState.hash_groups gpart !! j) as Hother.
    { intros j Hj. unfold gpart1.
      cbn [WindowPartitionGlobalSinkState.window_hash_groups
           WindowPartitionGlobalSinkState.hash_groups
           WindowPartitionGlobalSinkState.set_window_hash_groups
           WindowPartitionGlobalSinkState.set_hash_groups].
      split; apply list_lookup_insert_ne; congruence. }
    assert (length (WindowPartitionGlobalSinkState.window_hash_groups gpart1)
            = length (WindowPartitionGlobalSinkState.window_hash_groups gpart)
            /\ length (WindowPartitionGlobalSinkState.hash_groups gpart1)
               = length (WindowPartitionGlobalSinkState.hash_groups gpart))
      as [Hlen1 Hlen2] by (split; apply length_insert).
    destruct (IH gpart1) as (gpart' & Hrest & Hlen & Hlen' & Hdone & Hleft).
    { exact Hrows. }
    { exact Hnodup. }
    { intros i' Hi'. destruct (Hbins i') as (Hlt' & Hbin'); [right; exact Hi' |].
      assert (N.to_nat i' <> N.to_nat i) as Hne
        by (intros E; apply N2Nat.inj in E; subst i'; contradiction).
      destruct (Hother _ Hne) as [_ ->]. rewrite Hlen1. split; assumption. }
    exists gpart'. split; [| split; [| split; [| split]]].
    + cbn [sort_partitions]. rewrite Hrun. exact Hrest.
    + congruence.
    + congruence.
    + intros i' Hi'. apply elem_of_cons in Hi' as [-> | Hi']; [| apply Hdone; exact Hi'].
      destruct (Hleft (N.to_nat i)) as [-> ->].
      { intros i' Hi' E. apply N2Nat.inj in E. subst i'. contradiction. }
      unfold gpart1.
      cbn [WindowPartitionGlobalSinkState.window_hash_groups
           WindowPartitionGlobalSinkState.hash_groups
           WindowPartitionGlobalSinkState.set_window_hash_groups
           WindowPartitionGlobalSinkState.set_hash_groups].
      split.
      * apply list_lookup_insert_eq. eapply lookup_lt_Some. exact Hbin.
      * exists g. split; [apply list_lookup_insert_eq; exact Hlt | exact Hg].
    + intros j Hj. destruct (Hleft j) as [-> ->].
      { intros i' Hi'. apply Hj. right. exact Hi'. }
      apply Hother. intros E. apply (Hj i); [left | symmetry; exact E].
Qed.

(** X19: the merge callbacks fill the slots the constructor needs.
    [OnBeginMerge] makes one slot per hash bin, and [OnSortedPartition] for
    a bin beyond them is an access out of range.  With every bin sorted into
    data blocks and no unpartitioned rows, one [OnSortedPartition] per bin,
    in whatever order, leaves every slot with a group that has its rows and
    heap and waits for no task, and every bin of the partitioner empty. *)
Theorem OnSortedPartition_fills_the_slots
    (gpart : WindowPartitionGlobalSinkState.t) (bins : list idx_t) :
  let n := idx.size (WindowPartitionGlobalSinkState.hash_groups gpart) in
  WindowPartitionGlobalSinkState.rows gpart = None ->
  Forall sorted_bin (WindowPartitionGlobalSinkState.hash_groups gpart) ->
  NoDup bins ->
  (forall i, i ∈ bins <-> i < n) ->
  (forall i, n <= i ->
     OnSortedPartition AlignHeapBlocks i (OnBeginMerge gpart) = Fault OutOfRange) /\
  exists gpart',
    sort_partitions AlignHeapBlocks bins (OnBeginMerge gpart) = Ok gpart' /\
    idx.size (WindowPartitionGlobalSinkState.window_hash_groups gpart') = n /\
    Forall populated (WindowPartitionGlobalSinkState.window_hash_groups gpart') /\
    Forall equipped (WindowPartitionGlobalSinkState.window_hash_groups gpart') /\
    Forall (fun slot => forall g, slot = Some g -> WindowHashGroup.tasks_remaining g = 0)
      (WindowPartitionGlobalSinkState.window_hash_groups gpart') /\
    Forall (eq None) (WindowPartitionGlobalSinkState.hash_groups gpart').
Proof.
  intros n Hrows Hsorted Hnodup Hbins.
  assert (length (WindowPartitionGlobalSinkState.window_hash_groups (OnBeginMerge gpart))
          = length (WindowPartitionGlobalSinkState.hash_groups gpart)) as Hslots.
  { unfold OnBeginMerge, resize.
    cbn [WindowPartitionGlobalSinkState.window_hash_groups
         WindowPartitionGlobalSinkState.set_window_hash_groups].
    rewrite length_app, length_take, length_replicate. lia. }
  split.
  - intros i Hi. unfold OnSortedPartition.
    rewrite WindowHashGroup_ctor_empty_bin.
    + cbn [mbind outcome_bind]. unfold at_index.
      rewrite (proj2 (lookup_ge_None _ _)); [reflexivity |].
      rewrite Hslots. unfold n, idx.size in Hi. lia.
    + intros [[rows Hsome] _]. cbn in Hsome. congruence.
    + cbn [OnBeginMerge WindowPartitionGlobalSinkState.hash_groups
           WindowPartitionGlobalSinkState.set_window_hash_groups].
      rewrite (proj2 (lookup_ge_None _ _)); [reflexivity |].
      unfold n, idx.size in Hi. lia.
  - destruct (sort_partitions_runs bins (OnBeginMerge gpart))
      as (gpart' & Hrun & Hlen & Hlen' & Hdone & _).
    { exact Hrows. }
    { exact Hnodup. }
    { intros i Hi. apply Hbins in Hi. unfold n, idx.size in Hi.
      rewrite Hslots. split; [lia |].
      destruct (lookup_lt_is_Some_2
                  (WindowPartitionGlobalSinkState.hash_groups gpart) (N.to_nat i))
        as [bin Hbin]; [lia |].
      exists bin. split; [exact Hbin |].
      rewrite Forall_forall in Hsorted. apply Hsorted.
      eapply list_elem_of_lookup_2. exact Hbin. }
    rewrite Hslots in Hlen.
    change (WindowPartitionGlobalSinkState.hash_groups (OnBeginMerge gpart))
      with (WindowPartitionGlobalSinkState.hash_groups gpart) in Hlen'.
    assert (forall j, (j < length (WindowPartitionGlobalSinkState.hash_groups gpart))%nat ->
              WindowPartitionGlobalSinkState.hash_groups gpart' !! j = Some None /\
              exists g,
                WindowPartitionGlobalSinkState.window_hash_groups gpart' !! j
                = Some (Some g) /\
                is_Some (WindowHashGroup.rows g) /\
                is_Some (WindowHashGroup.heap g) /\
                WindowHashGroup.tasks_remaining g = 0) as Hall.
    { intros j Hj. rewrite <- (Nat2N.id j). apply Hdone, Hbins.
      unfold n, idx.size. lia. }
    exists gpart'. split; [exact Hrun |].
    split; [unfold n, idx.size; congruence |].
    repeat split; apply Forall_lookup; intros j x Hx.
    + destruct (Hall j) as (_ & g & Hg & [rows Hr] & _);
        [rewrite <- Hlen; eapply lookup_lt_Some; exact Hx |].
      rewrite Hg in Hx. injection Hx as <-. exists g, rows. auto.
    + destruct (Hall j) as (_ & g & Hg & Hr & Hh & _);
        [rewrite <- Hlen; eapply lookup_lt_Some; exact Hx |].
      rewrite Hg in Hx. injection Hx as <-. intros g0 [= <-]. auto.
    + destruct (Hall j) as (_ & g & Hg & _ & _ & Hzero);
        [rewrite <- Hlen; eapply lookup_lt_Some; exact Hx |].
      rewrite Hg in Hx. injection Hx as <-. intros g0 [= <-]. exact Hzero.
    + destruct (Hall j) as (Hnone & _);
        [rewrite <- Hlen'; eapply lookup_lt_Some; exact Hx |].
      congruence.
Qed.

End MergeCallbacks.

Lemma block_rows_fits rows block_idx : block_rows rows block_idx < idx.modulus.
Proof.
  unfold block_rows. destruct (_ !! _); [| reflexivity].
  apply N.mod_upper_bound. discriminate.
Qed.

Lemma two_at_a_time_some remaining :
  two_at_a_time remaining <= remaining
  /\ (0 < remaining -> 0 < two_at_a_time remaining).
Proof. unfold two_at_a_time. lia. Qed.

(** The first SINK task of a fresh two-block group: the three rows of
    block 0 are sunk. *)
Lemma Sink_sinks_its_range_witness :
  exists fuel,
    WindowLocalSourceState_Sink block_rows two_at_a_time fuel
      (source_at 1 fresh_group, sinking_worker)
    = Ok (set_task 0 (Task.mk SINK 0 2 1 1)
            (set_group 0 (WindowHashGroup.set_sunk 3 fresh_group)
               (source_at 1 fresh_group)),
          Worker.reset_scanner sinking_worker).
Proof.
  destruct (Sink_sinks_its_range block_rows two_at_a_time block_rows_fits
              two_at_a_time_some (source_at 1 fresh_group) sinking_worker
              0 (Task.mk SINK 0 2 0 1) 0 fresh_group)
    as [Hrows _].
  - reflexivity.
  - reflexivity.
  - reflexivity.
  - reflexivity.
  - cbn. lia.
  - reflexivity.
  - reflexivity.
  - destruct (Hrows two_blocks (RowDataCollection.mk [] 0 true) eq_refl eq_refl)
      as [fuel Hfuel].
    exists fuel. apply Hfuel. lia.
Defined.


(** The same call on the same source, all of whose tasks are tasks of
    group 0. *)
Lemma GetData_finishes_no_task_within_a_group_witness :
  exists fuel answer size s' w',
    WindowLocalSourceState_GetData block_rows two_at_a_time fuel 0
      (source_at 0 fresh_group, idle_worker)
    = Ok (Returns (answer, size) (s', w')) /\
    (is_Some (Worker.task w') ->
     answer = true /\ remaining s' = remaining (source_at 0 fresh_group)).
Proof.
  destruct (GetData_finishes_no_task_within_a_group block_rows two_at_a_time
              block_rows_fits two_at_a_time_some 0 (source_at 0 fresh_group)
              idle_worker [] 0)
    as (fuel & answer & size & s' & w' & Hrun & Hsame).
  - split; [| split].
    + split; [reflexivity |]. split; [constructor |].
      intros [|p].
      * vm_compute. repeat split; try reflexivity. discriminate.
      * destruct (Pos2Nat.is_succ p) as [n Hn].
        change (N.to_nat (N.pos p)) with (Pos.to_nat p). rewrite Hn.
        split; reflexivity.
    + repeat constructor; cbn; try lia; unfold states; rewrite !elem_of_cons; auto.
    + constructor; [| constructor]. intros g0 [= <-]. split; eexists; reflexivity.
  - split; [intros task Htask; discriminate Htask | intros sc Hsc; discriminate Hsc].
  - repeat constructor.
  - exists fuel, answer, size, s', w'. split; [apply Hrun; lia | exact Hsame].
Defined.

(** Two groups of two and five blocks on two threads: the source is ready
    for the workers. *)
Lemma construction_source_ok_witness :
  exists source,
    WindowGlobalSourceState_ctor hand_over 5 2 two_groups = Ok source /\
    source_ok source [].
Proof.
  destruct (construction_source_ok hand_over 5 2 two_groups
              (WindowPartitionGlobalSinkState.set_window_hash_groups
                 (assign_batch_base 0
                    (WindowPartitionGlobalSinkState.window_hash_groups two_groups))
                 two_groups))
    as (source & Hrun & Hok & _).
  - reflexivity.
  - discriminate.
  - repeat constructor; eexists _, _; split; reflexivity.
  - constructor; [| constructor; [| constructor]];
      intros g [= <-]; split; eexists; reflexivity.
  - repeat constructor; intros g [= <-]; reflexivity.
  - vm_compute. discriminate.
  - reflexivity.
  - repeat constructor; vm_compute; try reflexivity; lia.
  - reflexivity.
  - exists source. split; [exact Hrun | exact Hok].
Defined.

(** A partition of one bin, sorted out of core into two data blocks: after
    the merge its slot holds a group with rows. *)
Lemma OnSortedPartition_fills_the_slots_witness :
  exists gpart',
    sort_partitions hand_over [0] (OnBeginMerge (hashed_partition (Some spilled_bin)))
    = Ok gpart' /\
    Forall populated (WindowPartitionGlobalSinkState.window_hash_groups gpart').
Proof.
  destruct (OnSortedPartition_fills_the_slots hand_over
              (hashed_partition (Some spilled_bin)) [0])
    as [_ (gpart' & Hrun & _ & Hpop & _)].
  - reflexivity.
  - constructor; [| constructor].
    eexists _, _, _. split; [reflexivity |]. split; [reflexivity | discriminate].
  - apply NoDup_singleton.
  - intros i. rewrite list_elem_of_singleton. change (i = 0 <-> i < 1). lia.
  - exists gpart'. split; [exact Hrun | exact Hpop].
Defined.

(** The two SINK tasks of a fresh two-block group, the second one first:
    all five rows are sunk and the group is in FINALIZE. *)
Lemma Sink_barrier_witness :
  exists fuel s' w' g',
    sink_each block_rows two_at_a_time fuel [1; 0]
      (source_at 0 fresh_group, sinking_worker) = Ok (s', w') /\
    WindowPartitionGlobalSinkState.window_hash_groups (WindowGlobalSourceState.gsink s')
      !! 0%nat = Some (Some g') /\
    WindowHashGroup.sunk g' = 5 /\
    WindowHashGroup.GetStage g' = FINALIZE.
Proof.
  destruct (Sink_barrier block_rows two_at_a_time block_rows_fits two_at_a_time_some
              (source_at 0 fresh_group) sinking_worker 0 fresh_group two_blocks
              (RowDataCollection.mk [] 0 true) 1 (2, 0) [1; 0]
              [Task.mk SINK 0 2 1 2; Task.mk SINK 0 2 0 1] [])
    as (fuel & s' & w' & g' & Hrun & Hg' & Hsunk & _ & _ & Hstage).
  - reflexivity.
  - reflexivity.
  - reflexivity.
  - reflexivity.
  - reflexivity.
  - reflexivity.
  - reflexivity.
  - split; reflexivity.
  - reflexivity.
  - reflexivity.
  - reflexivity.
  - intros block_idx Hlt. cbn [fst] in Hlt.
    assert (block_idx = 0 \/ block_idx = 1) as [-> | ->] by lia; reflexivity.
  - constructor; [| apply NoDup_singleton].
    rewrite list_elem_of_singleton. discriminate.
  - repeat constructor.
  - apply perm_swap.
  - exists fuel, s', w', g'. split; [apply Hrun; lia |]. split; [exact Hg' |].
    split; [exact Hsunk | apply Hstage; reflexivity].
Defined.

(** What that call does: it sinks both blocks, finalizes both, and opens
    the scanner on block 0, of which it hands on the first two rows as batch
    0; none of the four tasks it went through has been finished. *)
Lemma GetData_sample_call :
  exists s' w',
    WindowLocalSourceState_GetData block_rows two_at_a_time 6 0
      (source_at 0 fresh_group, idle_worker)
    = Ok (Returns (true, 2) (s', w')) /\
    WindowGlobalSourceState.next_task s' = 5 /\
    Worker.task w' = Some 4 /\
    GetBatchIndex (Worker.lsource w') = 0 /\
    Worker.Remaining w' = 1 /\
    WindowPartitionGlobalSinkState.window_hash_groups (WindowGlobalSourceState.gsink s')
    = [Some (WindowHashGroup.set_finalized 2 (WindowHashGroup.set_sunk 5 fresh_group))].
Proof. eexists _, _. split; [vm_compute; reflexivity |]. repeat split. Qed.
